(** * Reduction scheduling utilities (csrc/scheduler/reduction_utils.cpp)

    A shallow embedding of the reduction scheduler of the fuser:
    the canonical axis order ([idPos], [sortAndRFactor]), the loop-nest
    builder ([scheduleReductionTV]), the propagation driver
    ([multiReductionInliner]) and the persistent buffer projector
    ([projectPersistentBuffers]), with the properties of their
    specification stated and proved over the embedding. *)

From Stdlib Require Import ZArith Lia.
From stdpp Require Import base option list gmap strings sorting.

Local Open Scope Z_scope.

(** ** Results of fallible code

    [TORCH_INTERNAL_ASSERT] throws; the exception carries its message and
    leaves the objects mutated so far as they are.  A computation is a
    state transformer that returns the state it reached together with
    either a value or the diagnostic. *)

Inductive result (A : Type) : Type :=
  | Ok (a : A)
  | Fatal (msg : string).
Arguments Ok {A} a.
Arguments Fatal {A} msg.

Definition is_fatal {A} (r : result A) : bool :=
  match r with Fatal _ => true | Ok _ => false end.

Definition M (S A : Type) : Type := S -> S * result A.

Definition ret {S A} (a : A) : M S A := fun s => (s, Ok a).

Definition bind {S A B} (m : M S A) (k : A -> M S B) : M S B :=
  fun s => match m s with
           | (s', Ok a) => k a s'
           | (s', Fatal msg) => (s', Fatal msg)
           end.

Definition fatal {S A} (msg : string) : M S A := fun s => (s, Fatal msg).

Definition TORCH_INTERNAL_ASSERT {S} (cond : bool) (msg : string) : M S unit :=
  if cond then ret tt else fatal msg.

Definition get {S} : M S S := fun s => (s, Ok s).
Definition modify {S} (f : S -> S) : M S unit := fun s => (f s, Ok tt).
Definition when {S} (c : bool) (m : M S unit) : M S unit :=
  if c then m else ret tt.

Declare Scope sched_scope.
Delimit Scope sched_scope with sched.
Notation "x <- m ;; k" := (bind m (fun x => k))
  (at level 100, m at next level, right associativity) : sched_scope.
Notation "m ;;; k" := (bind m (fun _ => k))
  (at level 100, right associativity) : sched_scope.

(** ** Data model *)

(** Modelled from the spec: the declaration of [ParallelType] is not part
    of the sources at hand.  The spec lists serial, unroll, vectorize,
    misaligned-vectorize, unswitch, group, the per-grid dimensions
    (block indices, BIDx/y/z) and the per-block dimensions (thread
    indices, TIDx/y/z). *)
Inductive ParallelType : Type :=
  | BIDz | BIDy | BIDx
  | TIDz | TIDy | TIDx
  | Vectorize | MisalignedVectorize | Unroll | Unswitch | Group | Serial.

#[global] Instance ParallelType_eq_dec : EqDecision ParallelType.
Proof. solve_decision. Defined.

Definition ptype_eqb (p q : ParallelType) : bool := bool_decide (p = q).

(** Modelled from the spec: [isParallelTypeBlockDim], [isParallelTypeThreadDim]
    and [isParallelTypeThread] are declared outside the sources at hand. *)
Definition isParallelTypeBlockDim (p : ParallelType) : bool :=
  match p with BIDz | BIDy | BIDx => true | _ => false end.

Definition isParallelTypeThreadDim (p : ParallelType) : bool :=
  match p with TIDz | TIDy | TIDx => true | _ => false end.

Definition isParallelTypeThread (p : ParallelType) : bool :=
  isParallelTypeBlockDim p || isParallelTypeThreadDim p.

(** Modelled from the spec: the scalar IR is declared outside this
    translation unit.  Extents are scalar expressions: integer constants,
    named (symbolic) scalars, the run-time size of a parallel dimension
    ([NamedScalar::getParallelDim]) and the quotients made by splits. *)
Inductive Val : Type :=
  | IntConst (z : Z)
  | NamedScalar (nm : string)
  | ParallelDim (p : ParallelType)
  | CeilDiv (a b : Val).

(** Modelled from the spec: an extent is constant when it is built from
    integer constants only. *)
Fixpoint isConstScalar (v : Val) : bool :=
  match v with
  | IntConst _ => true
  | NamedScalar _ => false
  | ParallelDim _ => false
  | CeilDiv a b => isConstScalar a && isConstScalar b
  end.

(** Modelled from the spec: the value of a constant extent, a split
    quotient being a ceiling division. *)
Fixpoint evaluateInt (v : Val) : option Z :=
  match v with
  | IntConst z => Some z
  | NamedScalar _ => None
  | ParallelDim _ => None
  | CeilDiv a b =>
      match evaluateInt a, evaluateInt b with
      | Some x, Some y => if y =? 0 then None else Some ((x + y - 1) / y)
      | _, _ => None
      end
  end.

(** Modelled from the spec: [Val::isOneInt], the extent is the constant
    one. *)
Definition isOneInt (v : Val) : bool :=
  match evaluateInt v with
  | Some z => z =? 1
  | None => false
  end.

(** Modelled from the spec: [IterDomain] is declared outside this
    translation unit; the record has the accessors this file calls on an
    axis.  [id_name] stands for the address of the [IterDomain] object:
    containers keyed by [IterDomain*] are keyed by it. *)
Record IterDomain : Type := mkIterDomain {
  id_name : nat;
  isReduction : bool;
  isBroadcast : bool;
  extent : Val;
  getParallelType : ParallelType;
  isRFactorProduct : bool;
  hasPaddingToMultipleOfWarp : bool
}.

#[global] Instance Val_eq_dec : EqDecision Val.
Proof. solve_decision. Defined.

#[global] Instance IterDomain_eq_dec : EqDecision IterDomain.
Proof. solve_decision. Defined.

(** Modelled from the spec: [IterDomain::isImplicitBroadcast], a
    broadcast axis of extent one. *)
Definition isImplicitBroadcast (id : IterDomain) : bool :=
  isBroadcast id && isOneInt (extent id).

(** Modelled from the spec: [IterDomain::isThread], [isBlockDim] and
    [isThreadDim] test the parallel type of the axis. *)
Definition isThread (id : IterDomain) : bool :=
  isParallelTypeThread (getParallelType id).
Definition isBlockDim (id : IterDomain) : bool :=
  isParallelTypeBlockDim (getParallelType id).
Definition isThreadDim (id : IterDomain) : bool :=
  isParallelTypeThreadDim (getParallelType id).

(** Modelled from the spec: [IterDomain::parallelize] and
    [IterDomain::padToMultipleOfWarp] set one attribute of the axis. *)
Definition parallelize (p : ParallelType) (id : IterDomain) : IterDomain :=
  mkIterDomain (id_name id) (isReduction id) (isBroadcast id) (extent id) p
               (isRFactorProduct id) (hasPaddingToMultipleOfWarp id).

Definition padToMultipleOfWarp (id : IterDomain) : IterDomain :=
  mkIterDomain (id_name id) (isReduction id) (isBroadcast id) (extent id)
               (getParallelType id) (isRFactorProduct id) true.

(** ** The canonical axis order *)

Definition INT_MAX : Z := 2147483647.
Definition INT_MIN : Z := -2147483648.

Definition isUnrollOrVectorize (p : ParallelType) : bool :=
  ptype_eqb p Unroll || ptype_eqb p Vectorize || ptype_eqb p MisalignedVectorize.

(** [idPos]: convert properties of an ID to a numeric value. *)
Definition idPos (id : IterDomain) : Z :=
  let inner_most := INT_MAX in
  let outer_most := INT_MIN in
  (* Reduction and unrolled *)
  if isReduction id && isUnrollOrVectorize (getParallelType id) then inner_most else
  let inner_most := inner_most - 1 in
  (* Reduction and constant *)
  if isReduction id && isConstScalar (extent id) then inner_most else
  let inner_most := inner_most - 1 in
  (* Reduction and unswitched *)
  if isReduction id && ptype_eqb (getParallelType id) Unswitch then inner_most else
  let inner_most := inner_most - 1 in
  (* Reduction and thread *)
  if isReduction id && isThread id then inner_most else
  let inner_most := inner_most - 1 in
  (* Broadcast *)
  if isBroadcast id || isImplicitBroadcast id then inner_most else
  let inner_most := inner_most - 1 in
  (* Iter and unrolled *)
  if negb (isReduction id) && isUnrollOrVectorize (getParallelType id) then inner_most else
  let inner_most := inner_most - 1 in
  (* Iter and unswitched *)
  if negb (isReduction id) && ptype_eqb (getParallelType id) Unswitch then inner_most else
  let inner_most := inner_most - 1 in
  (* Reduction and non-constant *)
  if isReduction id && negb (isConstScalar (extent id)) then inner_most else
  let inner_most := inner_most - 1 in
  (* Iter and block (outer) *)
  if negb (isReduction id) && isBlockDim id then outer_most else
  let outer_most := outer_most + 1 in
  (* Iter and thread (outer) *)
  if negb (isReduction id) && isThreadDim id then outer_most else
  let outer_most := outer_most + 1 in
  (* Iter and constant *)
  if negb (isReduction id) && isConstScalar (extent id) then outer_most else
  let outer_most := outer_most + 1 in
  (* Iter and non-constant *)
  if negb (isReduction id) && negb (isConstScalar (extent id)) then outer_most else
  0.

(** [id_lt]: return if id0 should be before id1. *)
Definition id_lt (id0 id1 : IterDomain) : bool := idPos id0 <? idPos id1.

(** ** Nodes and the operations on their axes *)

(** The operations applied to a node, oldest first: the axis
    split/reorder history that transformation propagation replays,
    together with the parallel assignments made on the way. *)
Inductive TvOp : Type :=
  | OpSplit (axis : nat) (factor : Val) (inner_split : bool)
  | OpParallelize (axis : nat) (p : ParallelType)
  | OpPadToWarp (axis : nat)
  | OpReorder (old2new : list (nat * Z)).

(** Modelled from the spec: [TensorView] is declared outside this
    translation unit; a node is its current list of axes, outermost
    first, and the history of the operations applied to it. *)
Record TensorView : Type := mkTensorView {
  tv_domain : list IterDomain;
  tv_log : list TvOp
}.

Definition nDims (tv : TensorView) : nat := length (tv_domain tv).

(** The state of a scheduling run: the node being scheduled and the next
    unused [IterDomain] address. *)
Record Sched : Type := mkSched {
  reduction_tv : TensorView;
  next_name : nat
}.

Definition axis_out_of_range : string :=
  "Tried to access an axis outside of the domain.".

(** Modelled from the spec: [TensorView::split] is not part of the sources
    at hand.  The axis at [axis] is replaced by an outer axis (at [axis])
    and an inner axis (at [axis + 1]); an inner split gives the factor to
    the inner axis, an outer split gives it to the outer axis, the other
    half gets the quotient.  Both halves are new serial axes of the kind of
    the axis they come from. *)
Definition split_id (id : IterDomain) (factor : Val) (inner_split : bool)
    (fresh : nat) : IterDomain * IterDomain :=
  let quot := CeilDiv (extent id) factor in
  (mkIterDomain fresh (isReduction id) (isBroadcast id)
     (if inner_split then quot else factor) Serial false false,
   mkIterDomain (S fresh) (isReduction id) (isBroadcast id)
     (if inner_split then factor else quot) Serial false false).

(** Modelled from the spec: [reduction_tv->split(axis, factor,
    inner_split)]; an axis outside the domain is fatal. *)
Definition split (axis : nat) (factor : Val) (inner_split : bool) : M Sched unit :=
  fun s =>
    let tv := reduction_tv s in
    match tv_domain tv !! axis with
    | None => (s, Fatal axis_out_of_range)
    | Some id =>
        let '(ido, idi) := split_id id factor inner_split (next_name s) in
        (mkSched
           (mkTensorView
              (take axis (tv_domain tv) ++ ido :: idi :: drop (S axis) (tv_domain tv))
              (tv_log tv ++ [OpSplit axis factor inner_split]))
           (S (S (next_name s))),
         Ok tt)
    end.

(** Modelled from the spec: [reduction_tv->axis(axis)->parallelize(ptype)];
    an axis outside the domain is fatal. *)
Definition axis_parallelize (axis : nat) (p : ParallelType) : M Sched unit :=
  fun s =>
    let tv := reduction_tv s in
    match tv_domain tv !! axis with
    | None => (s, Fatal axis_out_of_range)
    | Some id =>
        (mkSched
           (mkTensorView (<[axis := parallelize p id]> (tv_domain tv))
                         (tv_log tv ++ [OpParallelize axis p]))
           (next_name s),
         Ok tt)
    end.

(** Modelled from the spec:
    [reduction_tv->axis(axis)->padToMultipleOfWarp()]; an axis outside the
    domain is fatal. *)
Definition axis_padToMultipleOfWarp (axis : nat) : M Sched unit :=
  fun s =>
    let tv := reduction_tv s in
    match tv_domain tv !! axis with
    | None => (s, Fatal axis_out_of_range)
    | Some id =>
        (mkSched
           (mkTensorView (<[axis := padToMultipleOfWarp id]> (tv_domain tv))
                         (tv_log tv ++ [OpPadToWarp axis]))
           (next_name s),
         Ok tt)
    end.

(** Modelled from the spec: [TensorView::reorder] is not part of the
    sources at hand.  It takes a map from old to new axis positions, a
    negative position counting from the end; positions out of range and
    two axes sent to one position are fatal; the axes the map leaves out
    keep their relative order in the positions the map leaves free. *)
Definition wrap_pos (ndims : nat) (pos : Z) : Z :=
  if pos <? 0 then pos + Z.of_nat ndims else pos.

(** Modelled from the spec: the entries of the map with their new
    positions counted from the front. *)
Definition normalizeOld2New (ndims : nat) (old2new : gmap nat Z)
    : list (nat * nat) :=
  (fun e : nat * Z => (e.1, Z.to_nat (wrap_pos ndims e.2))) <$> map_to_list old2new.

(** Modelled from the spec: every entry names an axis of the node and a
    position inside it, and no two entries name one position. *)
Definition valid_old2new (ndims : nat) (old2new : gmap nat Z) : bool :=
  forallb (fun e : nat * Z =>
             bool_decide (e.1 < ndims)%nat &&
             (0 <=? wrap_pos ndims e.2) && (wrap_pos ndims e.2 <? Z.of_nat ndims))
          (map_to_list old2new)
  && bool_decide (NoDup ((normalizeOld2New ndims old2new).*2)).

(** Modelled from the spec: the free positions take the remaining axes in
    their old order. *)
Fixpoint fill_positions (slots : list (option nat)) (left : list nat) : list nat :=
  match slots with
  | [] => []
  | Some old :: slots' => old :: fill_positions slots' left
  | None :: slots' =>
      match left with
      | old :: left' => old :: fill_positions slots' left'
      | [] => fill_positions slots' []
      end
  end.

(** Modelled from the spec: the old position of the axis found at each new
    position. *)
Definition new2old (ndims : nat) (old2new : gmap nat Z) : list nat :=
  let inv : gmap nat nat :=
    list_to_map (prod_swap <$> normalizeOld2New ndims old2new) in
  let positions_left :=
    filter (fun old => old2new !! old = None) (seq 0 ndims) in
  fill_positions ((fun new => inv !! new) <$> seq 0 ndims) positions_left.

(** Modelled from the spec: the reordered list of axes, or the
    diagnostic of an invalid map. *)
Definition reorder_domain (old2new : gmap nat Z) (d : list IterDomain)
    : result (list IterDomain) :=
  if valid_old2new (length d) old2new
  then Ok (omap (fun old => d !! old) (new2old (length d) old2new))
  else Fatal "Invalid axis reordering map.".

(** Modelled from the spec: [TensorView::reorder] on a node, the reorder
    entering the history of the node. *)
Definition tv_reorder (old2new : gmap nat Z) (tv : TensorView) : result TensorView :=
  match reorder_domain old2new (tv_domain tv) with
  | Ok d => Ok (mkTensorView d (tv_log tv ++ [OpReorder (map_to_list old2new)]))
  | Fatal msg => Fatal msg
  end.

(** Modelled from the spec: [reduction_tv->reorder(old2new)]. *)
Definition reorder (old2new : gmap nat Z) : M Sched unit :=
  fun s =>
    match tv_reorder old2new (reduction_tv s) with
    | Ok tv => (mkSched tv (next_name s), Ok tt)
    | Fatal msg => (s, Fatal msg)
    end.

(** ** sortAndRFactor *)

(** First loop of [sortAndRFactor]: [domain_pos[domain[axis_i]] = axis_i]. *)
Fixpoint record_positions (axis_i : nat) (domain : list IterDomain)
    (domain_pos : gmap nat nat) : gmap nat nat :=
  match domain with
  | [] => domain_pos
  | id :: rest =>
      record_positions (S axis_i) rest (<[id_name id := axis_i]> domain_pos)
  end.

Definition reorder_error : string :=
  "Error in schedule reorder, didn't reorder all axes in provided tv.".

(** Second loop: look every old axis up in [domain_pos]. *)
Fixpoint build_reorder_map (domain_pos : gmap nat nat) (old_i : nat)
    (axes : list IterDomain) (reorder_map : gmap nat Z) : result (gmap nat Z) :=
  match axes with
  | [] => Ok reorder_map
  | id :: rest =>
      match domain_pos !! id_name id with
      | None => Fatal reorder_error
      | Some new_i =>
          build_reorder_map domain_pos (S old_i) rest
            (<[old_i := Z.of_nat new_i]> reorder_map)
      end
  end.

(** Third loop: the candidates for staging. *)
Record RFactorScan : Type := mkRFactorScan {
  rfactor_axes : list nat;
  rfactor_axes_no_unswitch : list nat;
  reduction_dims : nat
}.

Definition scan_axis (axis_i : nat) (id : IterDomain) (st : RFactorScan)
    : RFactorScan :=
  if negb (isReduction id) then st else
  let dims := S (reduction_dims st) in
  if isThread id then mkRFactorScan (rfactor_axes st) (rfactor_axes_no_unswitch st) dims else
  let no_unswitch :=
    if negb (ptype_eqb (getParallelType id) Unswitch && isOneInt (extent id))
    then rfactor_axes_no_unswitch st ++ [axis_i]
    else rfactor_axes_no_unswitch st in
  mkRFactorScan (rfactor_axes st ++ [axis_i]) no_unswitch dims.

Fixpoint scan_axes (axis_i : nat) (axes : list IterDomain) (st : RFactorScan)
    : RFactorScan :=
  match axes with
  | [] => st
  | id :: rest => scan_axes (S axis_i) rest (scan_axis axis_i id st)
  end.

(** The axes handed to [rfactorHelper]. *)
Definition staged_axes (d : list IterDomain) : list nat :=
  let st := scan_axes 0 d (mkRFactorScan [] [] 0) in
  if bool_decide (reduction_dims st = length (rfactor_axes st))
  then rfactor_axes_no_unswitch st
  else rfactor_axes st.

Definition lift {S A} (r : result A) : M S A := fun s => (s, r).

Section SortAndRFactor.

(** [std::sort] and [ir_utils::rfactorHelper] are taken as they are
    declared: a sorting procedure for a given comparison, and a staging
    step that acts on the node and returns the staged node. *)
Variable std_sort :
  (IterDomain -> IterDomain -> bool) -> list IterDomain -> list IterDomain.
Variable rfactorHelper : list nat -> M Sched TensorView.

Definition sorted_reorder_map (d : list IterDomain) : result (gmap nat Z) :=
  let domain := std_sort id_lt d in
  let domain_pos := record_positions 0 domain ∅ in
  build_reorder_map domain_pos 0 d ∅.

(** First half of [sortAndRFactor]: sort a copy of the domain, compute
    the old-to-new map and reorder the node with it. *)
Definition reorderToCanonical : M Sched unit :=
  (s <- get ;;
   reorder_map <- lift (sorted_reorder_map (tv_domain (reduction_tv s))) ;;
   reorder reorder_map)%sched.

Definition sortAndRFactor : M Sched TensorView :=
  (reorderToCanonical ;;;
   s <- get ;;
   rfactorHelper (staged_axes (tv_domain (reduction_tv s))))%sched.

End SortAndRFactor.

(** ** scheduleReductionTV *)

(** Modelled from the spec: [ReductionParams] and [LaunchParams] are
    declared outside the sources at hand; the record has the fields that
    the scheduler reads. *)
Record LaunchParams : Type := mkLaunchParams {
  bdimx : Z;
  bdimy : Z
}.

Record ReductionParams : Type := mkReductionParams {
  fastest_dim : bool;
  persistent_kernel : bool;
  schedule_3D : bool;
  cross_block_inner_reduction : bool;
  cross_grid_inner_reduction : bool;
  unroll_factor_inner_reduction : Z;
  vectorize_inner_reduction : bool;
  pad_inner_reduction_to_warp : bool;
  batches_per_block_inner_reduction : Z;
  block_dim_inner_reduction : ParallelType;
  grid_dim_inner_reduction : ParallelType;
  split_grid_dim_inner_reduction : bool;
  multiple_reds_per_blk : bool;
  unroll_factor_iter_dom : Z;
  vectorize_iter_dom : bool;
  split_grid_dim_iter_dom_inner : bool;
  split_grid_dim_iter_dom_outer : bool;
  block_dim_iter_dom : ParallelType;
  grid_dim_iter_dom : ParallelType;
  cross_block_outer_reduction : bool;
  cross_grid_outer_reduction : bool;
  batches_per_block_outer_reduction : Z;
  unroll_factor_outer_reduction : Z;
  block_dim_outer_reduction : ParallelType;
  grid_dim_outer_reduction : ParallelType;
  static_bdimx : bool;
  static_bdimy : bool;
  lparams : LaunchParams
}.

(** Modelled from the spec: [ReductionParams::isUnrolled] is declared
    outside the sources at hand: unrolling or vectorization was requested
    when one of the unroll factors exceeds one. *)
Definition isUnrolled (rparams : ReductionParams) : bool :=
  (1 <? unroll_factor_inner_reduction rparams) ||
  (1 <? unroll_factor_iter_dom rparams) ||
  (1 <? unroll_factor_outer_reduction rparams).

(** The diagnostics of [scheduleReductionTV]; the first one without the
    two numbers the source prints in it. *)
Definition too_few_dims_error : string :=
  "Issue in scheduling reduction tv, expecting more dimensions than found.".
Definition vectorize_iter_error : string :=
  "Cannot vectorize iteration domain on inner reductions.".
Definition vectorize_reduction_error : string :=
  "Cannot vectorize reduction domain on outer reductions.".
Definition multiple_reds_error : string :=
  "Multiple reductions requires an iter domain, but one wasn't found.".
Definition unroll_iter_error : string :=
  "Unrolling on iter domain requires an iter domain.".
Definition static_bdimy_error : string := "blockDim.y must be static".
Definition static_bdimx_error : string := "blockDim.x must be static".
Definition vectorized_not_found_error : string := "Vectorized ID not found".

(** The helpers of [scheduleReductionTV] that take a number take it as
    an [int], while the parameter record (declared outside the sources
    at hand) holds integers that are not narrower: an argument outside
    the range of [int] is narrowed by the call, modulo 2^32. *)
Definition to_int (z : Z) : Z := (z - INT_MIN) mod 2 ^ 32 + INT_MIN.

(** The local helpers of [scheduleReductionTV]; [factor] is the argument
    of the call, before it is narrowed to the [int] of the helper. *)
Definition vectorize (axis : nat) (factor : Z) : M Sched unit :=
  (split axis (IntConst (to_int factor)) true ;;;
   axis_parallelize (axis + 1) Vectorize)%sched.

Definition inner_parallel (axis : nat) (ptype : ParallelType) : M Sched unit :=
  (split axis (ParallelDim ptype) true ;;;
   axis_parallelize (axis + 1) ptype)%sched.

Definition inner_parallel_static (axis : nat) (ptype : ParallelType) (factor : Z)
    : M Sched unit :=
  (split axis (IntConst (to_int factor)) true ;;;
   axis_parallelize (axis + 1) ptype)%sched.

Definition inner_unswitch (axis : nat) : M Sched unit :=
  (split axis (IntConst 1) true ;;;
   axis_parallelize (axis + 1) Unswitch)%sched.

Definition inner_unroll (axis : nat) (factor : Z) : M Sched unit :=
  (split axis (IntConst (to_int factor)) true ;;;
   axis_parallelize (axis + 1) Unroll)%sched.

Definition outer_parallel (axis : nat) (ptype : ParallelType) : M Sched unit :=
  (split axis (ParallelDim ptype) false ;;;
   axis_parallelize axis ptype)%sched.

Definition outer_unswitch (axis : nat) : M Sched unit :=
  (split axis (IntConst 1) false ;;;
   axis_parallelize axis Unswitch)%sched.

Definition outer_unroll (axis : nat) (factor : Z) : M Sched unit :=
  (split axis (IntConst (to_int factor)) false ;;;
   axis_parallelize axis Unroll)%sched.

(** The scan of the staged node for its vectorized axis. *)
Fixpoint vec_reorder_scan (i : nat) (axes : list IterDomain)
    (vec_id_cur_pos : Z) (vec_reorder_map : gmap nat Z) : Z * gmap nat Z :=
  match axes with
  | [] => (vec_id_cur_pos, vec_reorder_map)
  | id :: rest =>
      if ptype_eqb (getParallelType id) Vectorize then
        vec_reorder_scan (S i) rest (Z.of_nat i) (<[i := -1]> vec_reorder_map)
      else if 0 <=? vec_id_cur_pos then
        vec_reorder_scan (S i) rest vec_id_cur_pos
          (<[i := Z.of_nat i - 1]> vec_reorder_map)
      else
        vec_reorder_scan (S i) rest vec_id_cur_pos vec_reorder_map
  end.

(** In the case of outer grid persistence, make sure the vectorized
    domain is placed at the innermost position. *)
Definition moveVectorizedInnermost (reduction_rf_tv : TensorView)
    : result TensorView :=
  let '(vec_id_cur_pos, vec_reorder_map) :=
    vec_reorder_scan 0 (tv_domain reduction_rf_tv) (-1) ∅ in
  if vec_id_cur_pos =? -1 then Fatal vectorized_not_found_error
  else tv_reorder vec_reorder_map reduction_rf_tv.

Section ScheduleReductionTV.

Variable std_sort :
  (IterDomain -> IterDomain -> bool) -> list IterDomain -> list IterDomain.
Variable rfactorHelper : list nat -> M Sched TensorView.
Variable rparams : ReductionParams.
Variable has_iter_axis : bool.

Definition iter_axis : nat := 0.
Definition outer_reduce_axis : nat := if schedule_3D rparams then 1 else 0.
Definition inner_reduce_axis : nat :=
  if schedule_3D rparams then 2 else if has_iter_axis then 1 else 0.

Definition is_outer_grid_persistence : bool :=
  persistent_kernel rparams && cross_grid_inner_reduction rparams &&
  negb (fastest_dim rparams).

(** The five checks at the head of the function. *)
Definition checkPreconditions : M Sched unit :=
  (s <- get ;;
   TORCH_INTERNAL_ASSERT
     (bool_decide (Nat.max iter_axis (Nat.max outer_reduce_axis inner_reduce_axis)
                   < nDims (reduction_tv s))%nat)
     too_few_dims_error ;;;
   TORCH_INTERNAL_ASSERT
     (negb (fastest_dim rparams && vectorize_iter_dom rparams))
     vectorize_iter_error ;;;
   TORCH_INTERNAL_ASSERT
     (negb (negb (fastest_dim rparams) && vectorize_inner_reduction rparams))
     vectorize_reduction_error ;;;
   TORCH_INTERNAL_ASSERT
     (negb (multiple_reds_per_blk rparams && negb has_iter_axis))
     multiple_reds_error ;;;
   TORCH_INTERNAL_ASSERT
     (negb ((1 <? unroll_factor_iter_dom rparams) && negb has_iter_axis))
     unroll_iter_error)%sched.

(** The inner reduction axis: outer grid persistence, the persistent
    format, or the non-persistent format. *)
Definition scheduleInnerReduction : M Sched unit :=
  (if is_outer_grid_persistence then
     let reduction_axis := inner_reduce_axis in
     TORCH_INTERNAL_ASSERT (static_bdimy rparams) static_bdimy_error ;;;
     inner_parallel_static reduction_axis (block_dim_inner_reduction rparams)
       (bdimy (lparams rparams)) ;;;
     split reduction_axis
       (IntConst (batches_per_block_inner_reduction rparams)) true ;;;
     axis_parallelize reduction_axis (grid_dim_inner_reduction rparams) ;;;
     if batches_per_block_inner_reduction rparams =?
        unroll_factor_inner_reduction rparams
     then outer_unswitch (reduction_axis + 1)
     else
       split (reduction_axis + 1)
         (IntConst (unroll_factor_inner_reduction rparams)) true ;;;
       outer_unswitch (reduction_axis + 2)
   else if persistent_kernel rparams then
     when (vectorize_inner_reduction rparams)
       (vectorize inner_reduce_axis (unroll_factor_inner_reduction rparams)) ;;;
     let outer_i := inner_reduce_axis in
     outer_i <-
       (if cross_grid_inner_reduction rparams
        then outer_parallel outer_i (grid_dim_inner_reduction rparams) ;;;
             ret (S outer_i)
        else ret outer_i) ;;
     split outer_i (IntConst (batches_per_block_inner_reduction rparams)) false ;;;
     let outer_i := S outer_i in
     outer_unswitch outer_i ;;;
     let outer_i := S outer_i in
     outer_i <-
       (if negb (vectorize_inner_reduction rparams) &&
           (1 <? unroll_factor_inner_reduction rparams)
        then outer_unroll outer_i (unroll_factor_inner_reduction rparams) ;;;
             ret (S outer_i)
        else ret outer_i) ;;
     axis_parallelize outer_i (block_dim_inner_reduction rparams) ;;;
     when (pad_inner_reduction_to_warp rparams)
       (axis_padToMultipleOfWarp outer_i)
   else
     when (vectorize_inner_reduction rparams)
       (vectorize inner_reduce_axis (unroll_factor_inner_reduction rparams)) ;;;
     when (cross_block_inner_reduction rparams)
       (inner_parallel inner_reduce_axis (block_dim_inner_reduction rparams) ;;;
        when (pad_inner_reduction_to_warp rparams)
          (axis_padToMultipleOfWarp (inner_reduce_axis + 1))) ;;;
     when (negb (vectorize_inner_reduction rparams) &&
           (1 <? unroll_factor_inner_reduction rparams))
       (inner_unroll inner_reduce_axis (unroll_factor_inner_reduction rparams)) ;;;
     inner_unswitch inner_reduce_axis ;;;
     when (cross_grid_inner_reduction rparams)
       (if split_grid_dim_inner_reduction rparams
        then outer_parallel inner_reduce_axis (grid_dim_inner_reduction rparams)
        else axis_parallelize inner_reduce_axis (grid_dim_inner_reduction rparams))
  )%sched.

(** Outer reduction axis. *)
Definition scheduleOuterReduction : M Sched unit :=
  (when (schedule_3D rparams)
     (if persistent_kernel rparams then
        let outer_i := outer_reduce_axis in
        outer_i <-
          (if cross_grid_outer_reduction rparams
           then outer_parallel outer_i (grid_dim_outer_reduction rparams) ;;;
                ret (S outer_i)
           else ret outer_i) ;;
        split outer_i (IntConst (batches_per_block_outer_reduction rparams)) false ;;;
        let outer_i := S outer_i in
        outer_i <-
          (if 1 <? unroll_factor_outer_reduction rparams
           then outer_unroll outer_i (unroll_factor_outer_reduction rparams) ;;;
                ret (S outer_i)
           else ret outer_i) ;;
        axis_parallelize outer_i (block_dim_outer_reduction rparams)
      else
        when (cross_block_outer_reduction rparams)
          (inner_parallel outer_reduce_axis (block_dim_outer_reduction rparams)) ;;;
        when (1 <? unroll_factor_outer_reduction rparams)
          (inner_unroll outer_reduce_axis (unroll_factor_outer_reduction rparams)) ;;;
        when (cross_grid_outer_reduction rparams)
          (outer_parallel outer_reduce_axis (grid_dim_outer_reduction rparams)))
  )%sched.

(** Iteration domain. *)
Definition scheduleIterDomain : M Sched unit :=
  (when has_iter_axis
     (when (vectorize_iter_dom rparams)
        (vectorize iter_axis (unroll_factor_iter_dom rparams)) ;;;
      when (isParallelTypeThread (block_dim_iter_dom rparams))
        (if is_outer_grid_persistence then
           TORCH_INTERNAL_ASSERT (static_bdimx rparams) static_bdimx_error ;;;
           inner_parallel_static iter_axis (block_dim_iter_dom rparams)
             (bdimx (lparams rparams))
         else inner_parallel iter_axis (block_dim_iter_dom rparams)) ;;;
      when (negb (vectorize_iter_dom rparams) &&
            (1 <? unroll_factor_iter_dom rparams))
        (inner_unroll iter_axis (unroll_factor_iter_dom rparams)) ;;;
      (* Do not unswitch interation domain in the case of outer grid
         persistence as it's unclear if it's beneficial. *)
      when ((1 <? unroll_factor_iter_dom rparams) &&
            negb is_outer_grid_persistence)
        (inner_unswitch iter_axis) ;;;
      when (isParallelTypeThread (grid_dim_iter_dom rparams))
        (if split_grid_dim_iter_dom_outer rparams
         then outer_parallel iter_axis (grid_dim_iter_dom rparams)
         else if split_grid_dim_iter_dom_inner rparams
         then inner_parallel iter_axis (grid_dim_iter_dom rparams)
         else axis_parallelize iter_axis (grid_dim_iter_dom rparams)))
  )%sched.

(** Everything [scheduleReductionTV] does to the node before it sorts
    and stages it. *)
Definition scheduleLoopNest : M Sched unit :=
  (checkPreconditions ;;;
   scheduleInnerReduction ;;;
   scheduleOuterReduction ;;;
   scheduleIterDomain)%sched.

Definition scheduleReductionTV : M Sched TensorView :=
  (scheduleLoopNest ;;;
   reduction_rf_tv <- sortAndRFactor std_sort rfactorHelper ;;
   if is_outer_grid_persistence
   then lift (moveVectorizedInnermost reduction_rf_tv)
   else ret reduction_rf_tv)%sched.

End ScheduleReductionTV.

(** ** Vocabulary of the specification for the canonical order *)

(** The classes of the ordering key, in the words of the specification;
    an axis belongs to the first class of the list that it fits. *)
Inductive AxisClass : Type :=
  | ReductionUnrollOrVectorize
  | ReductionConstantExtent
  | ReductionUnswitched
  | ReductionThreadParallel
  | BroadcastAxis
  | IterationUnrollOrVectorize
  | IterationUnswitched
  | ReductionSymbolicExtent
  | IterationBlockParallel
  | IterationThreadParallel
  | IterationConstantExtent
  | IterationSymbolicExtent.

Definition class_of (id : IterDomain) : AxisClass :=
  if isReduction id && isUnrollOrVectorize (getParallelType id) then ReductionUnrollOrVectorize
  else if isReduction id && isConstScalar (extent id) then ReductionConstantExtent
  else if isReduction id && ptype_eqb (getParallelType id) Unswitch then ReductionUnswitched
  else if isReduction id && isThread id then ReductionThreadParallel
  else if isBroadcast id then BroadcastAxis
  else if negb (isReduction id) && isUnrollOrVectorize (getParallelType id) then IterationUnrollOrVectorize
  else if negb (isReduction id) && ptype_eqb (getParallelType id) Unswitch then IterationUnswitched
  else if isReduction id then ReductionSymbolicExtent
  else if isBlockDim id then IterationBlockParallel
  else if isThreadDim id then IterationThreadParallel
  else if isConstScalar (extent id) then IterationConstantExtent
  else IterationSymbolicExtent.

(** Position of a class in the list of section 4.1, innermost first. *)
Definition spec_rank (c : AxisClass) : nat :=
  match c with
  | ReductionUnrollOrVectorize => 0
  | ReductionConstantExtent => 1
  | ReductionUnswitched => 2
  | ReductionThreadParallel => 3
  | BroadcastAxis => 4
  | IterationUnrollOrVectorize => 5
  | IterationUnswitched => 6
  | ReductionSymbolicExtent => 7
  | IterationBlockParallel => 8
  | IterationThreadParallel => 9
  | IterationConstantExtent => 10
  | IterationSymbolicExtent => 11
  end%nat.

(** Position of a class in the order [idPos] realises, innermost first:
    the four outer iteration classes come in the opposite order. *)
Definition canonical_rank (c : AxisClass) : nat :=
  match c with
  | ReductionUnrollOrVectorize => 0
  | ReductionConstantExtent => 1
  | ReductionUnswitched => 2
  | ReductionThreadParallel => 3
  | BroadcastAxis => 4
  | IterationUnrollOrVectorize => 5
  | IterationUnswitched => 6
  | ReductionSymbolicExtent => 7
  | IterationSymbolicExtent => 8
  | IterationConstantExtent => 9
  | IterationThreadParallel => 10
  | IterationBlockParallel => 11
  end%nat.

(** The value [idPos] gives to the axes of a class. *)
Definition class_key (c : AxisClass) : Z :=
  match c with
  | ReductionUnrollOrVectorize => INT_MAX
  | ReductionConstantExtent => INT_MAX - 1
  | ReductionUnswitched => INT_MAX - 2
  | ReductionThreadParallel => INT_MAX - 3
  | BroadcastAxis => INT_MAX - 4
  | IterationUnrollOrVectorize => INT_MAX - 5
  | IterationUnswitched => INT_MAX - 6
  | ReductionSymbolicExtent => INT_MAX - 7
  | IterationBlockParallel => INT_MIN
  | IterationThreadParallel => INT_MIN + 1
  | IterationConstantExtent => INT_MIN + 2
  | IterationSymbolicExtent => INT_MIN + 3
  end.

(** What [std::sort] promises for the comparison [id_lt]: the result is a
    rearrangement of its input in which no axis is followed by one that
    should be before it.  The order of axes that compare equal is left
    open. *)
Definition sort_contract
    (sort : (IterDomain -> IterDomain -> bool) -> list IterDomain -> list IterDomain)
    : Prop :=
  (forall l, sort id_lt l ≡ₚ l) /\
  (forall l, StronglySorted (fun a b => id_lt b a = false) (sort id_lt l)).

(** Two sorting procedures that keep the promise: the insertion sort that
    a standard library runs on short ranges, and a merge sort. *)
Fixpoint insert_sorted (lt : IterDomain -> IterDomain -> bool) (x : IterDomain)
    (l : list IterDomain) : list IterDomain :=
  match l with
  | [] => [x]
  | y :: l' => if lt y x then y :: insert_sorted lt x l' else x :: y :: l'
  end.

Definition insertion_sort (lt : IterDomain -> IterDomain -> bool)
    (l : list IterDomain) : list IterDomain :=
  foldr (insert_sorted lt) [] l.

Definition lib_merge_sort (lt : IterDomain -> IterDomain -> bool)
    (l : list IterDomain) : list IterDomain :=
  @merge_sort _ (fun a b => lt b a = false)
    (fun a b => decide (lt b a = false)) l.

(** Position 0 of a domain is the outermost loop and the last position
    the innermost one. *)
Definition more_inner (pa pb : nat) : Prop := (pb < pa)%nat.

(** Every axis is a distinct object. *)
Definition distinct_axes (d : list IterDomain) : Prop := NoDup (id_name <$> d).

(** Vocabulary for the staging step. *)
Definition rfactor_candidate (id : IterDomain) : bool :=
  isReduction id && negb (isThread id).

Definition unswitched_extent_one (id : IterDomain) : bool :=
  ptype_eqb (getParallelType id) Unswitch && isOneInt (extent id).

Definition every_reduction_qualifies (d : list IterDomain) : bool :=
  forallb (fun id => implb (isReduction id) (rfactor_candidate id)) d.

Fixpoint positions_where (f : IterDomain -> bool) (k : nat) (l : list IterDomain)
    : list nat :=
  match l with
  | [] => []
  | id :: l' =>
      if f id then k :: positions_where f (S k) l' else positions_where f (S k) l'
  end.

(** Modelled from the spec: [ir_utils::rfactorHelper] is not part of the
    sources at hand.  It makes a new node, the partial-reduction stage,
    with the axes of the node in their order and with their parallel
    assignments; the axes at the given positions are its reductions and
    carry the rfactor flag, and the node itself keeps the other axes. *)
Definition staged_axis (axes : list nat) (fresh i : nat) (id : IterDomain)
    : IterDomain :=
  mkIterDomain (fresh + i) (isReduction id && bool_decide (i ∈ axes))
    (isBroadcast id) (extent id) (getParallelType id)
    (isRFactorProduct id || bool_decide (i ∈ axes)) (hasPaddingToMultipleOfWarp id).

(** Modelled from the spec: the staging of the node of a scheduling run;
    the node keeps the axes that are not staged, the stage is returned. *)
Definition rfactorHelper_model (axes : list nat) : M Sched TensorView :=
  fun s =>
    let tv := reduction_tv s in
    (mkSched
       (mkTensorView
          (omap (fun i => if bool_decide (i ∈ axes) then None else tv_domain tv !! i)
                (seq 0 (length (tv_domain tv))))
          (tv_log tv))
       (next_name s + length (tv_domain tv)),
     Ok (mkTensorView (imap (staged_axis axes (next_name s)) (tv_domain tv))
                      (tv_log tv))).

(** ** Example nodes *)

Definition iter_axis_of (nm : nat) (e : Val) (p : ParallelType) : IterDomain :=
  mkIterDomain nm false false e p false false.

Definition red_axis_of (nm : nat) (e : Val) (p : ParallelType) : IterDomain :=
  mkIterDomain nm true false e p false false.

Definition node_of (d : list IterDomain) : Sched :=
  mkSched (mkTensorView d []) (length d).

(** A block-parallel iteration axis declared after a serial iteration axis
    of symbolic extent. *)
Definition ex_symbolic_axis : IterDomain := iter_axis_of 0 (NamedScalar "i0") Serial.
Definition ex_block_axis : IterDomain := iter_axis_of 1 (NamedScalar "i1") BIDx.
Definition ex_block_node : Sched := node_of [ex_symbolic_axis; ex_block_axis].

(** A node after scheduling: block-parallel iteration axis, serial
    reduction remainder, a degenerate unswitch axis and a thread-parallel
    reduction axis. *)
Definition ex_scheduled_domain : list IterDomain :=
  [ iter_axis_of 0 (NamedScalar "i0") BIDx;
    red_axis_of 1 (CeilDiv (NamedScalar "r") (ParallelDim TIDx)) Serial;
    red_axis_of 2 (IntConst 1) Unswitch;
    red_axis_of 3 (ParallelDim TIDx) TIDx ].
Definition ex_scheduled_node : Sched := node_of ex_scheduled_domain.

(** Three serial iteration axes of symbolic extent: one class. *)
Definition ex_tied_domain : list IterDomain :=
  [ iter_axis_of 0 (NamedScalar "i0") Serial;
    iter_axis_of 1 (NamedScalar "i1") Serial;
    iter_axis_of 2 (NamedScalar "i2") Serial ].

(** A procedure that loses the first axis: not a sort. *)
Definition lossy_sort (lt : IterDomain -> IterDomain -> bool)
    (l : list IterDomain) : list IterDomain :=
  insertion_sort lt (tail l).

(** The ordering property as the specification words it, with the list
    of section 4.1 read as written. *)
Definition ordering_as_specified : Prop :=
  forall std_sort (s s' : Sched) (pa pb : nat) (a b : IterDomain),
    sort_contract std_sort ->
    distinct_axes (tv_domain (reduction_tv s)) ->
    reorderToCanonical std_sort s = (s', Ok tt) ->
    tv_domain (reduction_tv s') !! pa = Some a ->
    tv_domain (reduction_tv s') !! pb = Some b ->
    (spec_rank (class_of a) < spec_rank (class_of b))%nat ->
    more_inner pa pb.

(** ** Vocabulary for the loop-nest builder *)

(** The operations a run has added to the log of the node. *)
Definition ops_since (s s' : Sched) : list TvOp :=
  drop (length (tv_log (reduction_tv s))) (tv_log (reduction_tv s')).


(** The operations of the outer-grid-persistence branch on the inner
    reduction axis [r]. *)
Definition ogp_ops (rparams : ReductionParams) (r : nat) : list TvOp :=
  [OpSplit r (IntConst (to_int (bdimy (lparams rparams)))) true;
   OpParallelize (r + 1) (block_dim_inner_reduction rparams);
   OpSplit r (IntConst (batches_per_block_inner_reduction rparams)) true;
   OpParallelize r (grid_dim_inner_reduction rparams)] ++
  (if batches_per_block_inner_reduction rparams =? unroll_factor_inner_reduction rparams
   then [OpSplit (r + 1) (IntConst 1) false;
         OpParallelize (r + 1) Unswitch]
   else [OpSplit (r + 1) (IntConst (unroll_factor_inner_reduction rparams)) true;
         OpSplit (r + 2) (IntConst 1) false;
         OpParallelize (r + 2) Unswitch]).

(** The axes that replace the inner reduction axis [id] in that branch,
    outermost first; [n] is the first unused address. *)
Definition ogp_axes (rparams : ReductionParams) (id : IterDomain) (n : nat)
    : list IterDomain :=
  let bdimy_ := IntConst (to_int (bdimy (lparams rparams))) in
  let batches := IntConst (batches_per_block_inner_reduction rparams) in
  let unroll := IntConst (unroll_factor_inner_reduction rparams) in
  let ax nm e p := mkIterDomain nm (isReduction id) (isBroadcast id) e p false false in
  let grid := ax (2 + n)%nat (CeilDiv (CeilDiv (extent id) bdimy_) batches)
                 (grid_dim_inner_reduction rparams) in
  let block := ax (1 + n)%nat bdimy_ (block_dim_inner_reduction rparams) in
  if batches_per_block_inner_reduction rparams =? unroll_factor_inner_reduction rparams
  then [grid;
        ax (4 + n)%nat (IntConst 1) Unswitch;
        ax (5 + n)%nat (CeilDiv batches (IntConst 1)) Serial;
        block]
  else [grid;
        ax (4 + n)%nat (CeilDiv batches unroll) Serial;
        ax (6 + n)%nat (IntConst 1) Unswitch;
        ax (7 + n)%nat (CeilDiv unroll (IntConst 1)) Serial;
        block].

(** A grid or block dimension of the parameters names a hardware
    dimension or none. *)
Definition hardware_dim_or_none (p : ParallelType) : bool :=
  isParallelTypeThread p || ptype_eqb p Serial.

(** Parameters of a two-dimensional scheduling problem, everything off. *)
Definition rparams_plain : ReductionParams :=
  mkReductionParams
    true false false
    false false 1 false false 1 Serial Serial false
    false 1 false false false Serial Serial
    false false 1 1 Serial Serial
    false false (mkLaunchParams 1 1).

(** Scenario 2: vectorization of the reduction domain requested for a
    reduction that is not the fastest dimension. *)
Definition rparams_scenario2 : ReductionParams :=
  mkReductionParams
    false false false
    true false 4 true false 1 TIDx Serial false
    false 1 false false false Serial BIDx
    false false 1 1 Serial Serial
    false false (mkLaunchParams 1 1).

(** Scenario 3: outer grid persistence with static block sizes, the batch
    size equal to the unroll factor, the iteration domain vectorized. *)
Definition rparams_scenario3 : ReductionParams :=
  mkReductionParams
    false true false
    true true 4 false false 4 TIDy BIDy false
    false 4 true false false TIDx BIDx
    false false 1 1 Serial Serial
    true true (mkLaunchParams 32 8).

(** A non-persistent schedule that unrolls the iteration domain. *)
Definition rparams_unrolled_iter : ReductionParams :=
  mkReductionParams
    true false false
    true false 1 false false 1 TIDx Serial false
    false 4 false false false TIDy BIDx
    false false 1 1 Serial Serial
    false false (mkLaunchParams 1 1).

Definition ex_2d_domain : list IterDomain :=
  [iter_axis_of 0 (NamedScalar "i") Serial; red_axis_of 1 (NamedScalar "r") Serial].
Definition ex_2d_node : Sched := node_of ex_2d_domain.

(** One of the five checks at the head of [scheduleReductionTV] does not
    hold. *)
Definition preconditions_violated (rparams : ReductionParams) (has_iter_axis : bool)
    (s : Sched) : Prop :=
  (nDims (reduction_tv s) <=
     Nat.max iter_axis (Nat.max (outer_reduce_axis rparams)
                                (inner_reduce_axis rparams has_iter_axis)))%nat \/
  (fastest_dim rparams = true /\ vectorize_iter_dom rparams = true) \/
  (fastest_dim rparams = false /\ vectorize_inner_reduction rparams = true) \/
  (multiple_reds_per_blk rparams = true /\ has_iter_axis = false) \/
  (1 < unroll_factor_iter_dom rparams /\ has_iter_axis = false).





(** Vocabulary for the relocation of the vectorized axis. *)
Definition not_vectorized (id : IterDomain) : Prop := getParallelType id <> Vectorize.

(** ** The fusion graph *)

(** Modelled from the spec: the graph container is an external
    collaborator.  A node is named by its address; the graph records the
    axes, the memory residency and the inlining position of every node,
    the expressions with their inputs and outputs, and the output list. *)
Inductive MemoryType : Type := Local | Shared | Global.

#[global] Instance MemoryType_eq_dec : EqDecision MemoryType.
Proof. solve_decision. Defined.

(** Modelled from the spec: the kinds of expression this file tells
    apart. *)
Inductive ExprType : Type :=
  | UnaryOpSet
  | BroadcastOp
  | ReductionOp
  | GroupedReductionOp
  | BinaryOpAdd
  | OtherOp.

#[global] Instance ExprType_eq_dec : EqDecision ExprType.
Proof. solve_decision. Defined.

(** Modelled from the spec: an expression with the nodes it reads and
    the nodes it defines. *)
Record Expr : Type := mkExpr {
  expr_type : ExprType;
  expr_inputs : list nat;
  expr_outputs : list nat
}.

#[global] Instance Expr_eq_dec : EqDecision Expr.
Proof. solve_decision. Defined.

(** Modelled from the spec: what the graph records of a node. *)
Record FusionTv : Type := mkFusionTv {
  ftv_domain : list IterDomain;
  ftv_memory : MemoryType;
  ftv_inline : nat
}.

(** Modelled from the spec: the graph, with the next unused address. *)
Record Fusion : Type := mkFusion {
  fusion_tvs : gmap nat FusionTv;
  fusion_exprs : list Expr;
  fusion_outputs : list nat;
  fusion_next : nat
}.

(** Modelled from the spec: [tv->domain()->domain()]. *)
Definition domain_of (f : Fusion) (tv : nat) : list IterDomain :=
  match fusion_tvs f !! tv with Some t => ftv_domain t | None => [] end.

(** Modelled from the spec: [tv->getMemoryType()]. *)
Definition getMemoryType (f : Fusion) (tv : nat) : MemoryType :=
  match fusion_tvs f !! tv with Some t => ftv_memory t | None => Local end.

(** Modelled from the spec: [tv->definition()], the expression that
    defines the node. *)
Definition definition (f : Fusion) (tv : nat) : option Expr :=
  snd <$> list_find (fun e => tv ∈ expr_outputs e) (fusion_exprs f).

(** Modelled from the spec: [tv->uses()], the expressions that read the
    node. *)
Definition uses (f : Fusion) (tv : nat) : list Expr :=
  filter (fun e => tv ∈ expr_inputs e) (fusion_exprs f).

(** Modelled from the spec: [ir_utils::producerTvsOf], the nodes read by
    the definition of the node. *)
Definition producerTvsOf (f : Fusion) (tv : nat) : list nat :=
  match definition f tv with
  | Some e => remove_dups (filter (fun v => is_Some (fusion_tvs f !! v)) (expr_inputs e))
  | None => []
  end.

(** Modelled from the spec: [ir_utils::siblingTvsOf], the other nodes
    defined by the definition of the node. *)
Definition siblingTvsOf (f : Fusion) (tv : nat) : list nat :=
  match definition f tv with
  | Some e => filter (fun v => v <> tv) (expr_outputs e)
  | None => []
  end.

(** Modelled from the spec: the axes of one node replaced. *)
Definition set_domain (tv : nat) (d : list IterDomain) (f : Fusion) : Fusion :=
  mkFusion
    (alter (fun t => mkFusionTv d (ftv_memory t) (ftv_inline t)) tv (fusion_tvs f))
    (fusion_exprs f) (fusion_outputs f) (fusion_next f).

(** Modelled from the spec: [tv->axis(i)->parallelize(ptype)]; the
    driver calls it at positions of the domain only, and nothing is done
    for a position outside it. *)
Definition tv_axis_parallelize (tv : nat) (i : nat) (p : ParallelType) (f : Fusion)
    : Fusion :=
  set_domain tv (alter (parallelize p) i (domain_of f tv)) f.

(** Modelled from the spec: [fusion->removeOutput(output)]. *)
Definition removeOutput (output : nat) (f : Fusion) : Fusion :=
  mkFusion (fusion_tvs f) (fusion_exprs f)
           (filter (fun o => o <> output) (fusion_outputs f)) (fusion_next f).

(** Modelled from the spec: [allParallelTypesExcept], every parallel type
    but the listed ones. *)
Definition all_parallel_types : list ParallelType :=
  [BIDz; BIDy; BIDx; TIDz; TIDy; TIDx;
   Vectorize; MisalignedVectorize; Unroll; Unswitch; Group; Serial].

Definition allParallelTypesExcept (except : list ParallelType) : list ParallelType :=
  filter (fun p => p ∉ except) all_parallel_types.

(** ** multiReductionInliner *)

(** First loop of the staging of the other reductions: the positions,
    not counting broadcasts, of the staged reduction axes of the
    reference. *)
Fixpoint non_broadcast_rfactor_positions (axes : list IterDomain)
    (non_broadcast_pos : nat) (acc : gset nat) : gset nat :=
  match axes with
  | [] => acc
  | id :: rest =>
      if isBroadcast id then
        non_broadcast_rfactor_positions rest non_broadcast_pos acc
      else
        non_broadcast_rfactor_positions rest (S non_broadcast_pos)
          (if isReduction id && isRFactorProduct id
           then {[non_broadcast_pos]} ∪ acc else acc)
  end.

(** [addBackBroadcasts]: from positions ignoring broadcasts to raw
    positions. *)
Fixpoint addBackBroadcasts_from (i : nat) (axes : list IterDomain)
    (non_broadcast_axes : gset nat) (non_broadcast_pos : nat) : list nat :=
  match axes with
  | [] => []
  | id :: rest =>
      if isBroadcast id then
        addBackBroadcasts_from (S i) rest non_broadcast_axes non_broadcast_pos
      else if bool_decide (non_broadcast_pos ∈ non_broadcast_axes) then
        i :: addBackBroadcasts_from (S i) rest non_broadcast_axes (S non_broadcast_pos)
      else
        addBackBroadcasts_from (S i) rest non_broadcast_axes (S non_broadcast_pos)
  end.

Definition addBackBroadcasts (f : Fusion) (tv : nat) (non_broadcast_axes : gset nat)
    : list nat :=
  addBackBroadcasts_from 0 (domain_of f tv) non_broadcast_axes 0.

(** [isGridAllreduce]: check if a reduction is effectively an allreduce. *)
Definition reduction_parallel_types (d : list IterDomain) : list ParallelType :=
  getParallelType <$>
    filter (fun id => isReduction id = true /\
                      isParallelTypeBlockDim (getParallelType id) = true) d.

Definition broadcast_uses_parallel_type (f : Fusion) (types : list ParallelType)
    (bcast_expr : Expr) : bool :=
  match head (expr_outputs bcast_expr) with
  | Some bcast_tv =>
      existsb (fun bcast_id =>
                 let pt := getParallelType bcast_id in
                 isParallelTypeBlockDim pt && bool_decide (pt ∈ types))
              (domain_of f bcast_tv)
  | None => false
  end.

Definition isGridAllreduce (f : Fusion) (reduction_tv : nat) : bool :=
  (* Only Local tensor is converted to allreduce *)
  if negb (bool_decide (getMemoryType f reduction_tv = Local)) then false else
  (* Collect all reduction parallel types *)
  let types := reduction_parallel_types (domain_of f reduction_tv) in
  (* If any of the reduction parallel types is used to parallelize the
     broadcast, it will be converted to an allreduce reduction expr *)
  existsb (broadcast_uses_parallel_type f types)
    (filter (fun e => expr_type e = BroadcastOp) (uses f reduction_tv)).

Definition vectorizable_expr (e : option Expr) : bool :=
  match e with
  | Some e => bool_decide (expr_type e = UnaryOpSet)
  | None => false
  end.

Section Driver.

(** The collaborators of the driver that are taken as given: the
    transformation propagation rooted at a node, the staging of another
    reduction, the map between the axes of two nodes that parallel
    propagation follows, the vectorizable boundary nodes, and the inlining
    position the maximal-inlining pass gives to a node. *)
Variable propagateTransforms : nat -> Fusion -> Fusion.
Variable rfactorHelperOf : nat -> list nat -> Fusion -> Fusion.
Variable mapped_axis : Fusion -> nat -> nat -> nat -> option nat.
Variable getInputsOutputsWithInnerDim : Fusion -> nat -> list nat.
Variable inline_position : Fusion -> nat -> nat.

(** Modelled from the spec: [scheduler_utils::parallelizeAllLike] is not
    part of the sources at hand.  It propagates the parallel assignments
    of the selected types from the axes of the reference node left of
    [pos] (a negative [pos] counts from the end) onto the mapped axes of
    the selected nodes, of every node when none is selected. *)
Definition propagated_type (f : Fusion) (reference_tv : nat) (pos : Z)
    (selected_parallel_types : list ParallelType) (tv i : nat)
    : option ParallelType :=
  let ref_domain := domain_of f reference_tv in
  let pos := if pos <? 0 then pos + Z.of_nat (length ref_domain) + 1 else pos in
  match mapped_axis f reference_tv tv i with
  | Some k =>
      match ref_domain !! k with
      | Some ref_id =>
          if (Z.of_nat k <? pos) &&
             bool_decide (getParallelType ref_id ∈ selected_parallel_types)
          then Some (getParallelType ref_id) else None
      | None => None
      end
  | None => None
  end.

(** Modelled from the spec: the propagation onto the axes of one node. *)
Definition parallelize_like (f : Fusion) (reference_tv : nat) (pos : Z)
    (selected_parallel_types : list ParallelType) (tv : nat) (t : FusionTv)
    : FusionTv :=
  mkFusionTv
    (imap (fun i id =>
             match propagated_type f reference_tv pos selected_parallel_types tv i with
             | Some p => parallelize p id
             | None => id
             end) (ftv_domain t))
    (ftv_memory t) (ftv_inline t).

(** Modelled from the spec: [scheduler_utils::parallelizeAllLike] on the
    graph. *)
Definition parallelizeAllLike (reference_tv : nat) (pos : Z)
    (selected_tvs : list nat) (selected_parallel_types : list ParallelType)
    (f : Fusion) : Fusion :=
  mkFusion
    (map_imap (fun tv t =>
                 Some (if bool_decide (selected_tvs = []) ||
                          bool_decide (tv ∈ selected_tvs)
                       then parallelize_like f reference_tv pos
                              selected_parallel_types tv t
                       else t))
              (fusion_tvs f))
    (fusion_exprs f) (fusion_outputs f) (fusion_next f).

(** Modelled from the spec: [inlineMost] is the generic maximal-inlining
    pass; it sets the inlining position of every node. *)
Definition inlineMost (f : Fusion) : Fusion :=
  mkFusion
    (map_imap (fun tv t =>
                 Some (mkFusionTv (ftv_domain t) (ftv_memory t) (inline_position f tv)))
              (fusion_tvs f))
    (fusion_exprs f) (fusion_outputs f) (fusion_next f).

Variable rparams : ReductionParams.
Variables reduction_tv reference_tv : nat.
Variables reduction_tvs cached_inputs : list nat.
Variable cached_outputs : list (nat * nat).
Variable dummy_outputs : list nat.

(** Propagate transformations before we rfactor the other reductions;
    if reduction_tv is rfactored, rfactor all reductions. *)
Definition rfactorOtherReductions (f : Fusion) : Fusion :=
  if bool_decide (reference_tv <> reduction_tv) then
    let non_broadcast_rfactor_axes :=
      non_broadcast_rfactor_positions (domain_of f reference_tv) 0 ∅ in
    foldl (fun f reduction_tv_ =>
             if bool_decide (reduction_tv_ = reduction_tv) ||
                bool_decide (expr_type <$> definition f reduction_tv_ =
                             Some GroupedReductionOp)
             then f (* This should come in already rfactored *)
             else rfactorHelperOf reduction_tv_
                    (addBackBroadcasts f reduction_tv_ non_broadcast_rfactor_axes) f)
          f reduction_tvs
  else f.

Definition propagateAndStage (f : Fusion) : Fusion :=
  rfactorOtherReductions (propagateTransforms reference_tv f).

(** Propagate parallelization except vectorization and unrolling. *)
Definition propagateParallelization (f : Fusion) : Fusion :=
  parallelizeAllLike reference_tv (-1) []
    (allParallelTypesExcept [Unroll; Vectorize; MisalignedVectorize]) f.

(** Find all tensor views that should have unroll or vectorization. *)
Definition are_unrolled_of (f : Fusion) : gset nat :=
  let vectorize :=
    vectorize_inner_reduction rparams || vectorize_iter_dom rparams in
  (* Grab all tensor views that should be vectorized *)
  let vectorizable_inputs_outputs := getInputsOutputsWithInnerDim f reference_tv in
  let from_inputs :=
    foldl (fun (are_unrolled : gset nat) cached_input =>
             if vectorize then
               match producerTvsOf f cached_input with
               | [producer] =>
                   if vectorizable_expr (definition f cached_input) &&
                      bool_decide (producer ∈ vectorizable_inputs_outputs)
                   then {[cached_input]} ∪ are_unrolled else are_unrolled
               | _ => are_unrolled
               end
             else {[cached_input]} ∪ are_unrolled)
          ∅ cached_inputs in
  foldl (fun (are_unrolled : gset nat) (cached_output_pair : nat * nat) =>
           let output := cached_output_pair.2 in
           if vectorize then
             if vectorizable_expr (definition f output) &&
                bool_decide (output ∈ vectorizable_inputs_outputs)
             then {[output]} ∪ are_unrolled else are_unrolled
           else {[output]} ∪ are_unrolled)
        from_inputs cached_outputs.

(** Propagate vectorization/unrolling to those tensors that need it. *)
Definition propagateUnrollVectorize (are_unrolled : gset nat) (f : Fusion) : Fusion :=
  if bool_decide (are_unrolled <> ∅) then
    parallelizeAllLike reference_tv (-1) (elements are_unrolled)
      [Unroll; Vectorize; MisalignedVectorize] f
  else f.

(** If reference shouldn't be unrolled, clear that parallel type.  In the
    case of outer grid persistence, replace Vector with Group. *)
Definition clear_axis (tv i : nat) (f : Fusion) : Fusion :=
  match domain_of f tv !! i with
  | None => f
  | Some id =>
      (* Use Group only for grid reductions (i.e., not for rfactor'ed
         reductions) *)
      if is_outer_grid_persistence rparams && bool_decide (tv ∈ reduction_tvs) &&
         ptype_eqb (getParallelType id) Vectorize
      then
        foldl (fun f sibling => tv_axis_parallelize sibling i Group f)
              (tv_axis_parallelize tv i Group f) (siblingTvsOf f tv)
      else if isUnrollOrVectorize (getParallelType id)
      then
        foldl (fun f sibling => tv_axis_parallelize sibling i Serial f)
              (tv_axis_parallelize tv i Serial f) (siblingTvsOf f tv)
      else f
  end.

Definition clearUnrollOfReference (are_unrolled : gset nat) (f : Fusion) : Fusion :=
  foldl (fun f tv =>
           if bool_decide (tv ∉ are_unrolled)
           then foldl (fun f i => clear_axis tv i f) f
                      (seq 0 (length (domain_of f tv)))
           else f)
        f [reference_tv; reduction_tv].

(** The other reductions that are effectively all-reduces take the group
    assignment of the reduction node. *)
Definition allreduce_tvs_of (f : Fusion) : list nat :=
  filter (fun tv => reduction_tv <> tv /\ isGridAllreduce f tv = true) reduction_tvs.

Definition regroupAllreduce (f : Fusion) : Fusion :=
  let allreduce_tvs := allreduce_tvs_of f in
  if bool_decide (allreduce_tvs <> [])
  then parallelizeAllLike reduction_tv (-1) allreduce_tvs [Group] f
  else f.

(** Remove dummy outputs as they can inadvertently affect CA positions,
    then inline the schedule. *)
Definition removeDummiesAndInline (f : Fusion) : Fusion :=
  inlineMost (foldl (fun f output => removeOutput output f) f dummy_outputs).

(** The state in which the all-reduce nodes are looked for. *)
Definition beforeRegroup (f : Fusion) : Fusion :=
  let are_unrolled := are_unrolled_of f in
  clearUnrollOfReference are_unrolled (propagateUnrollVectorize are_unrolled f).

(** The body of [if (unroll)]. *)
Definition unrollBlock (f : Fusion) : Fusion :=
  regroupAllreduce (beforeRegroup f).

Definition multiReductionInliner (f : Fusion) : Fusion :=
  let f := propagateAndStage f in
  let unroll := isUnrolled rparams in
  let f := propagateParallelization f in
  let f := if unroll then unrollBlock f else f in
  removeDummiesAndInline f.

End Driver.

(** ** Example graph for the driver *)

(** Node 0 is the original reduction with a grouped reduction axis, node
    1 its staged reference, node 2 another reduction, in local memory,
    whose block-parallel reduction axis also parallelizes the broadcast
    (node 3) that consumes it. *)
Definition ex_fusion : Fusion :=
  mkFusion
    (list_to_map
       [ (0%nat, mkFusionTv [iter_axis_of 0 (NamedScalar "i") Serial;
                             red_axis_of 1 (NamedScalar "r") Group] Local 0);
         (1%nat, mkFusionTv [iter_axis_of 2 (NamedScalar "i") Serial;
                             red_axis_of 3 (NamedScalar "r") Serial] Local 0);
         (2%nat, mkFusionTv [iter_axis_of 4 (NamedScalar "i") Serial;
                             red_axis_of 5 (NamedScalar "r") BIDx] Local 0);
         (3%nat, mkFusionTv [iter_axis_of 6 (NamedScalar "i") Serial;
                             mkIterDomain 7 false true (IntConst 1) BIDx false false]
                            Local 0) ])
    [ mkExpr ReductionOp [1%nat] [0%nat];
      mkExpr ReductionOp [9%nat] [2%nat];
      mkExpr BroadcastOp [2%nat] [3%nat] ]
    [3%nat] 10.

Definition ex_propagateTransforms : nat -> Fusion -> Fusion := fun _ f => f.
Definition ex_rfactorHelperOf : nat -> list nat -> Fusion -> Fusion := fun _ _ f => f.
(** The axes of node 2 are mapped to those of node 0, position by
    position; no other axes are mapped. *)
Definition ex_mapped_axis : Fusion -> nat -> nat -> nat -> option nat :=
  fun _ reference tv i =>
    if bool_decide (reference = 0%nat) && bool_decide (tv = 2%nat) then Some i else None.
Definition ex_vectorizable : Fusion -> nat -> list nat := fun _ _ => [].
Definition ex_inline_position : Fusion -> nat -> nat := fun _ _ => 0%nat.

Definition ex_driver (rparams : ReductionParams) : Fusion :=
  multiReductionInliner ex_propagateTransforms ex_rfactorHelperOf ex_mapped_axis
    ex_vectorizable ex_inline_position rparams 0 1 [0%nat; 2%nat] [] [] [] ex_fusion.

(** Node 0 is the original reduction, node 1 its staged reference, with
    a serial iteration axis and a group reduction axis; node 2 is another
    node, with an unrolled iteration axis and a block-parallel reduction
    axis, whose axes are mapped to those of the reference position by
    position. *)
Definition ex_overwrite_fusion : Fusion :=
  mkFusion
    (list_to_map
       [ (0%nat, mkFusionTv [iter_axis_of 0 (NamedScalar "i") Serial;
                             red_axis_of 1 (NamedScalar "r") Serial] Local 0);
         (1%nat, mkFusionTv [iter_axis_of 2 (NamedScalar "i") Serial;
                             red_axis_of 3 (NamedScalar "r") Group] Local 0);
         (2%nat, mkFusionTv [iter_axis_of 4 (NamedScalar "i") Unroll;
                             red_axis_of 5 (NamedScalar "r") BIDx] Local 0) ])
    [ mkExpr ReductionOp [1%nat] [0%nat];
      mkExpr OtherOp [2%nat] [1%nat] ]
    [0%nat] 6.

Definition ex_overwrite_mapped_axis : Fusion -> nat -> nat -> nat -> option nat :=
  fun _ reference tv i =>
    if bool_decide (reference = 1%nat) && bool_decide (tv = 2%nat) then Some i else None.

Definition ex_overwrite_driver (rparams : ReductionParams) : Fusion :=
  multiReductionInliner ex_propagateTransforms ex_rfactorHelperOf
    ex_overwrite_mapped_axis ex_vectorizable ex_inline_position rparams 0 1
    [0%nat] [] [] [] ex_overwrite_fusion.

(** A reduction node is an implicit all-reduce, in the words of the
    specification: it lives in local memory, and a block-level parallel
    dimension of one of its reduction axes also parallelizes an axis of a
    broadcast that consumes it. *)
Definition is_implicit_allreduce (f : Fusion) (tv : nat) : Prop :=
  getMemoryType f tv = Local /\
  exists pt id bcast_expr bcast_tv bcast_id,
    isParallelTypeBlockDim pt = true /\
    id ∈ domain_of f tv /\ isReduction id = true /\ getParallelType id = pt /\
    bcast_expr ∈ fusion_exprs f /\ expr_type bcast_expr = BroadcastOp /\
    tv ∈ expr_inputs bcast_expr /\
    head (expr_outputs bcast_expr) = Some bcast_tv /\
    bcast_id ∈ domain_of f bcast_tv /\ getParallelType bcast_id = pt.

Definition has_group_axis (f : Fusion) (tv : nat) : Prop :=
  exists id, id ∈ domain_of f tv /\ getParallelType id = Group.

(** ** projectPersistentBuffers *)

(** Modelled from the spec: the record that the external persistent
    buffer analysis produces: the buffers, the resolution points of each
    buffer, and the buffers that are projectable. *)
Record PersistentBufferInfo : Type := mkPersistentBufferInfo {
  persistent_buffers : list nat;
  persistent_buffer_resolution_points : list (list nat);
  projectable_persistent_buffers : list nat
}.

Definition buffers_size_error : string :=
  "persistent_buffers.size() == persistent_resolution_points.size()".
Definition use_definition_error : string := "use->definition() != nullptr".
(** The source reads [chain[1]] without a check; the embedding makes the
    access to a chain without a second node an error of its own. *)
Definition chain_access_error : string := "chain[1] is out of range".

(** Modelled from the spec: [tv->hasReduction()], the node has a
    reduction axis. *)
Definition hasReduction (f : Fusion) (tv : nat) : bool :=
  existsb isReduction (domain_of f tv).

(** Modelled from the spec: [ir_utils::filterByType<TensorView>(chain)],
    the values of the chain that are nodes. *)
Definition filterTensorViews (f : Fusion) (chain : list nat) : list nat :=
  filter (fun v => is_Some (fusion_tvs f !! v)) chain.

Definition chain_has_reduction (f : Fusion) (chain : list nat) : bool :=
  existsb (hasReduction f) (filterTensorViews f chain).

(** Modelled from the spec: [RecomputeTv::recompute], [add] and
    [ir_utils::replaceValInExpr] are not part of the sources at hand.
    [recompute] makes a fresh node with the axes of the buffer, defined as
    the buffer is from the buffer's own inputs; [add] makes a fresh node
    defined as the sum of two nodes; [replaceValInExpr] substitutes a node
    for another among the inputs of an expression. *)
Definition new_node_like (f : Fusion) (like : nat) (defs : list Expr) : Fusion :=
  mkFusion
    (<[fusion_next f :=
         mkFusionTv (domain_of f like) (getMemoryType f like) 0]> (fusion_tvs f))
    (fusion_exprs f ++ defs) (fusion_outputs f) (S (fusion_next f)).

(** Modelled from the spec: [RecomputeTv::recompute(buffer)]. *)
Definition recompute (buffer : nat) : M Fusion nat :=
  fun f =>
    (new_node_like f buffer
       (match definition f buffer with
        | Some e => [mkExpr (expr_type e) (expr_inputs e) [fusion_next f]]
        | None => []
        end),
     Ok (fusion_next f)).

(** Modelled from the spec: [add(a, b)]. *)
Definition add (a b : nat) : M Fusion nat :=
  fun f =>
    (new_node_like f a [mkExpr BinaryOpAdd [a; b] [fusion_next f]],
     Ok (fusion_next f)).

(** Modelled from the spec: the substitution among the inputs of one
    expression. *)
Definition replace_input (reference substitute : nat) (e : Expr) : Expr :=
  mkExpr (expr_type e)
         ((fun v => if bool_decide (v = reference) then substitute else v)
            <$> expr_inputs e)
         (expr_outputs e).

(** Modelled from the spec: [ir_utils::replaceValInExpr(e, reference,
    substitute)]. *)
Definition replaceValInExpr (e : Expr) (reference substitute : nat) : M Fusion unit :=
  modify (fun f =>
    mkFusion (fusion_tvs f)
      ((fun e' => if bool_decide (e' = e)
                  then replace_input reference substitute e' else e')
         <$> fusion_exprs f)
      (fusion_outputs f) (fusion_next f)).

Fixpoint foldM {S A B} (step : B -> A -> M S B) (l : list A) (b : B) : M S B :=
  match l with
  | [] => ret b
  | a :: l' => bind (step b a) (foldM step l')
  end.

Section Projector.

(** The external analysis and the dependency-chain query of the graph. *)
Variable persistentBuffers : Fusion -> PersistentBufferInfo.
Variable getAllDependencyChains : Fusion -> nat -> nat -> list (list nat).

(** The body of the loop over the chains to a resolution point. *)
Definition record_use_of_chain (persistent_use_of_buffer : list nat)
    (chain : list nat) : M Fusion (list nat) :=
  (f <- get ;;
   (* If there's a reduction on the current path between the persistent
      buffer and resolution, continue, there's no need to replicate
      this use. *)
   if chain_has_reduction f chain then ret persistent_use_of_buffer else
   (* chain[0] is the persistent buffer, chain[1] is its first use. *)
   match chain !! 1%nat with
   | None => fatal chain_access_error
   | Some use =>
       (* Only grab unique uses *)
       if bool_decide (use ∈ persistent_use_of_buffer)
       then ret persistent_use_of_buffer
       else ret (persistent_use_of_buffer ++ [use])
   end)%sched.

Definition persistent_uses (buffer : nat) (resolution_points : list nat)
    : M Fusion (list nat) :=
  foldM (fun persistent_use_of_buffer resolution_point =>
           (f <- get ;;
            foldM record_use_of_chain
              (getAllDependencyChains f buffer resolution_point)
              persistent_use_of_buffer)%sched)
        resolution_points [].

(** The body of the loop over the recorded uses: recompute the
    persistent buffer for this use. *)
Definition project_use (buffer : nat) (dummy_outputs : list nat) (use : nat)
    : M Fusion (list nat) :=
  (f <- get ;;
   match definition f use with
   | None => fatal use_definition_error
   | Some use_definition =>
       buffer_replicate <- recompute buffer ;;
       dummy <- add buffer_replicate buffer ;;
       replaceValInExpr use_definition buffer buffer_replicate ;;;
       ret (dummy_outputs ++ [dummy])
   end)%sched.

Definition projectBuffer (projected_buffers : list nat)
    (dummy_outputs : list nat) (entry : nat * list nat) : M Fusion (list nat) :=
  let '(buffer, resolution_points) := entry in
  if bool_decide (buffer ∉ projected_buffers) then ret dummy_outputs else
  (persistent_use_of_buffer <- persistent_uses buffer resolution_points ;;
   foldM (project_use buffer) persistent_use_of_buffer dummy_outputs)%sched.

Definition projectPersistentBuffers : M Fusion (list nat) :=
  (f <- get ;;
   let persistent_info := persistentBuffers f in
   TORCH_INTERNAL_ASSERT
     (bool_decide (length (persistent_buffers persistent_info) =
                   length (persistent_buffer_resolution_points persistent_info)))
     buffers_size_error ;;;
   foldM (projectBuffer (projectable_persistent_buffers persistent_info))
         (zip (persistent_buffers persistent_info)
              (persistent_buffer_resolution_points persistent_info))
         [])%sched.

End Projector.

(** A chain from the buffer to one of its resolution points that passes
    through no reduction, and the second node of such a chain. *)
Definition surviving_chain
    (chains : Fusion -> nat -> nat -> list (list nat))
    (f : Fusion) (buffer : nat) (resolution_points : list nat)
    (chain : list nat) : Prop :=
  exists resolution_point,
    resolution_point ∈ resolution_points /\
    chain ∈ chains f buffer resolution_point /\
    chain_has_reduction f chain = false.

(** The addresses that the expressions of a graph mention are in use:
    they are below the next free address. *)
Definition addresses_in_use (g : Fusion) : Prop :=
  forall e, e ∈ fusion_exprs g ->
    (forall v, v ∈ expr_inputs e -> (v < fusion_next g)%nat) /\
    (forall v, v ∈ expr_outputs e -> (v < fusion_next g)%nat).

(** ** Example graph for the projector (scenario 5) *)

(** Node 1 is the persistent buffer, a copy of the input 0; node 2
    reduces it, node 3 broadcasts the result, node 4 adds the buffer and
    the broadcast, node 5 uses the broadcast alone.  The resolution points
    are 4 and 5: the buffer reaches 4 directly and through the reduction,
    and reaches 5 through the reduction only. *)
Definition ex_buffer_fusion : Fusion :=
  mkFusion
    (list_to_map
       [ (0%nat, mkFusionTv [iter_axis_of 0 (NamedScalar "i") Serial] Global 0);
         (1%nat, mkFusionTv [iter_axis_of 1 (NamedScalar "i") Serial] Local 0);
         (2%nat, mkFusionTv [red_axis_of 2 (NamedScalar "i") Serial] Local 0);
         (3%nat, mkFusionTv [mkIterDomain 3 false true (IntConst 1) Serial false false]
                            Local 0);
         (4%nat, mkFusionTv [iter_axis_of 4 (NamedScalar "i") Serial] Local 0);
         (5%nat, mkFusionTv [mkIterDomain 5 false true (IntConst 1) Serial false false]
                            Global 0) ])
    [ mkExpr UnaryOpSet [0%nat] [1%nat];
      mkExpr ReductionOp [1%nat] [2%nat];
      mkExpr BroadcastOp [2%nat] [3%nat];
      mkExpr BinaryOpAdd [1%nat; 3%nat] [4%nat];
      mkExpr OtherOp [3%nat] [5%nat] ]
    [4%nat; 5%nat] 6.

Definition ex_persistentBuffers : Fusion -> PersistentBufferInfo :=
  fun _ => mkPersistentBufferInfo [1%nat] [[4%nat; 5%nat]] [1%nat].

Definition ex_chains : Fusion -> nat -> nat -> list (list nat) :=
  fun _ buffer resolution_point =>
    if bool_decide (buffer = 1%nat) && bool_decide (resolution_point = 4%nat)
    then [[1; 2; 3; 4]; [1; 4]]%nat
    else if bool_decide (buffer = 1%nat) && bool_decide (resolution_point = 5%nat)
    then [[1; 2; 3; 5]]%nat
    else [].

(** * Further properties: vocabulary *)

(** An iteration axis of the outer part of the canonical order: not a
    reduction, not a broadcast, and not unrolled, vectorized or
    unswitched. *)
Definition plain_iteration (id : IterDomain) : bool :=
  negb (isReduction id) && negb (isBroadcast id) &&
  negb (isUnrollOrVectorize (getParallelType id)) &&
  negb (ptype_eqb (getParallelType id) Unswitch).

(** Two axes that [id_lt] does not tell apart. *)
Definition tied (a b : IterDomain) : Prop :=
  id_lt a b = false /\ id_lt b a = false.

(** A computation that, started on a node of [n] axes, completes and
    leaves a node of [n'] axes. *)
Definition runs {A} (n n' : nat) (m : M Sched A) : Prop :=
  forall s, nDims (reduction_tv s) = n ->
    exists s' a, m s = (s', Ok a) /\ nDims (reduction_tv s') = n'.

(** A property of the state that a computation keeps, whether it
    completes or not. *)
Definition preserves {A} (I : Sched -> Prop) (m : M Sched A) : Prop :=
  forall s, I s -> I (m s).1.

(** Outer grid persistence asks for static block sizes: [blockDim.y]
    always, [blockDim.x] when the iteration axis is bound to a hardware
    dimension. *)
Definition static_dims_missing (rparams : ReductionParams) (has_iter_axis : bool)
    : bool :=
  is_outer_grid_persistence rparams &&
  (negb (static_bdimy rparams) ||
   has_iter_axis && isParallelTypeThread (block_dim_iter_dom rparams) &&
   negb (static_bdimx rparams)).

(** The axes of the node are distinct objects, allocated below the next
    free address. *)
Definition fresh_names (s : Sched) : Prop :=
  distinct_axes (tv_domain (reduction_tv s)) /\
  Forall (fun id => (id_name id < next_name s)%nat) (tv_domain (reduction_tv s)).

(** No axis of the node is vectorized. *)
Definition no_vectorized_axis (s : Sched) : Prop :=
  Forall not_vectorized (tv_domain (reduction_tv s)).

(** A staging helper gives the staged node no parallel type that the
    node it stages does not have. *)
Definition keeps_parallel_types (rfactorHelper : list nat -> M Sched TensorView)
    : Prop :=
  forall axes s s' rf,
    rfactorHelper axes s = (s', Ok rf) ->
    forall id, id ∈ tv_domain rf ->
      exists id0, id0 ∈ tv_domain (reduction_tv s) /\
                  getParallelType id = getParallelType id0.

(** Parameters of outer grid persistence with static block sizes and no
    vectorization of the iteration domain. *)
Definition rparams_ogp_no_vectorize : ReductionParams :=
  mkReductionParams
    false true false
    true true 4 false false 4 TIDy BIDy false
    false 1 false false false TIDx BIDx
    false false 1 1 Serial Serial
    true true (mkLaunchParams 32 8).

(** ** Vocabulary for the layouts of the loop nest *)

(** The state with the axes [l2] after the axes of the node. *)
Definition with_suffix (l2 : list IterDomain) (s : Sched) : Sched :=
  mkSched
    (mkTensorView (tv_domain (reduction_tv s) ++ l2) (tv_log (reduction_tv s)))
    (next_name s).

(** A computation that completes does the same in front of any further
    axes, and leaves them as they are. *)
Definition suffix_frame {A} (m : M Sched A) : Prop :=
  forall l2 s s' a,
    m s = (s', Ok a) -> m (with_suffix l2 s) = (with_suffix l2 s', Ok a).

(** What a layout says of an axis: its parallel type, its extent where a
    split names it ([None] for what remains of the axis that was split),
    and whether it is padded to a multiple of the warp. *)
Record AxisFormat : Type := mkAxisFormat {
  fmt_type : ParallelType;
  fmt_extent : option Val;
  fmt_padded : bool
}.

(** The axis [a], made from the axis [id], is as the format says. *)
Definition has_format (id a : IterDomain) (fm : AxisFormat) : Prop :=
  getParallelType a = fmt_type fm /\
  hasPaddingToMultipleOfWarp a = fmt_padded fm /\
  isReduction a = isReduction id /\
  isBroadcast a = isBroadcast id /\
  match fmt_extent fm with Some e => extent a = e | None => True end.

(** The non-persistent format of the inner reduction axis:
    [Grid Split, Remainder, unswitch, unroll, thread dim, vectorize]. *)
Definition nonpersistent_inner_format (rparams : ReductionParams) : list AxisFormat :=
  let grid := grid_dim_inner_reduction rparams in
  let block := block_dim_inner_reduction rparams in
  let unroll := unroll_factor_inner_reduction rparams in
  (if cross_grid_inner_reduction rparams
   then if split_grid_dim_inner_reduction rparams
        then [mkAxisFormat grid (Some (ParallelDim grid)) false;
              mkAxisFormat Serial None false]
        else [mkAxisFormat grid None false]
   else [mkAxisFormat Serial None false]) ++
  [mkAxisFormat Unswitch (Some (IntConst 1)) false] ++
  (if negb (vectorize_inner_reduction rparams) && (1 <? unroll)
   then [mkAxisFormat Unroll (Some (IntConst (to_int unroll))) false] else []) ++
  (if cross_block_inner_reduction rparams
   then [mkAxisFormat block (Some (ParallelDim block))
           (pad_inner_reduction_to_warp rparams)]
   else []) ++
  (if vectorize_inner_reduction rparams
   then [mkAxisFormat Vectorize (Some (IntConst (to_int unroll))) false] else []).

(** The persistent format of the inner reduction axis:
    [Grid Split, persistent buffer, unswitch, unroll, thread dim, vectorize]. *)
Definition persistent_inner_format (rparams : ReductionParams) : list AxisFormat :=
  let grid := grid_dim_inner_reduction rparams in
  let block := block_dim_inner_reduction rparams in
  let unroll := unroll_factor_inner_reduction rparams in
  (if cross_grid_inner_reduction rparams
   then [mkAxisFormat grid (Some (ParallelDim grid)) false] else []) ++
  [mkAxisFormat Serial
     (Some (IntConst (batches_per_block_inner_reduction rparams))) false;
   mkAxisFormat Unswitch (Some (IntConst 1)) false] ++
  (if negb (vectorize_inner_reduction rparams) && (1 <? unroll)
   then [mkAxisFormat Unroll (Some (IntConst (to_int unroll))) false] else []) ++
  [mkAxisFormat block None (pad_inner_reduction_to_warp rparams)] ++
  (if vectorize_inner_reduction rparams
   then [mkAxisFormat Vectorize (Some (IntConst (to_int unroll))) false] else []).

(** An axis that no split has replaced: its type, extent and padding are
    its own. *)
Definition untouched (id : IterDomain) : AxisFormat :=
  mkAxisFormat (getParallelType id) (Some (extent id))
    (hasPaddingToMultipleOfWarp id).

(** What remains of the axis: a new serial axis once a split has been
    made, the axis itself otherwise. *)
Definition remainder_of (split_done : bool) (id : IterDomain) : AxisFormat :=
  if split_done then mkAxisFormat Serial None false else untouched id.

(** The formats of the outer reduction axis: persistent,
    [Grid Split, persistent buffer, unroll, thread dim], and
    non-persistent, [Grid Split, Remainder, unroll, thread dim]. *)
Definition outer_reduction_format (rparams : ReductionParams) (id : IterDomain)
    : list AxisFormat :=
  let grid := grid_dim_outer_reduction rparams in
  let block := block_dim_outer_reduction rparams in
  let unroll := unroll_factor_outer_reduction rparams in
  let unroll_axis :=
    if 1 <? unroll then [mkAxisFormat Unroll (Some (IntConst (to_int unroll))) false]
    else [] in
  if persistent_kernel rparams then
    (if cross_grid_outer_reduction rparams
     then [mkAxisFormat grid (Some (ParallelDim grid)) false] else []) ++
    [mkAxisFormat Serial
       (Some (IntConst (batches_per_block_outer_reduction rparams))) false] ++
    unroll_axis ++
    [mkAxisFormat block None false]
  else
    (if cross_grid_outer_reduction rparams
     then [mkAxisFormat grid (Some (ParallelDim grid)) false;
           mkAxisFormat Serial None false]
     else [remainder_of (cross_block_outer_reduction rparams || (1 <? unroll)) id]) ++
    unroll_axis ++
    (if cross_block_outer_reduction rparams
     then [mkAxisFormat block (Some (ParallelDim block)) false] else []).

(** The format of the iteration axis:
    [Grid Split, unswitch, unroll, thread dim, vectorize]. *)
Definition iter_domain_format (rparams : ReductionParams) (id : IterDomain)
    : list AxisFormat :=
  let ogp := is_outer_grid_persistence rparams in
  let grid := grid_dim_iter_dom rparams in
  let block := block_dim_iter_dom rparams in
  let factor := unroll_factor_iter_dom rparams in
  let vec := vectorize_iter_dom rparams in
  let thread := isParallelTypeThread block in
  let unroll := negb vec && (1 <? factor) in
  let unswitch := (1 <? factor) && negb ogp in
  let split_done := vec || thread || unroll || unswitch in
  (if isParallelTypeThread grid then
     if split_grid_dim_iter_dom_outer rparams then
       [mkAxisFormat grid (Some (ParallelDim grid)) false;
        mkAxisFormat Serial None false]
     else if split_grid_dim_iter_dom_inner rparams then
       [mkAxisFormat Serial None false;
        mkAxisFormat grid (Some (ParallelDim grid)) false]
     else
       [if split_done then mkAxisFormat grid None false
        else mkAxisFormat grid (Some (extent id)) (hasPaddingToMultipleOfWarp id)]
   else [remainder_of split_done id]) ++
  (if unswitch then [mkAxisFormat Unswitch (Some (IntConst 1)) false] else []) ++
  (if unroll then [mkAxisFormat Unroll (Some (IntConst (to_int factor))) false] else []) ++
  (if thread
   then [mkAxisFormat block
           (Some (if ogp then IntConst (to_int (bdimx (lparams rparams)))
                  else ParallelDim block)) false]
   else []) ++
  (if vec then [mkAxisFormat Vectorize (Some (IntConst (to_int factor))) false] else []).

(** A three-dimensional schedule, not persistent, that splits the outer
    reduction across block and grid and unrolls it. *)
Definition rparams_3d : ReductionParams :=
  mkReductionParams
    true false true
    true true 2 false false 3 TIDx BIDy true
    false 1 false false false Serial BIDx
    true true 5 2 TIDz BIDz
    false false (mkLaunchParams 32 8).

(** A persistent schedule of a fastest-dimension reduction, vectorized
    and padded to the warp. *)
Definition rparams_persistent : ReductionParams :=
  mkReductionParams
    true true false
    true true 4 true true 3 TIDx BIDy false
    false 2 false false true TIDy BIDx
    false false 1 1 Serial Serial
    false false (mkLaunchParams 32 8).

Definition ex_3d_domain : list IterDomain :=
  [iter_axis_of 0 (NamedScalar "i") Serial;
   red_axis_of 1 (NamedScalar "ro") Serial;
   red_axis_of 2 (NamedScalar "ri") Serial].
Definition ex_3d_node : Sched := node_of ex_3d_domain.

(** ** Vocabulary for the positions that ignore broadcasts *)

(** The number of axes before position [i] that are not broadcasts: the
    position of axis [i] when broadcasts are ignored. *)
Definition non_broadcast_rank (d : list IterDomain) (i : nat) : nat :=
  length (filter (fun id => isBroadcast id = false) (take i d)).

(** A reduction axis that staging has produced. *)
Definition staged_reduction (id : IterDomain) : bool :=
  isReduction id && isRFactorProduct id.

(** ** Vocabulary for the driver *)

(** The second graph has, at every position of every node, the axis of
    the first or that axis with one of the given parallel types. *)
Definition retyped (types : list ParallelType) (f f' : Fusion) : Prop :=
  forall tv i id, domain_of f' tv !! i = Some id ->
    exists id0, domain_of f tv !! i = Some id0 /\
      (id = id0 \/ exists p, p ∈ types /\ id = parallelize p id0).

(** The two graphs have the same expressions and the same outputs. *)
Definition same_skeleton (f f' : Fusion) : Prop :=
  fusion_exprs f' = fusion_exprs f /\ fusion_outputs f' = fusion_outputs f.

(** An unrolled schedule: node 0 is an input, node 1 its cache, node 2
    the staged reference with an unrolled reduction axis, node 3 the
    reduction node, node 4 an output and node 5 a dummy output. *)
Definition ex_unroll_fusion : Fusion :=
  mkFusion
    (list_to_map
       [ (0%nat, mkFusionTv [iter_axis_of 0 (NamedScalar "i") Serial;
                             iter_axis_of 1 (IntConst 4) Serial] Global 0);
         (1%nat, mkFusionTv [iter_axis_of 2 (NamedScalar "i") Serial;
                             iter_axis_of 3 (IntConst 4) Serial] Local 0);
         (2%nat, mkFusionTv [iter_axis_of 4 (NamedScalar "i") BIDx;
                             red_axis_of 5 (IntConst 4) Unroll;
                             red_axis_of 6 (NamedScalar "r") TIDx] Local 0);
         (3%nat, mkFusionTv [iter_axis_of 7 (NamedScalar "i") Serial;
                             red_axis_of 8 (NamedScalar "r") Serial] Local 0);
         (4%nat, mkFusionTv [iter_axis_of 9 (NamedScalar "i") Serial] Global 0);
         (5%nat, mkFusionTv [iter_axis_of 10 (NamedScalar "i") Serial] Global 0) ])
    [ mkExpr UnaryOpSet [0%nat] [1%nat];
      mkExpr ReductionOp [1%nat] [2%nat];
      mkExpr ReductionOp [2%nat] [3%nat];
      mkExpr UnaryOpSet [3%nat] [4%nat];
      mkExpr BinaryOpAdd [1%nat; 1%nat] [5%nat] ]
    [4%nat; 5%nat] 11.

(** The axes of every node are mapped to those of node 2, position by
    position. *)
Definition ex_unroll_mapped_axis : Fusion -> nat -> nat -> nat -> option nat :=
  fun _ reference tv i => if bool_decide (reference = 2%nat) then Some i else None.

Definition ex_unroll_driver : Fusion :=
  multiReductionInliner ex_propagateTransforms ex_rfactorHelperOf ex_unroll_mapped_axis
    ex_vectorizable ex_inline_position rparams_unrolled_iter 3 2 [3%nat] [1%nat]
    [(3%nat, 4%nat)] [5%nat] ex_unroll_fusion.

(** ** Vocabulary for the projector *)

(** What the projector may do to a graph: it keeps the outputs and every
    node allocated so far, allocates further nodes, and keeps the
    expressions with their kinds and the nodes they define, adding
    expressions after them. *)
Definition grown_from (f f' : Fusion) : Prop :=
  fusion_outputs f' = fusion_outputs f /\
  (fusion_next f <= fusion_next f')%nat /\
  (forall v, (v < fusion_next f)%nat -> fusion_tvs f' !! v = fusion_tvs f !! v) /\
  exists added,
    (fun e => (expr_type e, expr_outputs e)) <$> fusion_exprs f' =
      ((fun e => (expr_type e, expr_outputs e)) <$> fusion_exprs f) ++ added.

(** An analysis that finds the buffer of [ex_buffer_fusion] persistent
    but not projectable, and one whose lists differ in length. *)
Definition ex_not_projectable : Fusion -> PersistentBufferInfo :=
  fun _ => mkPersistentBufferInfo [1%nat] [[4%nat; 5%nat]] [].

Definition ex_mismatched_info : Fusion -> PersistentBufferInfo :=
  fun _ => mkPersistentBufferInfo [1%nat] [] [1%nat].

(** ** Vocabulary for the kinds of the axes and the vectorized axes *)

(** The kind of an axis: reduction or not, broadcast or not. *)
Definition axis_kind (id : IterDomain) : bool * bool :=
  (isReduction id, isBroadcast id).

(** A list without the repetitions of an element next to itself. *)
Fixpoint collapse (l : list (bool * bool)) : list (bool * bool) :=
  match l with
  | [] => []
  | x :: l' =>
      match l' with
      | y :: _ => if decide (x = y) then collapse l' else x :: collapse l'
      | [] => [x]
      end
  end.

(** The kinds of the axes of the node from the outside in, a run of axes
    of one kind counted once. *)
Definition kinds_of (s : Sched) : list (bool * bool) :=
  collapse (axis_kind <$> tv_domain (reduction_tv s)).

Definition is_vectorized (id : IterDomain) : bool :=
  ptype_eqb (getParallelType id) Vectorize.

(** A staged node with two vectorized axes. *)
Definition ex_two_vectorized : TensorView :=
  mkTensorView
    [ iter_axis_of 0 (IntConst 4) Vectorize;
      iter_axis_of 1 (NamedScalar "i") BIDx;
      red_axis_of 2 (IntConst 4) Vectorize ] [].

(** A staging helper that completes and returns a node whose axes are,
    position by position, of the parallel type and extent of the axes of
    the node it stages. *)
Definition stages_in_place (rfactorHelper : list nat -> M Sched TensorView)
    : Prop :=
  forall axes s, exists s' rf,
    rfactorHelper axes s = (s', Ok rf) /\
    Forall2 (fun a b => getParallelType a = getParallelType b /\
                        extent a = extent b)
            (tv_domain rf) (tv_domain (reduction_tv s)).

(** * Properties *)

(** Closed decidable facts are settled by evaluation. *)
Ltac by_evaluation := compute_done.

(** ** The staging candidates *)

Lemma scan_axis_cases axis_i id st :
  scan_axis axis_i id st =
    mkRFactorScan
      (if rfactor_candidate id then rfactor_axes st ++ [axis_i] else rfactor_axes st)
      (if rfactor_candidate id && negb (unswitched_extent_one id)
       then rfactor_axes_no_unswitch st ++ [axis_i] else rfactor_axes_no_unswitch st)
      (if isReduction id then S (reduction_dims st) else reduction_dims st).
Proof.
  unfold scan_axis, rfactor_candidate, unswitched_extent_one.
  destruct st as [ra rn rd]; simpl.
  destruct (isReduction id), (isThread id),
    (ptype_eqb (getParallelType id) Unswitch && isOneInt (extent id)); reflexivity.
Qed.

Lemma scan_axes_eq l : forall k st,
  scan_axes k l st =
    mkRFactorScan
      (rfactor_axes st ++ positions_where rfactor_candidate k l)
      (rfactor_axes_no_unswitch st ++
         positions_where (fun id => rfactor_candidate id && negb (unswitched_extent_one id)) k l)
      (reduction_dims st + length (filter (fun id => isReduction id = true) l)).
Proof.
  induction l as [|a l IH]; intros k [ra rn rd]; simpl.
  - by rewrite !app_nil_r, Nat.add_0_r.
  - rewrite IH, scan_axis_cases; simpl.
    rewrite filter_cons.
    destruct (rfactor_candidate a) eqn:Ec, (unswitched_extent_one a) eqn:Eu,
      (isReduction a) eqn:Er; simpl;
      repeat case_decide; try congruence; simpl;
      rewrite <- ?app_assoc; simpl; f_equal; lia.
Qed.

Lemma elem_of_positions_where f l : forall k x,
  x ∈ positions_where f k l <->
  exists i id, x = (k + i)%nat /\ l !! i = Some id /\ f id = true.
Proof.
  induction l as [|a l IH]; intros k x; simpl.
  - split; [by intros ?%elem_of_nil|]. by intros (i & id & _ & H & _).
  - assert (x ∈ positions_where f (S k) l <->
            exists i id, x = (k + S i)%nat /\ l !! i = Some id /\ f id = true) as IH'.
    { rewrite IH. by setoid_rewrite Nat.add_succ_r. }
    destruct (f a) eqn:Ea; [rewrite elem_of_cons|]; rewrite IH'; split.
    + intros [->|(i & id & -> & Hl & Hf)].
      * exists 0%nat, a. split; [lia|done].
      * by exists (S i), id.
    + intros ([|i] & id & -> & Hl & Hf); simpl in Hl.
      * left; lia.
      * right. by exists i, id.
    + intros (i & id & -> & Hl & Hf). by exists (S i), id.
    + intros ([|i] & id & -> & Hl & Hf); simpl in Hl.
      * congruence.
      * by exists i, id.
Qed.

Lemma NoDup_positions_where f l : forall k, NoDup (positions_where f k l).
Proof.
  induction l as [|a l IH]; intros k; simpl; [constructor|].
  destruct (f a); [|apply IH].
  constructor; [|apply IH].
  rewrite elem_of_positions_where. intros (i & id & H & _). lia.
Qed.

Lemma length_positions_where f l : forall k,
  length (positions_where f k l) = length (filter (fun id => f id = true) l).
Proof.
  induction l as [|a l IH]; intros k; simpl; [done|].
  rewrite filter_cons. destruct (f a); case_decide; try congruence; simpl; by rewrite IH.
Qed.

Lemma candidates_all_iff l :
  length (filter (fun id => isReduction id = true) l) =
    length (filter (fun id => rfactor_candidate id = true) l) <->
  every_reduction_qualifies l = true.
Proof.
  assert (forall l : list IterDomain,
    (length (filter (fun id => rfactor_candidate id = true) l) <=
     length (filter (fun id => isReduction id = true) l))%nat) as Hle.
  { clear l. induction l as [|a l IH]; simpl; [done|].
    rewrite !filter_cons. repeat case_decide; simpl; try lia.
    unfold rfactor_candidate in *. destruct (isReduction a); simpl in *; congruence. }
  induction l as [|a l IH]; simpl; [done|].
  rewrite !filter_cons. specialize (Hle l).
  repeat case_decide; simpl;
    unfold rfactor_candidate in *;
    destruct (isReduction a), (isThread a); simpl in *;
    try congruence; rewrite <- ?IH; try lia;
    split; intros; (congruence || lia).
Qed.

Lemma staged_axes_cases d :
  staged_axes d =
    if every_reduction_qualifies d
    then positions_where (fun id => rfactor_candidate id && negb (unswitched_extent_one id)) 0 d
    else positions_where rfactor_candidate 0 d.
Proof.
  unfold staged_axes. rewrite scan_axes_eq; simpl.
  rewrite length_positions_where.
  destruct (every_reduction_qualifies d) eqn:E.
  - apply candidates_all_iff in E. rewrite bool_decide_eq_true_2; done.
  - rewrite bool_decide_eq_false_2; [done|].
    intros H%candidates_all_iff. congruence.
Qed.

(** ** The old-to-new map of [sortAndRFactor] *)

Lemma distinct_axes_NoDup d : distinct_axes d -> NoDup d.
Proof. apply NoDup_fmap_1. Qed.

Lemma distinct_axes_name_inj d i j x y :
  distinct_axes d -> d !! i = Some x -> d !! j = Some y ->
  id_name x = id_name y -> i = j.
Proof.
  intros Hnd Hi Hj Hn.
  eapply (NoDup_lookup _ i j (id_name x) Hnd); rewrite list_lookup_fmap.
  - by rewrite Hi.
  - by rewrite Hj, Hn.
Qed.

Lemma distinct_axes_perm d d' : d' ≡ₚ d -> distinct_axes d -> distinct_axes d'.
Proof. unfold distinct_axes. by intros ->. Qed.

Lemma record_positions_notin l : forall k m nm,
  (forall id, id ∈ l -> id_name id <> nm) ->
  record_positions k l m !! nm = m !! nm.
Proof.
  induction l as [|a l IH]; intros k m nm Hn; simpl; [done|].
  rewrite IH.
  - apply lookup_insert_ne, Hn, elem_of_cons; auto.
  - intros id Hid. apply Hn, elem_of_cons; auto.
Qed.

Lemma record_positions_lookup l : forall k m i id,
  distinct_axes l -> l !! i = Some id ->
  record_positions k l m !! id_name id = Some (k + i)%nat.
Proof.
  induction l as [|a l IH]; intros k m i id Hnd Hi; [done|].
  apply NoDup_cons in Hnd as [Ha Hnd]. simpl.
  destruct i as [|i]; simpl in Hi.
  - injection Hi as ->. rewrite record_positions_notin.
    + rewrite lookup_insert_eq. f_equal. lia.
    + intros id' Hid' Heq. apply Ha. rewrite <- Heq.
      apply list_elem_of_fmap. eauto.
  - rewrite (IH _ _ i id Hnd Hi). f_equal. lia.
Qed.

Lemma record_positions_is_Some l nm : forall k m,
  nm ∈ (id_name <$> l) -> is_Some (record_positions k l m !! nm).
Proof.
  induction l as [|a l IH]; intros k m Hin; simpl in *.
  - by apply elem_of_nil in Hin.
  - destruct (decide (nm ∈ (id_name <$> l))) as [Hl|Hl]; [by apply IH|].
    apply elem_of_cons in Hin as [->|]; [|done].
    rewrite record_positions_notin.
    + rewrite lookup_insert_eq. eauto.
    + intros id Hid Heq. apply Hl. rewrite <- Heq.
      apply list_elem_of_fmap. eauto.
Qed.

Lemma record_positions_None l nm : forall k,
  nm ∉ (id_name <$> l) -> record_positions k l ∅ !! nm = None.
Proof.
  intros k Hn. rewrite record_positions_notin; [done|].
  intros id Hid Heq. apply Hn. rewrite <- Heq. apply list_elem_of_fmap. eauto.
Qed.

Lemma build_reorder_map_fatal domain_pos axes : forall k m,
  (exists id, id ∈ axes /\ domain_pos !! id_name id = None) ->
  build_reorder_map domain_pos k axes m = Fatal reorder_error.
Proof.
  induction axes as [|a axes IH]; intros k m (id & Hin & Hnone); simpl.
  - by apply elem_of_nil in Hin.
  - destruct (domain_pos !! id_name a) eqn:Ea; [|done].
    apply IH. apply elem_of_cons in Hin as [->|Hin]; [congruence|eauto].
Qed.

Lemma build_reorder_map_ok domain_pos axes : forall k m,
  (forall id, id ∈ axes -> is_Some (domain_pos !! id_name id)) ->
  exists m', build_reorder_map domain_pos k axes m = Ok m' /\
    (forall i id, axes !! i = Some id ->
       m' !! (k + i)%nat = Z.of_nat <$> domain_pos !! id_name id) /\
    (forall j, (j < k \/ k + length axes <= j)%nat -> m' !! j = m !! j).
Proof.
  induction axes as [|a axes IH]; intros k m Hall; simpl.
  - exists m. split; [done|]. split; [|done].
    intros i id H. by rewrite lookup_nil in H.
  - destruct (Hall a) as [new_i Ha]; [apply elem_of_cons; auto|]. rewrite Ha.
    destruct (IH (S k) (<[k:=Z.of_nat new_i]> m)) as (m' & -> & Hin & Hout).
    { intros id Hid. apply Hall, elem_of_cons; auto. }
    exists m'. split; [done|]. split.
    + intros [|i] id Hi; simpl in Hi.
      * injection Hi as <-. rewrite Hout by lia.
        rewrite Nat.add_0_r, lookup_insert_eq, Ha. done.
      * rewrite <- (Hin i id Hi). f_equal. lia.
    + intros j Hj. rewrite Hout by lia. apply lookup_insert_ne. lia.
Qed.

Section ReorderMap.

Variable std_sort :
  (IterDomain -> IterDomain -> bool) -> list IterDomain -> list IterDomain.
Variable d : list IterDomain.
Hypothesis Hdistinct : distinct_axes d.
Hypothesis Hperm : std_sort id_lt d ≡ₚ d.

Lemma sorted_reorder_map_spec :
  exists m, sorted_reorder_map std_sort d = Ok m /\
    (forall old id, d !! old = Some id ->
       exists new, m !! old = Some (Z.of_nat new) /\ std_sort id_lt d !! new = Some id) /\
    (forall old, (length d <= old)%nat -> m !! old = None).
Proof.
  unfold sorted_reorder_map.
  destruct (build_reorder_map_ok (record_positions 0 (std_sort id_lt d) ∅) d 0%nat ∅)
    as (m & Hm & Hin & Hout).
  { intros id Hid. apply record_positions_is_Some.
    apply list_elem_of_fmap. exists id. split; [done|]. by rewrite Hperm. }
  exists m. split; [done|]. split.
  - intros old id Hold.
    assert (id ∈ std_sort id_lt d) as Hs.
    { rewrite Hperm. by eapply list_elem_of_lookup_2. }
    apply list_elem_of_lookup in Hs as [new Hnew]. exists new. split; [|done].
    rewrite <- (Nat.add_0_l old), (Hin old id Hold).
    rewrite (record_positions_lookup _ 0%nat ∅ new id); [done| |done].
    by apply (distinct_axes_perm d).
  - intros old Hold. rewrite Hout by lia. done.
Qed.

End ReorderMap.

(** ** Reordering with a full map *)

Lemma wrap_pos_nonneg n (k : nat) : wrap_pos n (Z.of_nat k) = Z.of_nat k.
Proof. unfold wrap_pos. destruct (Z.ltb_spec (Z.of_nat k) 0); [lia|done]. Qed.

Lemma fill_positions_known (g : nat -> option nat) news left olds :
  Forall2 (fun new old => g new = Some old) news olds ->
  fill_positions (g <$> news) left = olds.
Proof.
  induction 1 as [|new old news olds Hg _ IH]; [done|].
  rewrite fmap_cons. simpl. by rewrite Hg, IH.
Qed.

Lemma omap_lookup_all (d : list IterDomain) olds ids :
  Forall2 (fun old id => d !! old = Some id) olds ids ->
  omap (fun old => d !! old) olds = ids.
Proof.
  induction 1 as [|old id olds ids Hd _ IH]; [done|].
  change (omap (fun old => d !! old) (old :: olds))
    with (match d !! old with
          | Some x => x :: omap (fun old => d !! old) olds
          | None => omap (fun old => d !! old) olds
          end).
  by rewrite Hd, IH.
Qed.

Section ReorderFull.

Variables d sd : list IterDomain.
Variable m : gmap nat Z.
Hypothesis Hdistinct : distinct_axes d.
Hypothesis Hperm : sd ≡ₚ d.
Hypothesis Hmap : forall old id, d !! old = Some id ->
  exists new, m !! old = Some (Z.of_nat new) /\ sd !! new = Some id.
Hypothesis Hout : forall old, (length d <= old)%nat -> m !! old = None.

Lemma full_map_entry old z :
  m !! old = Some z ->
  exists new id, z = Z.of_nat new /\ d !! old = Some id /\ sd !! new = Some id.
Proof.
  intros Hz. destruct (d !! old) as [id|] eqn:Hd.
  - destruct (Hmap old id Hd) as (new & Hn & Hs). exists new, id.
    rewrite Hz in Hn. injection Hn as ->. done.
  - apply lookup_ge_None in Hd. rewrite Hout in Hz; done.
Qed.

Lemma full_map_normalized old new :
  (old, new) ∈ normalizeOld2New (length d) m <->
  exists id, d !! old = Some id /\ sd !! new = Some id.
Proof.
  unfold normalizeOld2New. rewrite list_elem_of_fmap. split.
  - intros ([o z] & [= -> ->] & Hin). simpl.
    apply elem_of_map_to_list in Hin.
    destruct (full_map_entry _ _ Hin) as (new & id & -> & Hd & Hs).
    exists id. by rewrite wrap_pos_nonneg, Nat2Z.id.
  - intros (id & Hd & Hs). destruct (Hmap old id Hd) as (new' & Hm & Hs').
    assert (new' = new) as ->.
    { eapply (distinct_axes_name_inj sd); eauto. by apply (distinct_axes_perm d). }
    exists (old, Z.of_nat new). simpl.
    rewrite wrap_pos_nonneg, Nat2Z.id. split; [done|].
    by apply elem_of_map_to_list.
Qed.

Lemma full_map_new_positions_NoDup : NoDup (normalizeOld2New (length d) m).*2.
Proof.
  apply NoDup_fmap_2_strong.
  - intros [o1 n1] [o2 n2] H1 H2 Heq. simpl in Heq. subst n2.
    apply full_map_normalized in H1 as (id1 & Hd1 & Hs1).
    apply full_map_normalized in H2 as (id2 & Hd2 & Hs2).
    assert (id1 = id2) as -> by congruence.
    f_equal. eapply (distinct_axes_name_inj d); eauto.
  - unfold normalizeOld2New. apply NoDup_fmap_2_strong; [|apply NoDup_map_to_list].
    intros [o1 z1] [o2 z2] H1 H2 [= Ho _]. simpl in Ho. subst o2.
    apply elem_of_map_to_list in H1, H2. congruence.
Qed.

Lemma full_map_valid : valid_old2new (length d) m = true.
Proof.
  unfold valid_old2new. apply andb_true_iff. split.
  - apply forallb_forall. intros [old z] Hin. simpl.
    apply list_elem_of_In, elem_of_map_to_list in Hin.
    destruct (full_map_entry _ _ Hin) as (new & id & -> & Hd & Hs).
    apply lookup_lt_Some in Hd, Hs. rewrite Hperm in Hs.
    rewrite wrap_pos_nonneg, bool_decide_eq_true_2 by done. simpl.
    apply andb_true_iff. split; [apply Z.leb_le|apply Z.ltb_lt]; lia.
  - apply bool_decide_eq_true_2, full_map_new_positions_NoDup.
Qed.

Lemma reorder_domain_full : reorder_domain m d = Ok sd.
Proof.
  unfold reorder_domain. rewrite full_map_valid. f_equal.
  unfold new2old.
  set (inv := list_to_map (prod_swap <$> normalizeOld2New (length d) m) : gmap nat nat).
  assert (forall new id, sd !! new = Some id ->
            exists old, inv !! new = Some old /\ d !! old = Some id) as Hinv.
  { intros new id Hs.
    assert (id ∈ d) as Hid by (rewrite <- Hperm; by eapply list_elem_of_lookup_2).
    apply list_elem_of_lookup in Hid as [old Hd]. exists old. split; [|done].
    apply elem_of_list_to_map.
    - assert ((prod_swap <$> normalizeOld2New (length d) m).*1 =
              (normalizeOld2New (length d) m).*2) as ->.
      { rewrite <- list_fmap_compose. apply list_fmap_ext. by intros ? []. }
      apply full_map_new_positions_NoDup.
    - apply list_elem_of_fmap. exists (old, new). split; [done|].
      apply full_map_normalized. eauto. }
  assert (exists olds,
            Forall2 (fun new old => inv !! new = Some old) (seq 0 (length d)) olds /\
            Forall2 (fun old id => d !! old = Some id) olds sd) as (olds & H1 & H2).
  { assert (length d = length sd) as -> by (by rewrite Hperm). clear -Hinv.
    assert (forall k l, (forall i id, l !! i = Some id -> sd !! (k + i)%nat = Some id) ->
              exists olds,
                Forall2 (fun new old => inv !! new = Some old) (seq k (length l)) olds /\
                Forall2 (fun old id => d !! old = Some id) olds l) as Hgen.
    { intros k l. revert k. induction l as [|a l IH]; intros k Hl; simpl.
      - exists []. split; constructor.
      - destruct (Hinv k a) as (old & Ho & Hd).
        { rewrite <- (Nat.add_0_r k). by apply Hl. }
        destruct (IH (S k)) as (olds & H1 & H2).
        { intros i id Hi. rewrite Nat.add_succ_l, <- Nat.add_succ_r. by apply Hl. }
        exists (old :: olds). split; by constructor. }
    apply (Hgen 0%nat sd). by intros i id. }
  rewrite (fill_positions_known _ _ _ olds H1).
  by apply omap_lookup_all.
Qed.

End ReorderFull.

(** ** Sorting procedures that keep the contract *)

Lemma id_lt_false a b : id_lt b a = false <-> idPos a <= idPos b.
Proof. unfold id_lt. apply Z.ltb_ge. Qed.

Lemma insert_sorted_perm lt x l : insert_sorted lt x l ≡ₚ x :: l.
Proof.
  induction l as [|y l IH]; simpl; [done|].
  destruct (lt y x); [|done]. rewrite IH. apply Permutation_swap.
Qed.

Lemma insert_sorted_sorted x l :
  StronglySorted (fun a b => id_lt b a = false) l ->
  StronglySorted (fun a b => id_lt b a = false) (insert_sorted id_lt x l).
Proof.
  induction 1 as [|y l Hs IH Hy]; simpl.
  - repeat constructor.
  - destruct (id_lt y x) eqn:E.
    + constructor; [done|]. rewrite insert_sorted_perm.
      constructor; [|done]. apply id_lt_false.
      unfold id_lt in E. apply Z.ltb_lt in E. lia.
    + constructor; [by constructor|]. constructor; [done|].
      eapply Forall_impl; [exact Hy|]. simpl. intros z Hz.
      apply id_lt_false. apply id_lt_false in E, Hz. lia.
Qed.

Lemma insertion_sort_contract : sort_contract insertion_sort.
Proof.
  split; intros l; induction l as [|x l IH]; simpl; try constructor.
  - by rewrite insert_sorted_perm, IH.
  - by apply insert_sorted_sorted.
Qed.

Lemma lib_merge_sort_contract : sort_contract lib_merge_sort.
Proof.
  split; intros l.
  - apply merge_sort_Permutation.
  - apply StronglySorted_merge_sort.
    + intros a b c. rewrite !id_lt_false. lia.
    + intros a b. rewrite !id_lt_false. lia.
Qed.

(** The contract leaves the order of equal axes open: the merge sort
    moves the last of three axes of one class to the front. *)
Lemma sort_contract_leaves_ties_open :
  sort_contract lib_merge_sort /\
  Forall (fun id => class_of id = IterationSymbolicExtent) ex_tied_domain /\
  id_name <$> lib_merge_sort id_lt ex_tied_domain = [2; 0; 1]%nat.
Proof.
  split; [apply lib_merge_sort_contract|]. split; [|by vm_compute].
  repeat constructor.
Qed.

Lemma StronglySorted_lookup_lt {A} (R : A -> A -> Prop) l i j x y :
  StronglySorted R l -> l !! i = Some x -> l !! j = Some y -> (i < j)%nat -> R x y.
Proof.
  intros Hs. revert i j. induction Hs as [|a l Hs IH Ha]; intros i j Hi Hj Hlt.
  - by rewrite lookup_nil in Hi.
  - destruct j as [|j]; [lia|]. simpl in Hj. destruct i as [|i]; simpl in Hi.
    + injection Hi as ->. rewrite Forall_forall in Ha.
      apply Ha. by eapply list_elem_of_lookup_2.
    + apply (IH i j); [done|done|lia].
Qed.

(** ** The key of an axis is the key of its class *)

Lemma idPos_class_key id : idPos id = class_key (class_of id).
Proof.
  unfold idPos, class_of, isImplicitBroadcast.
  destruct (isReduction id), (isUnrollOrVectorize (getParallelType id)),
    (isConstScalar (extent id)), (ptype_eqb (getParallelType id) Unswitch),
    (isThread id), (isBroadcast id), (isBlockDim id), (isThreadDim id);
    reflexivity.
Qed.

Lemma idPos_never_zero id : idPos id <> 0.
Proof. rewrite idPos_class_key. destruct (class_of id); discriminate. Qed.

Lemma canonical_rank_key c c' :
  (canonical_rank c < canonical_rank c')%nat <-> class_key c' < class_key c.
Proof. destruct c, c'; vm_compute; split; (discriminate || lia || done). Qed.

(** ** [reorderToCanonical] installs the sorted domain *)

Lemma reorderToCanonical_sorted std_sort (s : Sched) :
  distinct_axes (tv_domain (reduction_tv s)) ->
  std_sort id_lt (tv_domain (reduction_tv s)) ≡ₚ tv_domain (reduction_tv s) ->
  exists m,
    sorted_reorder_map std_sort (tv_domain (reduction_tv s)) = Ok m /\
    reorderToCanonical std_sort s =
      (mkSched (mkTensorView (std_sort id_lt (tv_domain (reduction_tv s)))
                  (tv_log (reduction_tv s) ++ [OpReorder (map_to_list m)]))
               (next_name s), Ok tt).
Proof.
  intros Hd Hp.
  destruct (sorted_reorder_map_spec std_sort _ Hd Hp) as (m & Hm & Hin & Hout).
  exists m. split; [done|].
  unfold reorderToCanonical, bind, get, lift, reorder, tv_reorder. rewrite Hm.
  by rewrite (reorder_domain_full _ (std_sort id_lt (tv_domain (reduction_tv s))) m Hd Hp Hin Hout).
Qed.

(** ** Claims on [sortAndRFactor] *)

(** C1 (amended).  For every node with distinct axes and every sorting
    procedure that keeps the contract of [std::sort], the reorder of
    [sortAndRFactor] succeeds, and whenever the class of an axis [a]
    comes before the class of an axis [b] in the order that [idPos]
    realises (the list of section 4.1 with its last four classes in the
    opposite order: iteration+symbolic, iteration+constant,
    iteration+thread, iteration+block), [a] ends at a strictly more-inner
    position than [b], whatever the initial order. *)
Theorem canonical_order_respected std_sort (s : Sched) :
  sort_contract std_sort ->
  distinct_axes (tv_domain (reduction_tv s)) ->
  exists s',
    reorderToCanonical std_sort s = (s', Ok tt) /\
    forall pa pb a b,
      tv_domain (reduction_tv s') !! pa = Some a ->
      tv_domain (reduction_tv s') !! pb = Some b ->
      (canonical_rank (class_of a) < canonical_rank (class_of b))%nat ->
      more_inner pa pb.
Proof.
  intros [Hperm Hsorted] Hd.
  destruct (reorderToCanonical_sorted std_sort s Hd (Hperm _)) as (m & _ & ->).
  eexists. split; [reflexivity|]. simpl.
  intros pa pb a b Ha Hb Hrank. unfold more_inner.
  apply canonical_rank_key in Hrank. rewrite <- !idPos_class_key in Hrank.
  destruct (decide (pb < pa)%nat) as [|Hge]; [done|]. exfalso.
  destruct (decide (pa = pb)) as [->|Hne].
  - rewrite Ha in Hb. injection Hb as ->. lia.
  - assert (id_lt b a = false) as Hab.
    { eapply (StronglySorted_lookup_lt _ _ pa pb a b (Hsorted _)); [done|done|lia]. }
    apply id_lt_false in Hab. lia.
Qed.

Lemma canonical_order_respected_witness :
  exists s',
    reorderToCanonical insertion_sort ex_block_node = (s', Ok tt) /\
    forall pa pb a b,
      tv_domain (reduction_tv s') !! pa = Some a ->
      tv_domain (reduction_tv s') !! pb = Some b ->
      (canonical_rank (class_of a) < canonical_rank (class_of b))%nat ->
      more_inner pa pb.
Proof.
  apply (canonical_order_respected insertion_sort ex_block_node).
  - exact insertion_sort_contract.
  - unfold distinct_axes. by_evaluation.
Defined.

(** C1, as stated, fails: the block-parallel iteration axis [ex_block_axis]
    is in a class listed before the class of the serial symbolic
    iteration axis [ex_symbolic_axis], yet the reorder puts it at
    position 0, the outermost, and the other axis at position 1. *)
Lemma block_axis_sorted_outermost :
  (spec_rank (class_of ex_block_axis) < spec_rank (class_of ex_symbolic_axis))%nat /\
  (exists s',
     reorderToCanonical insertion_sort ex_block_node = (s', Ok tt) /\
     tv_domain (reduction_tv s') !! 0%nat = Some ex_block_axis /\
     tv_domain (reduction_tv s') !! 1%nat = Some ex_symbolic_axis) /\
  ~ more_inner 0 1 /\
  ~ ordering_as_specified.
Proof.
  assert (distinct_axes (tv_domain (reduction_tv ex_block_node))) as Hd.
  { unfold distinct_axes. by_evaluation. }
  assert (exists s',
     reorderToCanonical insertion_sort ex_block_node = (s', Ok tt) /\
     tv_domain (reduction_tv s') !! 0%nat = Some ex_block_axis /\
     tv_domain (reduction_tv s') !! 1%nat = Some ex_symbolic_axis) as Hrun.
  { eexists. split; [by vm_compute|]. split; reflexivity. }
  split; [vm_compute; lia|]. split; [exact Hrun|].
  split; [unfold more_inner; lia|].
  intros Hspec. destruct Hrun as (s' & Hrun & H0 & H1).
  assert (more_inner 0 1) as Hin.
  { apply (Hspec insertion_sort ex_block_node s' 0%nat 1%nat ex_block_axis ex_symbolic_axis);
      try done.
    - exact insertion_sort_contract.
    - vm_compute; lia. }
  unfold more_inner in Hin. lia.
Qed.

(** C2.  For every node whose axes are distinct objects, the reorder of
    [sortAndRFactor] is a bijection: when the sorted copy is a
    rearrangement of the domain, every old position is mapped to one new
    position inside the domain, where its axis is found afterwards; every
    new position is the image of exactly one old position; nothing
    outside the domain is mapped; the axes after the reorder are the axes
    before it.  And when an old axis is not found in the sorted copy,
    [sortAndRFactor] stops with the fatal diagnostic, the node
    untouched. *)
Theorem reorder_is_bijection std_sort rfactorHelper (s : Sched) :
  distinct_axes (tv_domain (reduction_tv s)) ->
  (std_sort id_lt (tv_domain (reduction_tv s)) ≡ₚ tv_domain (reduction_tv s) ->
   exists m s',
     sorted_reorder_map std_sort (tv_domain (reduction_tv s)) = Ok m /\
     reorderToCanonical std_sort s = (s', Ok tt) /\
     (forall old, (old < nDims (reduction_tv s))%nat ->
        exists new, (new < nDims (reduction_tv s))%nat /\
          m !! old = Some (Z.of_nat new) /\
          tv_domain (reduction_tv s') !! new = tv_domain (reduction_tv s) !! old) /\
     (forall new, (new < nDims (reduction_tv s))%nat ->
        exists old, (old < nDims (reduction_tv s))%nat /\
          m !! old = Some (Z.of_nat new) /\
          forall old', m !! old' = Some (Z.of_nat new) -> old' = old) /\
     (forall old, (nDims (reduction_tv s) <= old)%nat -> m !! old = None) /\
     tv_domain (reduction_tv s') ≡ₚ tv_domain (reduction_tv s)) /\
  ((exists id, id ∈ tv_domain (reduction_tv s) /\
      id_name id ∉ (id_name <$> std_sort id_lt (tv_domain (reduction_tv s)))) ->
   sortAndRFactor std_sort rfactorHelper s = (s, Fatal reorder_error)).
Proof.
  intros Hd. unfold nDims. set (d := tv_domain (reduction_tv s)) in *. split.
  - intros Hp.
    destruct (reorderToCanonical_sorted std_sort s Hd Hp) as (m & Hm & Hrun).
    destruct (sorted_reorder_map_spec std_sort d Hd Hp) as (m' & Hm' & Hin & Hout).
    fold d in Hm, Hrun. rewrite Hm in Hm'. injection Hm' as <-.
    exists m. eexists. split; [done|]. split; [exact Hrun|]. simpl.
    assert (distinct_axes (std_sort id_lt d)) as Hsd by (by apply (distinct_axes_perm d)).
    repeat split.
    + intros old Hold. destruct (lookup_lt_is_Some_2 d old Hold) as [id Hid].
      destruct (Hin old id Hid) as (new & Hnew & Hs). exists new.
      split; [|by rewrite Hid]. apply lookup_lt_Some in Hs. by rewrite Hp in Hs.
    + intros new Hnew. rewrite <- Hp in Hnew.
      destruct (lookup_lt_is_Some_2 _ new Hnew) as [id Hs].
      assert (id ∈ d) as Hid by (rewrite <- Hp; by eapply list_elem_of_lookup_2).
      apply list_elem_of_lookup in Hid as [old Hid]. exists old.
      split; [by eapply lookup_lt_Some|].
      destruct (Hin old id Hid) as (new' & Hm' & Hs').
      assert (new' = new) as -> by (eapply (distinct_axes_name_inj _ _ _ id id Hsd); eauto).
      split; [done|]. intros old' Hold'.
      destruct (full_map_entry d _ m Hin Hout old' _ Hold') as (n2 & id2 & Hz & Hd2 & Hs2).
      apply Nat2Z.inj in Hz. subst n2.
      assert (id2 = id) as -> by congruence.
      eapply (distinct_axes_name_inj d); eauto.
    + exact Hout.
    + exact Hp.
  - intros (id & Hid & Hname).
    unfold sortAndRFactor, reorderToCanonical, bind, get, lift, sorted_reorder_map.
    fold d. rewrite build_reorder_map_fatal; [done|].
    exists id. split; [done|]. by apply record_positions_None.
Qed.

Lemma reorder_is_bijection_witness :
  (exists m s',
     sorted_reorder_map insertion_sort ex_scheduled_domain = Ok m /\
     reorderToCanonical insertion_sort ex_scheduled_node = (s', Ok tt) /\
     (forall old, (old < 4)%nat ->
        exists new, (new < 4)%nat /\ m !! old = Some (Z.of_nat new) /\
          tv_domain (reduction_tv s') !! new = ex_scheduled_domain !! old) /\
     (forall new, (new < 4)%nat ->
        exists old, (old < 4)%nat /\ m !! old = Some (Z.of_nat new) /\
          forall old', m !! old' = Some (Z.of_nat new) -> old' = old) /\
     (forall old, (4 <= old)%nat -> m !! old = None) /\
     tv_domain (reduction_tv s') ≡ₚ ex_scheduled_domain) /\
  sortAndRFactor lossy_sort rfactorHelper_model ex_scheduled_node =
    (ex_scheduled_node, Fatal reorder_error).
Proof.
  assert (distinct_axes (tv_domain (reduction_tv ex_scheduled_node))) as Hd.
  { unfold distinct_axes. by_evaluation. }
  split.
  - apply (proj1 (reorder_is_bijection insertion_sort rfactorHelper_model
                    ex_scheduled_node Hd)).
    apply insertion_sort_contract.
  - apply (proj2 (reorder_is_bijection lossy_sort rfactorHelper_model
                    ex_scheduled_node Hd)).
    exists (iter_axis_of 0 (NamedScalar "i0") BIDx). split.
    + by_evaluation.
    + by_evaluation.
Defined.

(** C3.  After the reorder, [sortAndRFactor] stages exactly the positions
    of the reduction axes that are not thread-parallel, without the
    unswitched axes of extent one when every reduction axis of the node
    is such a candidate, and with them otherwise; no position is staged
    twice. *)
Theorem staged_axes_exact std_sort rfactorHelper (s s1 : Sched) :
  reorderToCanonical std_sort s = (s1, Ok tt) ->
  sortAndRFactor std_sort rfactorHelper s =
    rfactorHelper (staged_axes (tv_domain (reduction_tv s1))) s1 /\
  NoDup (staged_axes (tv_domain (reduction_tv s1))) /\
  forall i,
    i ∈ staged_axes (tv_domain (reduction_tv s1)) <->
    exists id,
      tv_domain (reduction_tv s1) !! i = Some id /\
      isReduction id = true /\ isThread id = false /\
      (every_reduction_qualifies (tv_domain (reduction_tv s1)) = true ->
       unswitched_extent_one id = false).
Proof.
  intros Hrun. split; [|split].
  - unfold sortAndRFactor, bind at 1. rewrite Hrun. reflexivity.
  - rewrite staged_axes_cases. destruct (every_reduction_qualifies _);
      apply NoDup_positions_where.
  - intros i. rewrite staged_axes_cases.
    destruct (every_reduction_qualifies _);
      rewrite elem_of_positions_where; unfold rfactor_candidate; split.
    + intros (j & id & -> & Hl & Hf). exists id.
      apply andb_true_iff in Hf as [[Hr Ht]%andb_true_iff Hu].
      apply negb_true_iff in Ht, Hu. done.
    + intros (id & Hl & Hr & Ht & Hu). exists i, id.
      rewrite Hr, Ht, Hu; done.
    + intros (j & id & -> & Hl & Hf). exists id.
      apply andb_true_iff in Hf as [Hr Ht]. apply negb_true_iff in Ht. done.
    + intros (id & Hl & Hr & Ht & Hu). exists i, id. rewrite Hr, Ht. done.
Qed.

Lemma staged_axes_exact_witness :
  let s1 := (reorderToCanonical insertion_sort ex_scheduled_node).1 in
  sortAndRFactor insertion_sort rfactorHelper_model ex_scheduled_node =
    rfactorHelper_model (staged_axes (tv_domain (reduction_tv s1))) s1 /\
  NoDup (staged_axes (tv_domain (reduction_tv s1))) /\
  forall i,
    i ∈ staged_axes (tv_domain (reduction_tv s1)) <->
    exists id,
      tv_domain (reduction_tv s1) !! i = Some id /\
      isReduction id = true /\ isThread id = false /\
      (every_reduction_qualifies (tv_domain (reduction_tv s1)) = true ->
       unswitched_extent_one id = false).
Proof.
  apply (staged_axes_exact insertion_sort rfactorHelper_model ex_scheduled_node).
  vm_compute. reflexivity.
Defined.

(** ** Running the scheduling monad *)

Lemma bind_ok {S A B} (m : M S A) (k : A -> M S B) s s1 a :
  m s = (s1, Ok a) -> bind m k s = k a s1.
Proof. unfold bind. by intros ->. Qed.

Lemma bind_fatal {S A B} (m : M S A) (k : A -> M S B) s s1 msg :
  m s = (s1, Fatal msg) -> bind m k s = (s1, Fatal msg).
Proof. unfold bind. by intros ->. Qed.

Lemma assert_true {S} msg (s : S) : TORCH_INTERNAL_ASSERT true msg s = (s, Ok tt).
Proof. done. Qed.

Lemma assert_false {S} msg (s : S) :
  TORCH_INTERNAL_ASSERT false msg s = (s, Fatal msg).
Proof. done. Qed.

(** ** The checks of [scheduleReductionTV] *)

Lemma checkPreconditions_cases rparams has_iter_axis s :
  (preconditions_violated rparams has_iter_axis s /\
   exists msg,
     msg ∈ [too_few_dims_error; vectorize_iter_error; vectorize_reduction_error;
            multiple_reds_error; unroll_iter_error] /\
     checkPreconditions rparams has_iter_axis s = (s, Fatal msg)) \/
  (~ preconditions_violated rparams has_iter_axis s /\
   checkPreconditions rparams has_iter_axis s = (s, Ok tt)).
Proof.
  unfold preconditions_violated, checkPreconditions, bind, get.
  destruct (decide (Nat.max iter_axis (Nat.max (outer_reduce_axis rparams)
              (inner_reduce_axis rparams has_iter_axis)) < nDims (reduction_tv s))%nat)
    as [Hn|Hn].
  2: { left. split; [left; lia|]. rewrite bool_decide_eq_false_2 by done.
       exists too_few_dims_error. split; [set_solver|done]. }
  rewrite bool_decide_eq_true_2 by done. simpl.
  destruct (fastest_dim rparams) eqn:Ef, (vectorize_iter_dom rparams) eqn:Evi; simpl;
    try (left; split; [tauto|];
         exists vectorize_iter_error; split; [set_solver|done]);
    destruct (vectorize_inner_reduction rparams) eqn:Evr; simpl;
    try (left; split; [tauto|];
         exists vectorize_reduction_error; split; [set_solver|done]);
    destruct (multiple_reds_per_blk rparams) eqn:Em, has_iter_axis eqn:Eh; simpl;
    try (left; split; [tauto|];
         exists multiple_reds_error; split; [set_solver|done]);
    destruct (Z.ltb_spec 1 (unroll_factor_iter_dom rparams)); simpl;
    try (left; split; [tauto|];
         exists unroll_iter_error; split; [set_solver|done]);
    right; (split; [|done]); intros [?|[[? ?]|[[? ?]|[[? ?]|[? ?]]]]];
    (congruence || lia).
Qed.

(** C4.  Whenever one of the five preconditions is violated,
    [scheduleReductionTV] stops with one of the five diagnostics and the
    node is as it was: no axis has been split and no parallel assignment
    made. *)
Theorem preconditions_fatal std_sort rfactorHelper rparams has_iter_axis (s : Sched) :
  preconditions_violated rparams has_iter_axis s ->
  exists msg,
    msg ∈ [too_few_dims_error; vectorize_iter_error; vectorize_reduction_error;
           multiple_reds_error; unroll_iter_error] /\
    scheduleReductionTV std_sort rfactorHelper rparams has_iter_axis s =
      (s, Fatal msg).
Proof.
  intros Hv.
  destruct (checkPreconditions_cases rparams has_iter_axis s)
    as [(_ & msg & Hin & Hrun)|[Hn _]]; [|done].
  exists msg. split; [done|].
  unfold scheduleReductionTV, scheduleLoopNest.
  by rewrite (bind_fatal _ _ s s msg) by (by rewrite (bind_fatal _ _ s s msg)).
Qed.

Lemma preconditions_fatal_witness :
  exists msg,
    msg ∈ [too_few_dims_error; vectorize_iter_error; vectorize_reduction_error;
           multiple_reds_error; unroll_iter_error] /\
    scheduleReductionTV insertion_sort rfactorHelper_model rparams_scenario2 true
      ex_2d_node = (ex_2d_node, Fatal msg).
Proof.
  apply (preconditions_fatal insertion_sort rfactorHelper_model rparams_scenario2
           true ex_2d_node).
  right. right. left. split; reflexivity.
Defined.

(** ** Splitting and assigning inside a window of the domain *)

Lemma split_focus l1 mid l2 k axis id factor inner_split (s : Sched) :
  tv_domain (reduction_tv s) = l1 ++ mid ++ l2 ->
  axis = (length l1 + k)%nat ->
  mid !! k = Some id ->
  split axis factor inner_split s =
    (mkSched
       (mkTensorView
          (l1 ++ (take k mid ++
                  (split_id id factor inner_split (next_name s)).1 ::
                  (split_id id factor inner_split (next_name s)).2 ::
                  drop (S k) mid) ++ l2)
          (tv_log (reduction_tv s) ++ [OpSplit axis factor inner_split]))
       (S (S (next_name s))), Ok tt).
Proof.
  intros Hd -> Hk. unfold split. rewrite Hd.
  assert (k < length mid)%nat as Hlt by (by eapply lookup_lt_Some).
  rewrite lookup_app_r by lia.
  replace (length l1 + k - length l1)%nat with k by lia.
  rewrite lookup_app_l, Hk by done. simpl.
  do 3 f_equal.
  rewrite take_app_add, take_app_le by lia.
  replace (S (length l1 + k)) with (length l1 + S k)%nat by lia.
  rewrite drop_app_add, drop_app_le by lia.
  by rewrite <- !app_assoc.
Qed.

Lemma parallelize_focus l1 mid l2 k axis id p (s : Sched) :
  tv_domain (reduction_tv s) = l1 ++ mid ++ l2 ->
  axis = (length l1 + k)%nat ->
  mid !! k = Some id ->
  axis_parallelize axis p s =
    (mkSched
       (mkTensorView (l1 ++ <[k := parallelize p id]> mid ++ l2)
          (tv_log (reduction_tv s) ++ [OpParallelize axis p]))
       (next_name s), Ok tt).
Proof.
  intros Hd -> Hk. unfold axis_parallelize. rewrite Hd.
  assert (k < length mid)%nat as Hlt by (by eapply lookup_lt_Some).
  rewrite lookup_app_r by lia.
  replace (length l1 + k - length l1)%nat with k by lia.
  rewrite lookup_app_l, Hk by done.
  do 3 f_equal.
  rewrite insert_app_r_alt by lia.
  replace (length l1 + k - length l1)%nat with k by lia.
  by rewrite insert_app_l by done.
Qed.

Lemma bind_assoc {S A B C} (m : M S A) (f : A -> M S B) (g : B -> M S C) s :
  bind (bind m f) g s = bind m (fun a => bind (f a) g) s.
Proof. unfold bind. destruct (m s) as [s1 [a|msg]]; done. Qed.

(** One step of a run: the head of a chain of binds evaluates by [lem]. *)
Ltac run_step lem :=
  rewrite ?bind_assoc; erewrite bind_ok; [|lem]; cbv beta.
Ltac split_in l1 mid l2 k :=
  eapply (split_focus l1 mid l2 k); [reflexivity|simpl; lia|reflexivity].
Ltac split_at l1 l2 k :=
  eapply (split_focus l1 _ l2 k); [reflexivity|simpl; lia|reflexivity].
Ltac parallelize_in l1 mid l2 k :=
  eapply (parallelize_focus l1 mid l2 k); [reflexivity|simpl; lia|reflexivity].
Ltac parallelize_at l1 l2 k :=
  eapply (parallelize_focus l1 _ l2 k); [reflexivity|simpl; lia|reflexivity].

(** ** The narrowing of the factors *)

Lemma to_int_range z : INT_MIN <= to_int z <= INT_MAX.
Proof.
  unfold to_int, INT_MIN, INT_MAX.
  pose proof (Z.mod_pos_bound (z - -2147483648) (2 ^ 32)). lia.
Qed.

Lemma to_int_id z : INT_MIN <= z <= INT_MAX -> to_int z = z.
Proof.
  unfold to_int, INT_MIN, INT_MAX. intros Hz. rewrite Z.mod_small; lia.
Qed.

Lemma to_int_wraps z : to_int (z + 2 ^ 32) = to_int z.
Proof.
  unfold to_int. f_equal.
  replace (z + 2 ^ 32 - INT_MIN) with (z - INT_MIN + 1 * 2 ^ 32) by lia.
  by rewrite Z.mod_add.
Qed.

(** ** The outer-grid-persistence branch *)

Lemma scheduleInnerReduction_ogp rparams has_iter_axis l1 id l2 (s : Sched) :
  is_outer_grid_persistence rparams = true ->
  static_bdimy rparams = true ->
  tv_domain (reduction_tv s) = l1 ++ id :: l2 ->
  length l1 = inner_reduce_axis rparams has_iter_axis ->
  exists s',
    scheduleInnerReduction rparams has_iter_axis s = (s', Ok tt) /\
    tv_domain (reduction_tv s') = l1 ++ ogp_axes rparams id (next_name s) ++ l2 /\
    tv_log (reduction_tv s') =
      tv_log (reduction_tv s) ++ ogp_ops rparams (inner_reduce_axis rparams has_iter_axis).
Proof.
  intros Hogp Hstatic Hd Hlen.
  destruct s as [[d lg] n]. simpl in Hd. subst d. simpl.
  unfold scheduleInnerReduction, ogp_axes, ogp_ops. rewrite Hogp, Hstatic.
  rewrite <- Hlen.
  unfold inner_parallel_static, outer_unswitch.
  destruct (batches_per_block_inner_reduction rparams =?
            unroll_factor_inner_reduction rparams).
  - eexists. split.
    + run_step ltac:(apply assert_true).
      run_step ltac:(split_in l1 [id] l2 0%nat).
      run_step ltac:(parallelize_at l1 l2 1%nat).
      run_step ltac:(split_at l1 l2 0%nat).
      run_step ltac:(parallelize_at l1 l2 0%nat).
      run_step ltac:(split_at l1 l2 1%nat).
      parallelize_at l1 l2 1%nat.
    + simpl. split; [reflexivity|]. by rewrite <- !app_assoc.
  - eexists. split.
    + run_step ltac:(apply assert_true).
      run_step ltac:(split_in l1 [id] l2 0%nat).
      run_step ltac:(parallelize_at l1 l2 1%nat).
      run_step ltac:(split_at l1 l2 0%nat).
      run_step ltac:(parallelize_at l1 l2 0%nat).
      run_step ltac:(split_at l1 l2 1%nat).
      run_step ltac:(split_at l1 l2 2%nat).
      parallelize_at l1 l2 2%nat.
    + simpl. split; [reflexivity|]. by rewrite <- !app_assoc.
Qed.

(** ** What a run appends to the log *)













Ltac unfold_helpers :=
  unfold vectorize, inner_parallel, inner_parallel_static, inner_unswitch,
    inner_unroll, outer_parallel, outer_unswitch, outer_unroll, when.

(** ** The unswitch of the iteration axis *)

Ltac destruct_conditions :=
  repeat match goal with
         | |- context [if ?c then _ else _] => destruct c eqn:?
         end.





Lemma bind_ok_inv {S A B} (m : M S A) (k : A -> M S B) s s' b :
  bind m k s = (s', Ok b) ->
  exists s1 a, m s = (s1, Ok a) /\ k a s1 = (s', Ok b).
Proof.
  unfold bind. destruct (m s) as [s1 [a|msg]]; [eauto|discriminate].
Qed.










(** ** Moving the vectorized axis *)

Lemma not_vectorized_eqb id :
  not_vectorized id -> ptype_eqb (getParallelType id) Vectorize = false.
Proof. intros H. by apply bool_decide_eq_false_2. Qed.

Lemma vec_reorder_scan_app l1 l2 : forall i pos m,
  vec_reorder_scan i (l1 ++ l2) pos m =
    vec_reorder_scan (i + length l1) l2
      (vec_reorder_scan i l1 pos m).1 (vec_reorder_scan i l1 pos m).2.
Proof.
  induction l1 as [|a l1 IH]; intros i pos m; simpl.
  - by rewrite Nat.add_0_r.
  - replace (i + S (length l1))%nat with (S i + length l1)%nat by lia.
    destruct (ptype_eqb (getParallelType a) Vectorize); [apply IH|].
    destruct (0 <=? pos); apply IH.
Qed.

Lemma vec_reorder_scan_before l : forall i m,
  Forall not_vectorized l -> vec_reorder_scan i l (-1) m = (-1, m).
Proof.
  induction l as [|a l IH]; intros i m Hl; simpl; [done|].
  apply Forall_cons in Hl as [Ha Hl]. rewrite (not_vectorized_eqb a Ha).
  simpl. by apply IH.
Qed.

Lemma vec_reorder_scan_after l : forall i pos m,
  Forall not_vectorized l -> 0 <= pos ->
  (vec_reorder_scan i l pos m).1 = pos /\
  forall j, (vec_reorder_scan i l pos m).2 !! j =
    if decide (i <= j < i + length l)%nat then Some (Z.of_nat j - 1) else m !! j.
Proof.
  induction l as [|a l IH]; intros i pos m Hl Hpos; simpl.
  - split; [done|]. intros j. case_decide; [lia|done].
  - apply Forall_cons in Hl as [Ha Hl]. rewrite (not_vectorized_eqb a Ha).
    destruct (Z.leb_spec 0 pos); [|lia].
    destruct (IH (S i) pos (<[i:=Z.of_nat i - 1]> m) Hl Hpos) as [-> Hm].
    split; [done|]. intros j. rewrite Hm.
    repeat case_decide; try lia; try done.
    + assert (j = i) as -> by lia. by rewrite lookup_insert_eq.
    + apply lookup_insert_ne. lia.
Qed.

Section MoveVectorized.

Variables l1 l2 : list IterDomain.
Variable v : IterDomain.
Hypothesis Hv : getParallelType v = Vectorize.
Hypothesis Hl1 : Forall not_vectorized l1.
Hypothesis Hl2 : Forall not_vectorized l2.

Lemma vec_scan_result :
  exists m,
    vec_reorder_scan 0 (l1 ++ v :: l2) (-1) ∅ = (Z.of_nat (length l1), m) /\
    forall j, m !! j =
      if decide (j < length l1)%nat then None
      else if decide (j = length l1) then Some (-1)
      else if decide (j < length l1 + S (length l2))%nat
           then Some (Z.of_nat j - 1) else None.
Proof.
  rewrite vec_reorder_scan_app, vec_reorder_scan_before by done. simpl.
  rewrite Hv. simpl.
  destruct (vec_reorder_scan_after l2 (S (length l1)) (Z.of_nat (length l1))
              (<[length l1:=-1]> ∅) Hl2) as [Hpos Hm]; [lia|].
  destruct (vec_reorder_scan (S (length l1)) l2 (Z.of_nat (length l1))
              (<[length l1:=-1]> ∅)) as [pos' m'] eqn:E.
  simpl in *. subst pos'. exists m'.
  split; [done|]. intros j. rewrite Hm.
  repeat case_decide; try lia; try done.
  - rewrite lookup_insert_ne by lia. done.
  - subst j. by rewrite lookup_insert_eq.
  - rewrite lookup_insert_ne by lia. done.
Qed.

End MoveVectorized.
Lemma filter_app_keep_l {A} (P : A -> Prop) `{!forall x, Decision (P x)} (k1 k2 : list A) :
  Forall P k1 -> Forall (fun x => ~ P x) k2 -> filter P (k1 ++ k2) = k1.
Proof.
  intros H1 H2. rewrite filter_app.
  assert (filter P k1 = k1) as ->.
  { induction H1 as [|x k Hx _ IH]; [done|]. by rewrite filter_cons_True, IH. }
  assert (filter P k2 = []) as ->.
  { induction H2 as [|x k Hx _ IH]; [done|]. by rewrite filter_cons_False. }
  apply app_nil_r.
Qed.

Lemma fill_positions_free (g : nat -> option nat) news left rest :
  Forall (fun new => g new = None) news ->
  length news = length left ->
  fill_positions ((g <$> news) ++ rest) left = left ++ fill_positions rest [].
Proof.
  intros Hn. revert left. induction Hn as [|new news Hg _ IH]; intros left Hlen.
  - destruct left; [done|discriminate].
  - destruct left as [|x left]; [discriminate|].
    rewrite fmap_cons. simpl. rewrite Hg. f_equal. apply IH. by injection Hlen.
Qed.

Section MoveVectorizedReorder.

Variables l1 l2 : list IterDomain.
Variable v : IterDomain.
Variable m : gmap nat Z.
Hypothesis Hm : forall j, m !! j =
  if decide (j < length l1)%nat then None
  else if decide (j = length l1) then Some (-1)
  else if decide (j < length l1 + S (length l2))%nat
       then Some (Z.of_nat j - 1) else None.

Lemma moved_length : length (l1 ++ v :: l2) = (length l1 + S (length l2))%nat.
Proof. by rewrite length_app. Qed.

Lemma moved_normalized old new :
  (old, new) ∈ normalizeOld2New (length (l1 ++ v :: l2)) m <->
  (old = length l1 /\ new = (length l1 + length l2)%nat) \/
  ((length l1 < old < length l1 + S (length l2))%nat /\ new = (old - 1)%nat).
Proof.
  unfold normalizeOld2New. rewrite list_elem_of_fmap, moved_length. split.
  - intros ([o z] & [= -> ->] & Hin). simpl.
    apply elem_of_map_to_list in Hin. rewrite Hm in Hin.
    unfold wrap_pos. repeat case_decide; try discriminate; injection Hin as <-.
    + left. split; [done|]. destruct (Z.ltb_spec (-1) 0); lia.
    + right. split; [lia|]. destruct (Z.ltb_spec (Z.of_nat o - 1) 0); lia.
  - intros [[-> ->]|[Hold ->]].
    + exists (length l1, -1). split.
      * simpl. f_equal. unfold wrap_pos. destruct (Z.ltb_spec (-1) 0); lia.
      * apply elem_of_map_to_list. rewrite Hm. repeat case_decide; (lia || done).
    + exists (old, Z.of_nat old - 1). split.
      * simpl. f_equal. unfold wrap_pos.
        destruct (Z.ltb_spec (Z.of_nat old - 1) 0); lia.
      * apply elem_of_map_to_list. rewrite Hm. repeat case_decide; (lia || done).
Qed.

Lemma moved_new_positions_NoDup :
  NoDup (normalizeOld2New (length (l1 ++ v :: l2)) m).*2.
Proof.
  apply NoDup_fmap_2_strong.
  - intros [o1 n1] [o2 n2] H1 H2 Heq. simpl in Heq. subst n2.
    apply moved_normalized in H1, H2. f_equal. lia.
  - unfold normalizeOld2New. apply NoDup_fmap_2_strong; [|apply NoDup_map_to_list].
    intros [o1 z1] [o2 z2] H1 H2 [= Ho _]. simpl in Ho. subst o2.
    apply elem_of_map_to_list in H1, H2. congruence.
Qed.

Lemma moved_valid : valid_old2new (length (l1 ++ v :: l2)) m = true.
Proof.
  unfold valid_old2new. apply andb_true_iff. split.
  - apply forallb_forall. intros [old z] Hin. simpl.
    apply list_elem_of_In, elem_of_map_to_list in Hin. rewrite Hm in Hin.
    rewrite moved_length. unfold wrap_pos.
    repeat case_decide; try discriminate; injection Hin as <-.
    all: rewrite bool_decide_eq_true_2 by lia; simpl;
      repeat match goal with
             | |- context [?a <? 0] => destruct (Z.ltb_spec a 0)
             end;
      first [ lia
            | apply andb_true_iff; split; [apply Z.leb_le|apply Z.ltb_lt]; lia ].
  - apply bool_decide_eq_true_2, moved_new_positions_NoDup.
Qed.

Lemma moved_inverse new :
  (list_to_map (prod_swap <$> normalizeOld2New (length (l1 ++ v :: l2)) m)
     : gmap nat nat) !! new =
  if decide (new < length l1)%nat then None
  else if decide (new < length l1 + length l2)%nat then Some (S new)
  else if decide (new = length l1 + length l2)%nat then Some (length l1)
  else None.
Proof.
  assert ((prod_swap <$> normalizeOld2New (length (l1 ++ v :: l2)) m).*1 =
          (normalizeOld2New (length (l1 ++ v :: l2)) m).*2) as Hfst.
  { rewrite <- list_fmap_compose. apply list_fmap_ext. by intros ? []. }
  assert (forall old, (new, old) ∈ prod_swap <$> normalizeOld2New (length (l1 ++ v :: l2)) m
            <-> (old, new) ∈ normalizeOld2New (length (l1 ++ v :: l2)) m) as Hswap.
  { intros old. rewrite list_elem_of_fmap. split.
    - by intros ([o n'] & [= -> ->] & Hin).
    - intros Hin. by exists (old, new). }
  repeat case_decide.
  - apply not_elem_of_list_to_map_1. rewrite Hfst.
    intros ([o n'] & -> & Hin)%list_elem_of_fmap. simpl in *.
    apply moved_normalized in Hin. lia.
  - apply elem_of_list_to_map; [rewrite Hfst; apply moved_new_positions_NoDup|].
    apply Hswap, moved_normalized. right. lia.
  - apply elem_of_list_to_map; [rewrite Hfst; apply moved_new_positions_NoDup|].
    apply Hswap, moved_normalized. left. lia.
  - apply not_elem_of_list_to_map_1. rewrite Hfst.
    intros ([o n'] & -> & Hin)%list_elem_of_fmap. simpl in *.
    apply moved_normalized in Hin. lia.
Qed.

Lemma moved_positions_left :
  filter (fun old => m !! old = None) (seq 0 (length (l1 ++ v :: l2))) =
  seq 0 (length l1).
Proof.
  rewrite moved_length, seq_app. apply filter_app_keep_l.
  - apply Forall_forall. intros j Hj%elem_of_seq. rewrite Hm.
    case_decide; [done|lia].
  - apply Forall_forall. intros j Hj%elem_of_seq. rewrite Hm.
    repeat case_decide; (lia || done).
Qed.

Lemma moved_domain :
  reorder_domain m (l1 ++ v :: l2) = Ok (l1 ++ l2 ++ [v]).
Proof.
  unfold reorder_domain. rewrite moved_valid. f_equal.
  unfold new2old. rewrite moved_positions_left.
  rewrite moved_length at 1.
  rewrite seq_app, fmap_app, Nat.add_0_l.
  rewrite fill_positions_free.
  2: { apply Forall_forall. intros j Hj%elem_of_seq. rewrite moved_inverse.
       case_decide; [done|lia]. }
  2: { by rewrite !length_seq. }
  rewrite (fill_positions_known _ _ _ (seq (S (length l1)) (length l2) ++ [length l1])).
  2: { rewrite seq_S. apply Forall2_app.
       - apply Forall2_same_length_lookup_2.
         + by rewrite !length_seq.
         + intros i x y [-> Hi]%lookup_seq [-> _]%lookup_seq.
           rewrite moved_inverse. repeat case_decide; try lia. f_equal.
       - constructor; [|constructor]. rewrite moved_inverse.
         repeat case_decide; try lia. done. }
  rewrite !omap_app. f_equal; [|f_equal].
  - apply omap_lookup_all. apply Forall2_same_length_lookup_2.
    + by rewrite length_seq.
    + intros i x y [-> Hi]%lookup_seq Hy. simpl. by rewrite lookup_app_l.
  - apply omap_lookup_all. apply Forall2_same_length_lookup_2.
    + by rewrite length_seq.
    + intros i x y [-> Hi]%lookup_seq Hy.
      rewrite lookup_app_r by lia.
      replace (S (length l1) + i - length l1)%nat with (S i) by lia. done.
  - simpl. rewrite list_lookup_middle; done.
Qed.

End MoveVectorizedReorder.

Lemma moveVectorizedInnermost_none rf :
  Forall not_vectorized (tv_domain rf) ->
  moveVectorizedInnermost rf = Fatal vectorized_not_found_error.
Proof.
  intros H. unfold moveVectorizedInnermost.
  by rewrite vec_reorder_scan_before.
Qed.

Lemma moveVectorizedInnermost_moves rf l1 v l2 :
  tv_domain rf = l1 ++ v :: l2 ->
  getParallelType v = Vectorize ->
  Forall not_vectorized l1 -> Forall not_vectorized l2 ->
  exists m,
    moveVectorizedInnermost rf =
      Ok (mkTensorView (l1 ++ l2 ++ [v]) (tv_log rf ++ [OpReorder (map_to_list m)])).
Proof.
  intros Hd Hv H1 H2. unfold moveVectorizedInnermost. rewrite Hd.
  destruct (vec_scan_result l1 l2 v Hv H1 H2) as (m & -> & Hm).
  destruct (Z.eqb_spec (Z.of_nat (length l1)) (-1)); [lia|].
  exists m. unfold tv_reorder. rewrite Hd.
  by rewrite (moved_domain l1 l2 v m Hm).
Qed.

(** ** The driver: what the steps do to the axes of a node *)

Lemma domain_of_removeOutput o f tv : domain_of (removeOutput o f) tv = domain_of f tv.
Proof. done. Qed.

Lemma domain_of_removeOutputs outs : forall f tv,
  domain_of (foldl (fun f o => removeOutput o f) f outs) tv = domain_of f tv.
Proof. induction outs as [|o outs IH]; intros f tv; simpl; [done|]. by rewrite IH. Qed.

Lemma domain_of_inlineMost ip f tv : domain_of (inlineMost ip f) tv = domain_of f tv.
Proof.
  unfold domain_of, inlineMost. simpl. rewrite map_lookup_imap.
  by destruct (fusion_tvs f !! tv).
Qed.

Lemma domain_of_removeDummiesAndInline ip outs f tv :
  domain_of (removeDummiesAndInline ip outs f) tv = domain_of f tv.
Proof.
  unfold removeDummiesAndInline.
  by rewrite domain_of_inlineMost, domain_of_removeOutputs.
Qed.

Lemma fusion_exprs_removeDummiesAndInline ip outs f :
  fusion_exprs (removeDummiesAndInline ip outs f) = fusion_exprs f.
Proof.
  unfold removeDummiesAndInline, inlineMost. simpl. revert f.
  induction outs as [|o outs IH]; intros f; simpl; [done|]. by rewrite IH.
Qed.

Lemma domain_of_parallelizeAllLike ma ref pos sel types f tv :
  domain_of (parallelizeAllLike ma ref pos sel types f) tv =
    if bool_decide (sel = []) || bool_decide (tv ∈ sel)
    then imap (fun i id =>
                 match propagated_type ma f ref pos types tv i with
                 | Some p => parallelize p id
                 | None => id
                 end) (domain_of f tv)
    else domain_of f tv.
Proof.
  unfold domain_of, parallelizeAllLike. simpl. rewrite map_lookup_imap.
  destruct (fusion_tvs f !! tv) as [t|]; simpl.
  - by destruct (bool_decide (sel = []) || bool_decide (tv ∈ sel)).
  - by destruct (bool_decide (sel = []) || bool_decide (tv ∈ sel)).
Qed.

Lemma propagated_type_Some ma f ref pos types tv i p :
  propagated_type ma f ref pos types tv i = Some p ->
  p ∈ types /\
  exists k ref_id,
    ma f ref tv i = Some k /\ domain_of f ref !! k = Some ref_id /\
    getParallelType ref_id = p.
Proof.
  unfold propagated_type.
  destruct (ma f ref tv i) as [k|]; [|done].
  destruct (domain_of f ref !! k) as [ref_id|] eqn:Hk; [|done].
  destruct (_ <? _); simpl; [|done].
  case_bool_decide; [|done]. intros [= <-]. split; [done|]. eauto.
Qed.

Lemma isGridAllreduce_spec f tv :
  isGridAllreduce f tv = true <-> is_implicit_allreduce f tv.
Proof.
  unfold isGridAllreduce, is_implicit_allreduce.
  case_bool_decide as Hm; simpl; [|split; [done|by intros [? _]]].
  rewrite existsb_exists. split.
  - intros (e & He & Hb). split; [done|].
    apply list_elem_of_In, list_elem_of_filter in He as [Hty He].
    apply list_elem_of_filter in He as [Hin He].
    unfold broadcast_uses_parallel_type in Hb.
    destruct (head (expr_outputs e)) as [bcast_tv|] eqn:Hhd; [|done].
    apply existsb_exists in Hb as (bid & Hbid & Hb).
    apply andb_true_iff in Hb as [Hblk Hpt]. apply bool_decide_eq_true in Hpt.
    unfold reduction_parallel_types in Hpt.
    apply list_elem_of_fmap in Hpt as (id & Hid & Hf).
    apply list_elem_of_filter in Hf as [[Hr Hb'] Hf].
    exists (getParallelType bid), id, e, bcast_tv, bid.
    repeat split; try done. by apply list_elem_of_In.
  - intros [_ (pt & id & e & bcast_tv & bid & Hblk & Hid & Hr & Hpt & He & Hty & Hin
               & Hhd & Hbid & Hbpt)].
    exists e. split.
    + apply list_elem_of_In, list_elem_of_filter. split; [done|].
      apply list_elem_of_filter. done.
    + unfold broadcast_uses_parallel_type. rewrite Hhd.
      apply existsb_exists. exists bid. split; [by apply list_elem_of_In|].
      rewrite Hbpt, Hblk. simpl. apply bool_decide_eq_true.
      unfold reduction_parallel_types. apply list_elem_of_fmap.
      exists id. split; [done|]. apply list_elem_of_filter. rewrite Hpt. done.
Qed.

Lemma elem_of_allreduce_tvs_of reduction_tv reduction_tvs f tv :
  tv ∈ allreduce_tvs_of reduction_tv reduction_tvs f <->
  tv ∈ reduction_tvs /\ tv <> reduction_tv /\ is_implicit_allreduce f tv.
Proof.
  unfold allreduce_tvs_of. rewrite list_elem_of_filter, isGridAllreduce_spec.
  intuition congruence.
Qed.

Section DriverProps.

Variable propagateTransforms : nat -> Fusion -> Fusion.
Variable rfactorHelperOf : nat -> list nat -> Fusion -> Fusion.
Variable mapped_axis : Fusion -> nat -> nat -> nat -> option nat.
Variable getInputsOutputsWithInnerDim : Fusion -> nat -> list nat.
Variable inline_position : Fusion -> nat -> nat.
Variable rparams : ReductionParams.
Variables reduction_tv reference_tv : nat.
Variables reduction_tvs cached_inputs : list nat.
Variable cached_outputs : list (nat * nat).
Variable dummy_outputs : list nat.

Lemma general_types_spec p :
  p ∈ allParallelTypesExcept [Unroll; Vectorize; MisalignedVectorize] <->
  isUnrollOrVectorize p = false.
Proof.
  split.
  - intros [Hn _]%list_elem_of_filter.
    destruct p; try done; exfalso; apply Hn; by_evaluation.
  - intros H. destruct p; try done; by_evaluation.
Qed.

(** C10 (amended).  When the parameters ask for no unrolling or
    vectorization, the body of [if (unroll)] is not run: the axes of
    every node are at the end what the general propagation of parallel
    types made of them.  An axis keeps its assignment when no axis of the
    reference is mapped to it, or when the mapped axis of the reference is
    unrolled, vectorized or misaligned-vectorized; otherwise it takes the
    assignment of the mapped axis of the reference, serial and group
    included, whatever it carried.  So an unroll, vectorize or
    misaligned-vectorize assignment found at the end is one the node had
    after the staging, and any other assignment found at the end is the
    node's own or that of the mapped axis of the reference.  The cached
    inputs and outputs and the vectorizable nodes are not consulted, and
    the expressions of the graph are not touched. *)
Theorem unroll_block_skipped (f : Fusion) :
  isUnrolled rparams = false ->
  let staged :=
    propagateAndStage propagateTransforms rfactorHelperOf reduction_tv reference_tv
      reduction_tvs f in
  let final :=
    multiReductionInliner propagateTransforms rfactorHelperOf mapped_axis
      getInputsOutputsWithInnerDim inline_position rparams reduction_tv reference_tv
      reduction_tvs cached_inputs cached_outputs dummy_outputs f in
  (forall tv i id0,
     domain_of staged tv !! i = Some id0 ->
     (forall k ref_id,
        mapped_axis staged reference_tv tv i = Some k ->
        domain_of staged reference_tv !! k = Some ref_id ->
        isUnrollOrVectorize (getParallelType ref_id) = false ->
        domain_of final tv !! i = Some (parallelize (getParallelType ref_id) id0)) /\
     ((forall k ref_id,
         mapped_axis staged reference_tv tv i = Some k ->
         domain_of staged reference_tv !! k = Some ref_id ->
         isUnrollOrVectorize (getParallelType ref_id) = true) ->
      domain_of final tv !! i = Some id0)) /\
  (forall tv, length (domain_of final tv) = length (domain_of staged tv)) /\
  (forall tv i id,
     domain_of final tv !! i = Some id ->
     isUnrollOrVectorize (getParallelType id) = true ->
     domain_of staged tv !! i = Some id) /\
  (forall tv i id,
     domain_of final tv !! i = Some id ->
     domain_of staged tv !! i = Some id \/
     exists k ref_id,
       mapped_axis staged reference_tv tv i = Some k /\
       domain_of staged reference_tv !! k = Some ref_id /\
       getParallelType id = getParallelType ref_id /\
       isUnrollOrVectorize (getParallelType ref_id) = false) /\
  (forall vectorizable cached_inputs' cached_outputs',
     multiReductionInliner propagateTransforms rfactorHelperOf mapped_axis
       vectorizable inline_position rparams reduction_tv reference_tv
       reduction_tvs cached_inputs' cached_outputs' dummy_outputs f = final) /\
  fusion_exprs final = fusion_exprs staged.
Proof.
  intros Hunroll staged final.
  assert (forall tv i,
            domain_of final tv !! i =
              (fun id0 =>
                 match propagated_type mapped_axis staged reference_tv (-1)
                         (allParallelTypesExcept [Unroll; Vectorize; MisalignedVectorize])
                         tv i with
                 | Some p => parallelize p id0
                 | None => id0
                 end) <$> domain_of staged tv !! i) as Hfinal.
  { intros tv i. subst final. unfold multiReductionInliner. rewrite Hunroll.
    rewrite domain_of_removeDummiesAndInline.
    unfold propagateParallelization. rewrite domain_of_parallelizeAllLike.
    rewrite bool_decide_eq_true_2 by done. simpl.
    by rewrite list_lookup_imap. }
  assert (forall tv i k ref_id,
            mapped_axis staged reference_tv tv i = Some k ->
            domain_of staged reference_tv !! k = Some ref_id ->
            propagated_type mapped_axis staged reference_tv (-1)
              (allParallelTypesExcept [Unroll; Vectorize; MisalignedVectorize]) tv i =
              if isUnrollOrVectorize (getParallelType ref_id) then None
              else Some (getParallelType ref_id)) as Hmapped.
  { intros tv i k ref_id Hk Href. unfold propagated_type. rewrite Hk, Href.
    assert (Z.of_nat k < Z.of_nat (length (domain_of staged reference_tv)))
      by (apply lookup_lt_Some in Href; lia).
    destruct (Z.ltb_spec (-1) 0); [|lia].
    destruct (Z.ltb_spec (Z.of_nat k)
                (-1 + Z.of_nat (length (domain_of staged reference_tv)) + 1)); [|lia].
    simpl. case_bool_decide as Hin.
    - apply general_types_spec in Hin. by rewrite Hin.
    - destruct (isUnrollOrVectorize (getParallelType ref_id)) eqn:Hty; [done|].
      by apply general_types_spec in Hty. }
  assert (forall tv i,
            propagated_type mapped_axis staged reference_tv (-1)
              (allParallelTypesExcept [Unroll; Vectorize; MisalignedVectorize]) tv i =
              None \/
            exists k ref_id,
              mapped_axis staged reference_tv tv i = Some k /\
              domain_of staged reference_tv !! k = Some ref_id /\
              isUnrollOrVectorize (getParallelType ref_id) = false /\
              propagated_type mapped_axis staged reference_tv (-1)
                (allParallelTypesExcept [Unroll; Vectorize; MisalignedVectorize]) tv i =
                Some (getParallelType ref_id)) as Hcases.
  { intros tv i.
    destruct (propagated_type _ _ _ _ _ _ _) as [p|] eqn:Hp; [|by left].
    apply propagated_type_Some in Hp as (Hin & k & ref_id & Hk & Href & <-).
    right. exists k, ref_id. by apply general_types_spec in Hin. }
  split; [|split; [|split; [|split; [|split]]]].
  - intros tv i id0 Hid0. rewrite Hfinal, Hid0. simpl. split.
    + intros k ref_id Hk Href Hty. by rewrite (Hmapped tv i k ref_id Hk Href), Hty.
    + intros Hall.
      destruct (Hcases tv i) as [->|(k & ref_id & Hk & Href & Hty & _)]; [done|].
      rewrite (Hall k ref_id Hk Href) in Hty. discriminate.
  - intros tv. subst final. unfold multiReductionInliner. rewrite Hunroll.
    rewrite domain_of_removeDummiesAndInline.
    unfold propagateParallelization. rewrite domain_of_parallelizeAllLike.
    rewrite bool_decide_eq_true_2 by done. simpl. apply length_imap.
  - intros tv i id. rewrite Hfinal.
    destruct (domain_of staged tv !! i) as [id0|]; [|done]. simpl.
    destruct (Hcases tv i) as [->|(k & ref_id & _ & _ & Hty & ->)]; [done|].
    intros [= <-]. simpl. congruence.
  - intros tv i id. rewrite Hfinal.
    destruct (domain_of staged tv !! i) as [id0|]; [|done]. simpl.
    destruct (Hcases tv i) as [->|(k & ref_id & Hk & Href & Hty & ->)]; [by left|].
    intros [= <-]. right. by exists k, ref_id.
  - intros vectorizable cached_inputs' cached_outputs'. subst final.
    unfold multiReductionInliner. by rewrite Hunroll.
  - subst final. unfold multiReductionInliner. rewrite Hunroll.
    by rewrite fusion_exprs_removeDummiesAndInline.
Qed.

(** C7 (amended).  When the parameters ask for unrolling or
    vectorization, the driver looks for the all-reduce nodes in the state
    reached after the unroll/vectorize types of the reference and of the
    reduction node were cleared: they are the reduction nodes other than
    the original one that live in local memory and have a reduction axis
    whose block-level parallel dimension also parallelizes a broadcast
    consuming the node.  At the end, an axis of such a node carries the
    group assignment if the axis of the original reduction node it is
    mapped to carries it, and is as it was otherwise; the axes of every
    other node are as they were before this step. *)
Theorem allreduce_nodes_regrouped (f : Fusion) :
  isUnrolled rparams = true ->
  let before :=
    beforeRegroup mapped_axis getInputsOutputsWithInnerDim rparams reduction_tv
      reference_tv reduction_tvs cached_inputs cached_outputs
      (propagateParallelization mapped_axis reference_tv
         (propagateAndStage propagateTransforms rfactorHelperOf reduction_tv
            reference_tv reduction_tvs f)) in
  let allreduce_tvs := allreduce_tvs_of reduction_tv reduction_tvs before in
  let final :=
    multiReductionInliner propagateTransforms rfactorHelperOf mapped_axis
      getInputsOutputsWithInnerDim inline_position rparams reduction_tv reference_tv
      reduction_tvs cached_inputs cached_outputs dummy_outputs f in
  (forall tv, tv ∈ allreduce_tvs <->
     tv ∈ reduction_tvs /\ tv <> reduction_tv /\ is_implicit_allreduce before tv) /\
  (forall tv i id0,
     tv ∈ allreduce_tvs -> domain_of before tv !! i = Some id0 ->
     (forall k ref_id,
        mapped_axis before reduction_tv tv i = Some k ->
        domain_of before reduction_tv !! k = Some ref_id ->
        getParallelType ref_id = Group ->
        domain_of final tv !! i = Some (parallelize Group id0)) /\
     ((forall k ref_id,
         mapped_axis before reduction_tv tv i = Some k ->
         domain_of before reduction_tv !! k = Some ref_id ->
         getParallelType ref_id <> Group) ->
      domain_of final tv !! i = Some id0)) /\
  (forall tv, tv ∉ allreduce_tvs -> domain_of final tv = domain_of before tv).
Proof.
  intros Hunroll before allreduce_tvs final.
  assert (forall tv, domain_of final tv =
            domain_of (regroupAllreduce mapped_axis reduction_tv reduction_tvs before) tv)
    as Hfinal.
  { intros tv. subst final. unfold multiReductionInliner. rewrite Hunroll.
    by rewrite domain_of_removeDummiesAndInline. }
  split; [intros tv; apply elem_of_allreduce_tvs_of|]. split.
  - intros tv i id0 Hin Hid0. rewrite Hfinal. unfold regroupAllreduce.
    fold allreduce_tvs.
    rewrite bool_decide_eq_true_2 by (intros E; rewrite E in Hin; by apply elem_of_nil in Hin).
    rewrite domain_of_parallelizeAllLike.
    rewrite (bool_decide_eq_true_2 (tv ∈ allreduce_tvs)), orb_true_r by done.
    rewrite list_lookup_imap, Hid0. simpl.
    unfold propagated_type. split.
    + intros k ref_id Hk Href Hg. rewrite Hk, Href, Hg.
      assert (Z.of_nat k < Z.of_nat (length (domain_of before reduction_tv)))
        by (apply lookup_lt_Some in Href; lia).
      destruct (Z.ltb_spec (-1) 0); [|lia].
      destruct (Z.ltb_spec (Z.of_nat k)
                  (-1 + Z.of_nat (length (domain_of before reduction_tv)) + 1)); [|lia].
      done.
    + intros Hng.
      destruct (mapped_axis before reduction_tv tv i) as [k|] eqn:Hk; [|done].
      destruct (domain_of before reduction_tv !! k) as [ref_id|] eqn:Href; [|done].
      rewrite (bool_decide_eq_false_2 (getParallelType ref_id ∈ [Group])).
      * by rewrite andb_false_r.
      * intros Hg%list_elem_of_singleton. by apply (Hng k ref_id).
  - intros tv Hnin. rewrite Hfinal. unfold regroupAllreduce. fold allreduce_tvs.
    case_bool_decide as Hne; [|done].
    rewrite domain_of_parallelizeAllLike.
    rewrite (bool_decide_eq_false_2 (allreduce_tvs = [])) by done.
    by rewrite (bool_decide_eq_false_2 (tv ∈ allreduce_tvs)) by done.
Qed.

End DriverProps.

Lemma unroll_block_skipped_witness :
  domain_of (ex_overwrite_driver rparams_plain) 2 !! 0%nat =
    Some (parallelize Serial (iter_axis_of 4 (NamedScalar "i") Unroll)).
Proof.
  destruct (unroll_block_skipped ex_propagateTransforms ex_rfactorHelperOf
              ex_overwrite_mapped_axis ex_vectorizable ex_inline_position rparams_plain
              0 1 [0%nat] [] [] [] ex_overwrite_fusion eq_refl) as (Haxes & _).
  exact (proj1 (Haxes 2%nat 0%nat (iter_axis_of 4 (NamedScalar "i") Unroll) eq_refl)
           0%nat (iter_axis_of 2 (NamedScalar "i") Serial) eq_refl eq_refl eq_refl).
Defined.

(** C10, as stated, fails: with the plain parameters (no unrolling, no
    vectorization) node 2 of [ex_overwrite_fusion] comes with an unrolled
    axis and without a group axis; its axes are mapped to the serial and
    the group axis of the reference; after the driver the unrolled axis
    is serial and the other axis carries the group assignment. *)
Lemma unroll_stripped_without_unroll_request :
  isUnrolled rparams_plain = false /\
  domain_of ex_overwrite_fusion 2 =
    [iter_axis_of 4 (NamedScalar "i") Unroll; red_axis_of 5 (NamedScalar "r") BIDx] /\
  ~ has_group_axis ex_overwrite_fusion 2 /\
  domain_of (ex_overwrite_driver rparams_plain) 2 =
    [iter_axis_of 4 (NamedScalar "i") Serial; red_axis_of 5 (NamedScalar "r") Group] /\
  has_group_axis (ex_overwrite_driver rparams_plain) 2.
Proof.
  split; [reflexivity|]. split; [by vm_compute|]. split; [|split].
  - intros (id & Hin & Hg).
    assert (domain_of ex_overwrite_fusion 2 =
              [iter_axis_of 4 (NamedScalar "i") Unroll;
               red_axis_of 5 (NamedScalar "r") BIDx]) as Hd by (by vm_compute).
    rewrite Hd in Hin.
    apply elem_of_cons in Hin as [->|Hin]; [discriminate|].
    apply elem_of_cons in Hin as [->|Hin]; [discriminate|].
    by apply elem_of_nil in Hin.
  - by vm_compute.
  - exists (red_axis_of 5 (NamedScalar "r") Group). split; [|reflexivity].
    assert (domain_of (ex_overwrite_driver rparams_plain) 2 =
              [iter_axis_of 4 (NamedScalar "i") Serial;
               red_axis_of 5 (NamedScalar "r") Group]) as -> by (by vm_compute).
    apply elem_of_cons. right. apply elem_of_cons. by left.
Qed.

Lemma allreduce_nodes_regrouped_witness :
  domain_of (ex_driver rparams_unrolled_iter) 2 !! 1%nat =
    Some (parallelize Group (red_axis_of 5 (NamedScalar "r") BIDx)).
Proof.
  destruct (allreduce_nodes_regrouped ex_propagateTransforms ex_rfactorHelperOf
              ex_mapped_axis ex_vectorizable ex_inline_position rparams_unrolled_iter
              0 1 [0%nat; 2%nat] [] [] [] ex_fusion eq_refl) as (_ & Haxes & _).
  refine (proj1 (Haxes 2%nat 1%nat (red_axis_of 5 (NamedScalar "r") BIDx) _ _)
            1%nat (red_axis_of 1 (NamedScalar "r") Group) _ _ _).
  - by_evaluation.
  - by vm_compute.
  - by vm_compute.
  - by vm_compute.
  - reflexivity.
Defined.

(** C7, as stated, fails: with the plain parameters (no unrolling, no
    vectorization) node 2 of [ex_fusion] is a reduction node other than
    the original one, lives in local memory and its block-parallel
    reduction axis parallelizes the broadcast that consumes it; the
    original reduction node 0 has a group axis; yet after the driver no
    axis of node 2 carries the group assignment. *)
Lemma allreduce_not_regrouped_without_unroll :
  isUnrolled rparams_plain = false /\
  2%nat ∈ [0%nat; 2%nat] /\ 2%nat <> 0%nat /\
  is_implicit_allreduce ex_fusion 2 /\
  is_implicit_allreduce (ex_driver rparams_plain) 2 /\
  has_group_axis (ex_driver rparams_plain) 0 /\
  ~ has_group_axis (ex_driver rparams_plain) 2.
Proof.
  split; [reflexivity|]. split; [by_evaluation|]. split; [done|].
  split; [by apply isGridAllreduce_spec; vm_compute|].
  split; [by apply isGridAllreduce_spec; vm_compute|].
  split.
  - exists (red_axis_of 1 (NamedScalar "r") Group). split; [|reflexivity].
    assert (domain_of (ex_driver rparams_plain) 0 =
              [iter_axis_of 0 (NamedScalar "i") Serial;
               red_axis_of 1 (NamedScalar "r") Group]) as -> by (by vm_compute).
    apply elem_of_cons. right. apply elem_of_cons. by left.
  - intros (id & Hin & Hg).
    assert (domain_of (ex_driver rparams_plain) 2 =
              [iter_axis_of 4 (NamedScalar "i") Serial;
               red_axis_of 5 (NamedScalar "r") BIDx]) as Hd by (by vm_compute).
    rewrite Hd in Hin.
    apply elem_of_cons in Hin as [->|Hin]; [discriminate|].
    apply elem_of_cons in Hin as [->|Hin]; [discriminate|].
    by apply elem_of_nil in Hin.
Qed.

(** ** The persistent buffer projector *)

Section ProjectorProps.

Variable getAllDependencyChains : Fusion -> nat -> nat -> list (list nat).

Lemma record_uses_of_chains f chains : forall acc,
  NoDup acc ->
  (forall chain, chain ∈ chains -> chain_has_reduction f chain = false ->
     is_Some (chain !! 1%nat)) ->
  exists acc',
    foldM record_use_of_chain chains acc f = (f, Ok acc') /\
    NoDup acc' /\
    forall u, u ∈ acc' <->
      u ∈ acc \/
      exists chain, chain ∈ chains /\ chain_has_reduction f chain = false /\
                    chain !! 1%nat = Some u.
Proof.
  induction chains as [|chain chains IH]; intros acc Hnd Hsec; simpl.
  - exists acc. split; [done|]. split; [done|]. intros u. split; [auto|].
    intros [?|(c & Hc & _)]; [done|]. by apply elem_of_nil in Hc.
  - unfold bind, record_use_of_chain at 1, bind, get.
    destruct (chain_has_reduction f chain) eqn:Hred; simpl.
    + destruct (IH acc Hnd) as (acc' & Hrun & Hnd' & Hmem).
      { intros c Hc. apply Hsec, elem_of_cons. auto. }
      exists acc'. split; [done|]. split; [done|]. intros u. rewrite Hmem.
      split; (intros [?|(c & Hc & Hr & Hu)]; [by left|right]).
      * exists c. split; [apply elem_of_cons; auto|done].
      * apply elem_of_cons in Hc as [->|Hc]; [congruence|]. by exists c.
    + destruct (Hsec chain) as [use Huse]; [apply elem_of_cons; auto|done|].
      rewrite Huse. case_bool_decide as Hin; simpl.
      * destruct (IH acc Hnd) as (acc' & Hrun & Hnd' & Hmem).
        { intros c Hc. apply Hsec, elem_of_cons. auto. }
        exists acc'. split; [done|]. split; [done|]. intros u. rewrite Hmem.
        split; (intros [?|(c & Hc & Hr & Hu)]; [by left|]).
        -- right. exists c. split; [apply elem_of_cons; auto|done].
        -- apply elem_of_cons in Hc as [->|Hc].
           ++ left. congruence.
           ++ right. by exists c.
      * destruct (IH (acc ++ [use])) as (acc' & Hrun & Hnd' & Hmem).
        { apply NoDup_app. split; [done|]. split; [|apply NoDup_singleton].
          intros x Hx ->%list_elem_of_singleton. done. }
        { intros c Hc. apply Hsec, elem_of_cons. auto. }
        exists acc'. split; [done|]. split; [done|]. intros u. rewrite Hmem.
        rewrite elem_of_app, list_elem_of_singleton. split.
        -- intros [[?| ->]|(c & Hc & Hr & Hu)]; [by left| |].
           ++ right. exists chain. split; [apply elem_of_cons; auto|done].
           ++ right. exists c. split; [apply elem_of_cons; auto|done].
        -- intros [?|(c & Hc & Hr & Hu)]; [by left; left|].
           apply elem_of_cons in Hc as [->|Hc].
           ++ left. right. congruence.
           ++ right. by exists c.
Qed.

Lemma persistent_uses_from f buffer rps : forall acc,
  NoDup acc ->
  (forall chain, surviving_chain getAllDependencyChains f buffer rps chain ->
     is_Some (chain !! 1%nat)) ->
  exists acc',
    foldM (fun persistent_use_of_buffer resolution_point =>
             bind get (fun f =>
               foldM record_use_of_chain
                 (getAllDependencyChains f buffer resolution_point)
                 persistent_use_of_buffer))
          rps acc f = (f, Ok acc') /\
    NoDup acc' /\
    forall u, u ∈ acc' <->
      u ∈ acc \/
      exists chain, surviving_chain getAllDependencyChains f buffer rps chain /\
                    chain !! 1%nat = Some u.
Proof.
  induction rps as [|rp rps IH]; intros acc Hnd Hsec; simpl.
  - exists acc. split; [done|]. split; [done|]. intros u. split; [auto|].
    intros [?|(c & (rp & Hrp & _) & _)]; [done|]. by apply elem_of_nil in Hrp.
  - destruct (record_uses_of_chains f (getAllDependencyChains f buffer rp) acc Hnd)
      as (acc1 & Hrun1 & Hnd1 & Hmem1).
    { intros c Hc Hr. apply Hsec. exists rp. split; [apply elem_of_cons; auto|done]. }
    destruct (IH acc1 Hnd1) as (acc' & Hrun & Hnd' & Hmem).
    { intros c (rp' & Hrp' & Hc). apply Hsec. exists rp'.
      split; [apply elem_of_cons; auto|done]. }
    exists acc'. split.
    + unfold bind at 1. unfold bind at 1, get. simpl. rewrite Hrun1. exact Hrun.
    + split; [done|]. intros u. rewrite Hmem, Hmem1. split.
      * intros [[?|(c & Hc & Hr & Hu)]|(c & (rp' & Hrp' & Hc) & Hu)]; [by left| |].
        -- right. exists c. split; [|done]. exists rp.
           split; [apply elem_of_cons; auto|done].
        -- right. exists c. split; [|done]. exists rp'.
           split; [apply elem_of_cons; auto|done].
      * intros [?|(c & (rp' & Hrp' & Hc & Hr) & Hu)]; [by left; left|].
        apply elem_of_cons in Hrp' as [->|Hrp'].
        -- left. right. by exists c.
        -- right. exists c. split; [|done]. by exists rp'.
Qed.

Lemma persistent_uses_spec f buffer rps :
  (forall chain, surviving_chain getAllDependencyChains f buffer rps chain ->
     is_Some (chain !! 1%nat)) ->
  exists uses,
    persistent_uses getAllDependencyChains buffer rps f = (f, Ok uses) /\
    NoDup uses /\
    forall u, u ∈ uses <->
      exists chain, surviving_chain getAllDependencyChains f buffer rps chain /\
                    chain !! 1%nat = Some u.
Proof.
  intros Hsec.
  destruct (persistent_uses_from f buffer rps [] (NoDup_nil_2) Hsec)
    as (uses & Hrun & Hnd & Hmem).
  exists uses. split; [exact Hrun|]. split; [done|]. intros u. rewrite Hmem.
  split; [|auto]. intros [H|H]; [by apply elem_of_nil in H|done].
Qed.

End ProjectorProps.

Lemma definition_elem_of g tv e : definition g tv = Some e -> e ∈ fusion_exprs g.
Proof.
  unfold definition. destruct (list_find _ _) as [[i e']|] eqn:Hf; [|done].
  intros [= <-]. apply list_find_Some in Hf as (Hf & _). by eapply list_elem_of_lookup_2.
Qed.

Lemma definition_outputs g tv e : definition g tv = Some e -> tv ∈ expr_outputs e.
Proof.
  unfold definition. destruct (list_find _ _) as [[i e']|] eqn:Hf; [|done].
  intros [= <-]. by apply list_find_Some in Hf as (_ & Hf & _).
Qed.

Lemma replace_input_id reference substitute e :
  reference ∉ expr_inputs e -> replace_input reference substitute e = e.
Proof.
  destruct e as [ty ins outs]. unfold replace_input. simpl. intros Hn. f_equal.
  induction ins as [|v ins IH]; simpl; [done|].
  apply not_elem_of_cons in Hn as [Hv Hn].
  rewrite bool_decide_eq_false_2 by done. f_equal. by apply IH.
Qed.

Lemma replace_input_clean reference substitute e :
  substitute <> reference ->
  reference ∉ expr_inputs (replace_input reference substitute e).
Proof.
  intros Hne Hin. simpl in Hin. apply list_elem_of_fmap in Hin as (v & Hv & _).
  case_bool_decide; congruence.
Qed.

Lemma definition_in_use g x e :
  addresses_in_use g -> definition g x = Some e -> (x < fusion_next g)%nat.
Proof.
  intros Hwf He. destruct (Hwf e (definition_elem_of _ _ _ He)) as [_ Ho].
  by apply Ho, (definition_outputs g).
Qed.

(** One pass of the loop over the recorded uses, on any graph. *)
Lemma project_use_run buffer ds use g e :
  addresses_in_use g ->
  (buffer < fusion_next g)%nat ->
  definition g use = Some e ->
  let r := fusion_next g in
  let F := fun e' : Expr =>
             if bool_decide (e' = e) then replace_input buffer r e' else e' in
  exists g',
    project_use buffer ds use g = (g', Ok (ds ++ [S r])) /\
    fusion_next g' = S (S r) /\
    addresses_in_use g' /\
    fusion_outputs g' = fusion_outputs g /\
    (forall x, (x < r)%nat -> fusion_tvs g' !! x = fusion_tvs g !! x) /\
    fusion_tvs g' !! r =
      Some (mkFusionTv (domain_of g buffer) (getMemoryType g buffer) 0) /\
    (forall x, (x < r)%nat -> definition g' x = F <$> definition g x) /\
    definition g' r =
      (fun eb => mkExpr (expr_type eb) (expr_inputs eb) [r]) <$> definition g buffer /\
    definition g' (S r) = Some (mkExpr BinaryOpAdd [r; buffer] [S r]).
Proof.
  intros Hwf Hb He r F.
  set (rdefs := match definition g buffer with
                | Some eb => [mkExpr (expr_type eb) (expr_inputs eb) [r]]
                | None => []
                end).
  assert (forall e', expr_outputs (F e') = expr_outputs e') as HFout.
  { intros e'. unfold F. by case_bool_decide. }
  assert (e ∈ fusion_exprs g) as Hein by (by eapply definition_elem_of).
  assert (forall e', e' ∈ rdefs -> expr_outputs e' = [r] /\
            forall v, v ∈ expr_inputs e' -> (v < r)%nat) as Hrdefs.
  { intros e' He'. unfold rdefs in He'.
    destruct (definition g buffer) as [eb|] eqn:Hdb; [|by apply elem_of_nil in He'].
    apply list_elem_of_singleton in He' as ->. split; [done|]. simpl.
    apply definition_elem_of in Hdb. by apply (Hwf eb). }
  assert (forall e', e' ∈ rdefs -> F e' = e') as HFr.
  { intros e' He'. unfold F. case_bool_decide as Heq; [|done]. subst e'.
    destruct (Hrdefs e He') as [Hout _].
    destruct (Hwf e Hein) as [_ Ho]. specialize (Ho r). rewrite Hout in Ho.
    unfold r in Ho. exfalso. assert (fusion_next g < fusion_next g)%nat; [|lia].
    apply Ho, list_elem_of_singleton. done. }
  assert (F (mkExpr BinaryOpAdd [r; buffer] [S r]) = mkExpr BinaryOpAdd [r; buffer] [S r])
    as HFa.
  { unfold F. case_bool_decide as Heq; [|done]. exfalso.
    destruct (Hwf e Hein) as [_ Ho]. specialize (Ho (S r)). rewrite <- Heq in Ho.
    simpl in Ho. assert (S r < fusion_next g)%nat; [|unfold r in *; lia].
    apply Ho, list_elem_of_singleton. done. }
  assert (forall x, list_find (fun e' => x ∈ expr_outputs e')
                      (F <$> ((fusion_exprs g ++ rdefs) ++
                              [mkExpr BinaryOpAdd [r; buffer] [S r]])) =
                    prod_map id F <$>
                      list_find (fun e' => x ∈ expr_outputs e')
                        ((fusion_exprs g ++ rdefs) ++
                         [mkExpr BinaryOpAdd [r; buffer] [S r]])) as Hfind.
  { intros x. rewrite list_find_fmap. f_equal.
    apply list_find_ext. intros e'. simpl. by rewrite HFout. }
  assert (forall x, (x <> r)%nat ->
            list_find (fun e' => x ∈ expr_outputs e') rdefs = None) as Hnor.
  { intros x Hx. apply list_find_None, Forall_forall. intros e' He' Hin.
    destruct (Hrdefs e' He') as [Hout _]. rewrite Hout in Hin.
    by apply list_elem_of_singleton in Hin. }
  assert (forall x, (fusion_next g <= x)%nat ->
            list_find (fun e' => x ∈ expr_outputs e') (fusion_exprs g) = None) as Hnog.
  { intros x Hx. apply list_find_None, Forall_forall. intros e' He' Hin.
    destruct (Hwf e' He') as [_ Ho]. specialize (Ho _ Hin). lia. }
  eexists. split.
  { unfold project_use, bind, get. rewrite He.
    unfold recompute, add, replaceValInExpr, modify, ret. simpl. reflexivity. }
  simpl. fold r rdefs F.
  split; [done|]. split; [|split; [done|split; [|split; [|split; [|split]]]]].
  - intros e' He'. simpl in *. apply list_elem_of_fmap in He' as (e0 & -> & He0).
    rewrite HFout.
    assert ((forall v, v ∈ expr_inputs e0 -> (v < S (S r))%nat) /\
            (forall v, v ∈ expr_outputs e0 -> (v < S (S r))%nat)) as [Hi Ho].
    { apply elem_of_app in He0 as [He0|He0]; [apply elem_of_app in He0 as [He0|He0]|].
      - destruct (Hwf e0 He0) as [Hi Ho]. unfold r.
        split; intros v Hv; [specialize (Hi v Hv)|specialize (Ho v Hv)]; lia.
      - destruct (Hrdefs e0 He0) as [Hout Hi]. split.
        + intros v Hv. specialize (Hi v Hv). lia.
        + intros v Hv. rewrite Hout in Hv. apply list_elem_of_singleton in Hv. lia.
      - apply list_elem_of_singleton in He0 as ->. simpl. split; intros v Hv.
        + apply elem_of_cons in Hv as [->|Hv]; [lia|].
          apply list_elem_of_singleton in Hv as ->. unfold r. lia.
        + apply list_elem_of_singleton in Hv as ->. lia. }
    split; [|done].
    intros v Hv. unfold F in Hv. case_bool_decide; [|by apply Hi].
    simpl in Hv. apply list_elem_of_fmap in Hv as (v0 & -> & Hv0).
    case_bool_decide; [lia|by apply Hi].
  - intros x Hx. rewrite !lookup_insert_ne by (unfold r in *; lia). done.
  - rewrite lookup_insert_ne by lia. apply lookup_insert_eq.
  - intros x Hx. unfold definition at 1. simpl. rewrite Hfind.
    unfold definition.
    destruct (list_find _ (fusion_exprs g)) as [[i e0]|] eqn:Hf.
    + rewrite <- app_assoc. erewrite list_find_app_l by exact Hf. done.
    + rewrite <- app_assoc, list_find_app_r by done.
      rewrite list_find_app_r by (apply Hnor; lia).
      simpl. rewrite decide_False; [done|].
      intros Hin. apply list_elem_of_singleton in Hin. lia.
  - unfold definition at 1. cbn [fusion_exprs]. rewrite Hfind.
    rewrite <- app_assoc, list_find_app_r by (apply Hnog; unfold r; lia).
    unfold rdefs. destruct (definition g buffer) as [eb|] eqn:Hdb; simpl.
    + rewrite decide_True by (apply list_elem_of_singleton; done). simpl.
      f_equal. apply HFr. by apply list_elem_of_singleton.
    + rewrite decide_False; [done|].
      intros Hin. apply list_elem_of_singleton in Hin. lia.
  - unfold definition at 1. simpl. rewrite Hfind.
    rewrite <- app_assoc, list_find_app_r by (apply Hnog; unfold r; lia).
    rewrite list_find_app_r by (apply Hnor; lia).
    simpl. rewrite decide_True by (apply list_elem_of_singleton; done).
    simpl. by rewrite HFa.
Qed.

Lemma replace_input_fresh g reference e e' :
  addresses_in_use g -> e ∈ fusion_exprs g -> e' ∈ fusion_exprs g ->
  replace_input reference (fusion_next g) e = e' -> e' = e.
Proof.
  intros Hwf He He' Heq.
  destruct (decide (reference ∈ expr_inputs e)) as [Hin|Hin].
  - exfalso. destruct (Hwf e' He') as [Hi _].
    assert (fusion_next g ∈ expr_inputs e') as Hr.
    { rewrite <- Heq. simpl. apply list_elem_of_fmap. exists reference.
      by rewrite bool_decide_eq_true_2. }
    specialize (Hi _ Hr). lia.
  - by rewrite replace_input_id in Heq.
Qed.

Lemma list_find_ext_elem {A} (P Q : A -> Prop)
    `{!forall x, Decision (P x)} `{!forall x, Decision (Q x)} (l : list A) :
  (forall x, x ∈ l -> P x <-> Q x) -> list_find P l = list_find Q l.
Proof.
  induction l as [|a l IH]; intros Hext; simpl; [done|].
  destruct (decide (P a)) as [Hp|Hp], (decide (Q a)) as [Hq|Hq]; try done.
  - exfalso. apply Hq, Hext; [by left|done].
  - exfalso. apply Hp, Hext; [by left|done].
  - rewrite IH; [done|]. intros x Hx. apply Hext. by right.
Qed.

(** The loop over the recorded uses, on any graph: it completes when
    every use has a definition, makes a duplicate and a scaffold node per
    use, and rewrites the definitions of the uses only. *)
Lemma project_uses_run buffer : forall recorded g ds,
  addresses_in_use g ->
  (buffer < fusion_next g)%nat ->
  (forall eb, definition g buffer = Some eb -> buffer ∉ expr_inputs eb) ->
  (forall u, u ∈ recorded -> is_Some (definition g u)) ->
  exists g',
    foldM (project_use buffer) recorded ds g =
      (g', Ok (ds ++ ((fun i => S (fusion_next g + 2 * i)) <$> seq 0 (length recorded)))) /\
    fusion_next g' = (fusion_next g + 2 * length recorded)%nat /\
    fusion_outputs g' = fusion_outputs g /\
    (forall x, (x < fusion_next g)%nat -> fusion_tvs g' !! x = fusion_tvs g !! x) /\
    (forall x e, definition g x = Some e ->
       definition g' x =
         Some (match list_find (fun u => definition g u = Some e) recorded with
               | Some (j, _) => replace_input buffer (fusion_next g + 2 * j) e
               | None => e
               end)) /\
    (forall x, (x < fusion_next g)%nat -> definition g x = None ->
       definition g' x = None) /\
    (forall i, (i < length recorded)%nat ->
       fusion_tvs g' !! (fusion_next g + 2 * i)%nat =
         Some (mkFusionTv (domain_of g buffer) (getMemoryType g buffer) 0) /\
       definition g' (fusion_next g + 2 * i) =
         (fun eb => mkExpr (expr_type eb) (expr_inputs eb) [(fusion_next g + 2 * i)%nat])
           <$> definition g buffer /\
       definition g' (S (fusion_next g + 2 * i)) =
         Some (mkExpr BinaryOpAdd [(fusion_next g + 2 * i)%nat; buffer]
                 [S (fusion_next g + 2 * i)])).
Proof.
  induction recorded as [|use recorded IH]; intros g ds Hwf Hb Hacyc Hdef.
  { exists g. simpl. rewrite app_nil_r.
    split; [done|]. split; [lia|]. split; [done|]. split; [done|].
    split; [done|]. split; [done|]. intros i Hi. lia. }
  destruct (Hdef use) as [e He]; [by left|].
  destruct (project_use_run buffer ds use g e Hwf Hb He)
    as (g1 & Hstep & Hn1 & Hwf1 & Hout1 & Htv1 & Hdup1 & Hdef1 & Hrdef1 & Hadd1).
  set (r := fusion_next g) in *.
  set (F := fun e' : Expr =>
              if bool_decide (e' = e) then replace_input buffer r e' else e') in *.
  assert (forall e', e' <> e -> F e' = e') as HFother.
  { intros e' Hne. unfold F. by rewrite bool_decide_eq_false_2. }
  assert (F e = replace_input buffer r e) as HFe.
  { unfold F. by rewrite bool_decide_eq_true_2. }
  assert (forall u, u ∈ use :: recorded -> (u < r)%nat) as Hold.
  { intros u Hu. destruct (Hdef u Hu) as [eu Heu]. by eapply definition_in_use. }
  assert (definition g1 buffer = definition g buffer) as Hbuf1.
  { rewrite Hdef1 by done. destruct (definition g buffer) as [eb|] eqn:Hdb; [|done].
    simpl. f_equal. unfold F. case_bool_decide as Heq; [|done].
    apply replace_input_id. by apply Hacyc. }
  assert (domain_of g1 buffer = domain_of g buffer) as Hdom1.
  { unfold domain_of. by rewrite Htv1. }
  assert (getMemoryType g1 buffer = getMemoryType g buffer) as Hmem1.
  { unfold getMemoryType. by rewrite Htv1. }
  destruct (IH g1 (ds ++ [S r])) as (g' & Hrun & Hn' & Hout' & Htv' & HD & HN & HR).
  { done. }
  { lia. }
  { intros eb. rewrite Hbuf1. apply Hacyc. }
  { intros u Hu. rewrite Hdef1 by (apply Hold; by right).
    destruct (Hdef u) as [eu Heu]; [by right|]. rewrite Heu. by eexists. }
  assert (forall x ex, definition g1 x = Some ex -> expr_outputs ex = [x] ->
            (r <= x)%nat -> definition g' x = Some ex) as Hkeep.
  { intros x ex Hex Hout Hx. rewrite (HD x ex Hex). f_equal.
    rewrite (proj2 (list_find_None _ _)); [done|].
    apply Forall_forall. intros u Hu Hdu.
    apply definition_outputs in Hdu. rewrite Hout in Hdu.
    apply list_elem_of_singleton in Hdu as ->.
    specialize (Hold x (list_elem_of_further _ _ _ Hu)). lia. }
  exists g'. split; [|split; [|split; [|split; [|split; [|split]]]]].
  - simpl. rewrite (bind_ok _ _ _ _ _ Hstep), Hrun. do 2 f_equal.
    rewrite <- app_assoc. f_equal. simpl. f_equal; [f_equal; lia|].
    rewrite <- fmap_S_seq, <- list_fmap_compose. apply list_fmap_ext.
    intros i x _. simpl. rewrite Hn1. f_equal. lia.
  - rewrite Hn', Hn1. simpl. lia.
  - by rewrite Hout'.
  - intros x Hx. rewrite Htv' by lia. by apply Htv1.
  - intros x ex Hex.
    assert (x < r)%nat as Hx by (by eapply definition_in_use).
    pose proof (Hdef1 x Hx) as Hx1. rewrite Hex in Hx1. simpl in Hx1.
    rewrite (HD x (F ex) Hx1). f_equal. simpl list_find.
    destruct (decide (definition g use = Some ex)) as [Heq|Hne].
    + assert (ex = e) as -> by congruence. rewrite HFe. simpl.
      replace (r + 0)%nat with r by lia.
      destruct (list_find _ recorded) as [[j uj]|]; [|done].
      apply replace_input_id, replace_input_clean. lia.
    + assert (ex <> e) as Hexe by congruence. rewrite (HFother ex) by done.
      rewrite (list_find_ext_elem (fun u => definition g1 u = Some ex)
                 (fun u => definition g u = Some ex)).
      2: { intros u Hu. rewrite Hdef1 by (apply Hold; by right).
           destruct (Hdef u) as [eu Heu]; [by right|]. rewrite Heu. simpl.
           split; intros [= HF]; f_equal.
           - unfold F in HF. case_bool_decide as Hue; [|done]. subst eu.
             exfalso. apply Hexe.
             apply (replace_input_fresh g buffer e ex Hwf);
               [by eapply definition_elem_of|by eapply definition_elem_of|done].
           - subst eu. by apply HFother. }
      destruct (list_find (fun u => definition g u = Some ex) recorded) as [[j uj]|];
        simpl; [|done].
      f_equal. rewrite Hn1. lia.
  - intros x Hx Hnone. apply HN; [lia|]. rewrite Hdef1 by done. by rewrite Hnone.
  - intros [|i] Hi.
    + replace (r + 2 * 0)%nat with r by lia. split; [|split].
      * rewrite Htv' by lia. done.
      * destruct (definition g buffer) as [eb|] eqn:Hdb; simpl in *.
        -- by apply Hkeep.
        -- apply HN; [lia|done].
      * apply Hkeep; [done|done|lia].
    + simpl in Hi. destruct (HR i) as (H1 & H2 & H3); [lia|].
      rewrite Hn1, Hdom1, Hmem1, Hbuf1 in *.
      replace (r + 2 * S i)%nat with (S (S r) + 2 * i)%nat by lia. done.
Qed.

Lemma foldM_app {S A B} (step : B -> A -> M S B) (l1 l2 : list A) : forall b s,
  foldM step (l1 ++ l2) b s = bind (foldM step l1 b) (foldM step l2) s.
Proof.
  induction l1 as [|a l1 IH]; intros b s; simpl; [done|].
  rewrite bind_assoc. destruct (step b a s) as [s1 [b1|msg]] eqn:Hs.
  - rewrite !(bind_ok _ _ _ _ _ Hs). apply IH.
  - by rewrite !(bind_fatal _ _ _ _ _ Hs).
Qed.

Section ProjectorClaim.

Variable persistentBuffers : Fusion -> PersistentBufferInfo.
Variable getAllDependencyChains : Fusion -> nat -> nat -> list (list nat).

(** C8.  [projectPersistentBuffers] takes the persistent buffers in
    their order, each with the resolution points at its own index.  When
    its run has reached a buffer that is projectable, in a graph whose
    expressions mention nodes of the graph only and in which the buffer
    is not an input of its own definition, and every dependency chain
    from the buffer to one of its resolution points that passes through
    no reduction has a second node with a definition, then: the recorded
    uses are the second nodes of those chains, each once whatever the
    number of chains and resolution points that give it, and nothing
    else; the run goes on to the next buffer, and returns at the last
    one, with one scaffold node appended per recorded use, in their
    order; two nodes are made per recorded use, a duplicate of the
    buffer, with the axes and the memory of the buffer and defined as the
    buffer is from the buffer's own inputs, and the scaffold node, the
    sum of the duplicate and the buffer; the defining expression of every
    recorded use consumes a duplicate where it consumed the buffer, the
    duplicate made for the first recorded use that the expression
    defines; every other definition, every node that was there and the
    outputs of the graph are as they were. *)
Theorem projection_of_a_buffer (f g : Fusion) (k buffer : nat)
    (resolution_points ds : list nat) :
  let info := persistentBuffers f in
  let entries :=
    zip (persistent_buffers info) (persistent_buffer_resolution_points info) in
  let project :=
    projectBuffer getAllDependencyChains (projectable_persistent_buffers info) in
  length (persistent_buffers info) =
    length (persistent_buffer_resolution_points info) ->
  persistent_buffers info !! k = Some buffer ->
  persistent_buffer_resolution_points info !! k = Some resolution_points ->
  buffer ∈ projectable_persistent_buffers info ->
  foldM project (take k entries) [] f = (g, Ok ds) ->
  addresses_in_use g ->
  (buffer < fusion_next g)%nat ->
  (forall eb, definition g buffer = Some eb -> buffer ∉ expr_inputs eb) ->
  (forall chain,
     surviving_chain getAllDependencyChains g buffer resolution_points chain ->
     exists use, chain !! 1%nat = Some use /\ is_Some (definition g use)) ->
  exists recorded g',
    NoDup recorded /\
    (forall u, u ∈ recorded <->
       exists chain,
         surviving_chain getAllDependencyChains g buffer resolution_points chain /\
         chain !! 1%nat = Some u) /\
    let n := fusion_next g in
    let scaffolds := (fun i => S (n + 2 * i)) <$> seq 0 (length recorded) in
    projectPersistentBuffers persistentBuffers getAllDependencyChains f =
      foldM project (drop (S k) entries) (ds ++ scaffolds) g' /\
    (S k = length (persistent_buffers info) ->
     projectPersistentBuffers persistentBuffers getAllDependencyChains f =
       (g', Ok (ds ++ scaffolds))) /\
    fusion_next g' = (n + 2 * length recorded)%nat /\
    fusion_outputs g' = fusion_outputs g /\
    (forall x, (x < n)%nat -> fusion_tvs g' !! x = fusion_tvs g !! x) /\
    (forall i, (i < length recorded)%nat ->
       let dup := (n + 2 * i)%nat in
       domain_of g' dup = domain_of g buffer /\
       getMemoryType g' dup = getMemoryType g buffer /\
       definition g' dup =
         (fun eb => mkExpr (expr_type eb) (expr_inputs eb) [dup])
           <$> definition g buffer /\
       definition g' (S dup) = Some (mkExpr BinaryOpAdd [dup; buffer] [S dup])) /\
    (forall i use e,
       recorded !! i = Some use -> definition g use = Some e ->
       exists j first,
         (j <= i)%nat /\ recorded !! j = Some first /\ definition g first = Some e /\
         (forall i' u', (i' < j)%nat -> recorded !! i' = Some u' ->
            definition g u' <> Some e) /\
         definition g' use = Some (replace_input buffer (n + 2 * j) e) /\
         buffer ∉ expr_inputs (replace_input buffer (n + 2 * j) e)) /\
    (forall x e,
       definition g x = Some e ->
       (forall u, u ∈ recorded -> definition g u <> Some e) ->
       definition g' x = Some e).
Proof.
  intros info entries project Hlen Hbuf Hrps Hproj Hreach Hwf Hb Hacyc Hchains.
  destruct (persistent_uses_spec getAllDependencyChains g buffer resolution_points)
    as (recorded & Huses & Hnd & Hmem).
  { intros chain Hc. destruct (Hchains chain Hc) as (use & -> & _). by eexists. }
  assert (forall u, u ∈ recorded -> is_Some (definition g u)) as Hdef.
  { intros u (chain & Hc & Hu)%Hmem.
    destruct (Hchains chain Hc) as (use & Hu' & Hd). congruence. }
  destruct (project_uses_run buffer recorded g ds Hwf Hb Hacyc Hdef)
    as (g' & Hrun & Hn' & Hout' & Htv' & HD & HN & HR).
  exists recorded, g'. split; [done|]. split; [done|]. intros n scaffolds.
  assert (projectPersistentBuffers persistentBuffers getAllDependencyChains f =
            foldM project (drop (S k) entries) (ds ++ scaffolds) g') as Hgoes.
  { unfold projectPersistentBuffers, bind at 1, get. fold info.
    rewrite bool_decide_eq_true_2 by done. unfold bind at 1. simpl.
    fold entries project.
    assert (entries !! k = Some (buffer, resolution_points)) as Hk.
    { unfold entries. apply lookup_zip_with_Some. by exists buffer, resolution_points. }
    rewrite <- (take_drop_middle entries k _ Hk) at 1.
    rewrite foldM_app, (bind_ok _ _ _ _ _ Hreach). simpl.
    assert (project ds (buffer, resolution_points) g = (g', Ok (ds ++ scaffolds)))
      as Hstep.
    { unfold project, projectBuffer.
      rewrite bool_decide_eq_false_2 by (by intros H; apply H).
      by rewrite (bind_ok _ _ _ _ _ Huses). }
    by rewrite (bind_ok _ _ _ _ _ Hstep). }
  split; [done|]. split; [|split; [done|split; [done|split; [done|split; [|split]]]]].
  - intros Hlast. rewrite Hgoes.
    rewrite drop_ge; [done|]. unfold entries. rewrite length_zip. lia.
  - intros i Hi dup. destruct (HR i Hi) as (Htv & Hdup & Hadd). fold n dup in Htv, Hdup, Hadd.
    unfold domain_of at 1, getMemoryType at 1. by rewrite Htv.
  - intros i use e Hi He.
    pose proof (HD use e He) as Huse.
    destruct (list_find (fun u => definition g u = Some e) recorded) as [[j first]|] eqn:Hfind.
    + apply list_find_Some in Hfind as (Hj & Hfirst & Hbefore).
      exists j, first. split; [|split; [done|split; [done|split; [|split; [done|]]]]].
      * destruct (decide (j <= i)%nat) as [|Hgt]; [done|].
        exfalso. apply (Hbefore i use Hi); [lia|done].
      * intros i' u' Hlt Hi'. by apply (Hbefore i' u' Hi').
      * apply replace_input_clean. unfold n. lia.
    + exfalso. apply list_find_None in Hfind.
      apply (proj1 (Forall_forall _ _) Hfind use); [|done].
      by eapply list_elem_of_lookup_2.
  - intros x e He Hnone. rewrite (HD x e He). f_equal.
    rewrite (proj2 (list_find_None _ _)); [done|].
    apply Forall_forall. intros u Hu. by apply Hnone.
Qed.

End ProjectorClaim.

Lemma ex_buffer_fusion_addresses : addresses_in_use ex_buffer_fusion.
Proof.
  intros e He. simpl in He.
  repeat (apply elem_of_cons in He as [->|He]);
    try (by apply elem_of_nil in He);
    (split; intros v Hv; simpl in Hv;
     repeat (apply elem_of_cons in Hv as [->|Hv]);
     try (by apply elem_of_nil in Hv); simpl; lia).
Qed.

Lemma ex_chains_have_defined_use chain :
  surviving_chain ex_chains ex_buffer_fusion 1 [4%nat; 5%nat] chain ->
  exists use, chain !! 1%nat = Some use /\ is_Some (definition ex_buffer_fusion use).
Proof.
  intros (rp & Hrp & Hc & Hred).
  apply elem_of_cons in Hrp as [->|Hrp].
  - simpl in Hc. apply elem_of_cons in Hc as [->|Hc]; [by vm_compute in Hred|].
    apply list_elem_of_singleton in Hc as ->. exists 4%nat. split; [done|].
    by eexists.
  - apply list_elem_of_singleton in Hrp as ->. simpl in Hc.
    apply list_elem_of_singleton in Hc as ->. by vm_compute in Hred.
Qed.

Lemma projection_of_a_buffer_witness :
  exists recorded g',
    NoDup recorded /\
    (forall u, u ∈ recorded <->
       exists chain,
         surviving_chain ex_chains ex_buffer_fusion 1 [4%nat; 5%nat] chain /\
         chain !! 1%nat = Some u) /\
    projectPersistentBuffers ex_persistentBuffers ex_chains ex_buffer_fusion =
      (g', Ok ([] ++ ((fun i => S (6 + 2 * i)) <$> seq 0 (length recorded)))) /\
    fusion_next g' = (6 + 2 * length recorded)%nat /\
    (forall i, (i < length recorded)%nat ->
       definition g' (6 + 2 * i) =
         Some (mkExpr UnaryOpSet [0%nat] [(6 + 2 * i)%nat]) /\
       definition g' (S (6 + 2 * i)) =
         Some (mkExpr BinaryOpAdd [(6 + 2 * i)%nat; 1%nat] [S (6 + 2 * i)])).
Proof.
  destruct (projection_of_a_buffer ex_persistentBuffers ex_chains
              ex_buffer_fusion ex_buffer_fusion 0 1 [4%nat; 5%nat] [])
    as (recorded & g' & Hnd & Hmem & Hgoes & Hlast & Hnext & _ & _ & Hnew & _).
  - reflexivity.
  - reflexivity.
  - reflexivity.
  - by_evaluation.
  - reflexivity.
  - exact ex_buffer_fusion_addresses.
  - simpl. lia.
  - intros eb Heb. vm_compute in Heb. injection Heb as <-. by_evaluation.
  - exact ex_chains_have_defined_use.
  - exists recorded, g'. split; [done|]. split; [done|].
    split; [by apply Hlast|]. split; [done|].
    intros i Hi. destruct (Hnew i Hi) as (_ & _ & Hdup & Hadd). by split.
Defined.

(** Scenario 5: one recomputed duplicate (node 6) and one scaffold output
    (node 7, the sum of nodes 6 and 1); the sum at node 4 consumes the
    duplicate, the reduction at node 2 still consumes the buffer. *)
Lemma projector_scenario5 :
  exists f',
    projectPersistentBuffers ex_persistentBuffers ex_chains ex_buffer_fusion =
      (f', Ok [7%nat]) /\
    fusion_next f' = 8%nat /\
    domain_of f' 6 = domain_of ex_buffer_fusion 1 /\
    definition f' 7 = Some (mkExpr BinaryOpAdd [6%nat; 1%nat] [7%nat]) /\
    definition f' 4 = Some (mkExpr BinaryOpAdd [6%nat; 3%nat] [4%nat]) /\
    definition f' 2 = Some (mkExpr ReductionOp [1%nat] [2%nat]).
Proof. eexists. split; [by vm_compute|]. repeat split. Qed.

(** * Further properties *)

(** ** The key of an axis and the comparison *)

Lemma class_key_inj c c' : class_key c = class_key c' -> c = c'.
Proof. destruct c, c'; vm_compute; congruence. Qed.

Lemma idPos_le_sorted sort l :
  sort_contract sort -> StronglySorted Z.le (idPos <$> sort id_lt l).
Proof.
  intros [_ Hs]. specialize (Hs l).
  induction Hs as [|a l' Hs IH Ha]; simpl; constructor; [done|].
  apply Forall_fmap. eapply Forall_impl; [exact Ha|].
  intros b Hb. simpl. by apply id_lt_false.
Qed.

(** X1.  [idPos] never reaches its final [return 0]: every axis falls in
    one of the twelve cases before it.  An iteration axis that is not a
    broadcast and not unrolled, vectorized or unswitched takes one of the
    four lowest keys, counted up from the least [int]; every other axis
    takes one of the eight highest, counted down from the greatest. *)
Theorem idPos_final_return_unreachable (id : IterDomain) :
  idPos id <> 0 /\
  (if plain_iteration id
   then INT_MIN <= idPos id <= INT_MIN + 3
   else INT_MAX - 7 <= idPos id <= INT_MAX).
Proof.
  unfold idPos, plain_iteration, isImplicitBroadcast.
  destruct (isReduction id), (isUnrollOrVectorize (getParallelType id)),
    (isConstScalar (extent id)), (ptype_eqb (getParallelType id) Unswitch),
    (isThread id), (isBroadcast id), (isBlockDim id), (isThreadDim id);
    vm_compute; (split; [discriminate|split; discriminate]).
Qed.

(** X2.  [id_lt] is a strict weak ordering, as the comparison handed to
    [std::sort] has to be: no axis is before itself, the relation is
    transitive, and so is being tied; two axes are tied exactly when they
    fall in the same of the twelve cases of [idPos]. *)
Theorem id_lt_strict_weak_order :
  (forall a, id_lt a a = false) /\
  (forall a b c, id_lt a b = true -> id_lt b c = true -> id_lt a c = true) /\
  (forall a b c, tied a b -> tied b c -> tied a c) /\
  (forall a b, tied a b <-> class_of a = class_of b).
Proof.
  unfold tied. split; [|split; [|split]].
  - intros a. apply Z.ltb_irrefl.
  - intros a b c. unfold id_lt. rewrite !Z.ltb_lt. lia.
  - intros a b c [Hab Hba] [Hbc Hcb]. apply id_lt_false in Hab, Hba, Hbc, Hcb.
    split; apply id_lt_false; lia.
  - intros a b. split.
    + intros [H1 H2]. apply id_lt_false in H1, H2.
      apply class_key_inj. rewrite <- !idPos_class_key. lia.
    + intros H. split; apply id_lt_false; rewrite !idPos_class_key, H; lia.
Qed.

(** X3.  The sequence of classes after the reorder of [sortAndRFactor]
    depends neither on the order in which the axes were given nor on the
    sorting procedure: two nodes with the same axes in any order, sorted
    by any two procedures that keep the contract of [std::sort], end with
    the same class at every position. *)
Theorem canonical_classes_unique sort1 sort2 (s t : Sched) :
  sort_contract sort1 -> sort_contract sort2 ->
  distinct_axes (tv_domain (reduction_tv s)) ->
  tv_domain (reduction_tv t) ≡ₚ tv_domain (reduction_tv s) ->
  exists s' t',
    reorderToCanonical sort1 s = (s', Ok tt) /\
    reorderToCanonical sort2 t = (t', Ok tt) /\
    class_of <$> tv_domain (reduction_tv s') = class_of <$> tv_domain (reduction_tv t').
Proof.
  intros H1 H2 Hd Hp.
  assert (distinct_axes (tv_domain (reduction_tv t))) as Hdt
    by (by apply (distinct_axes_perm (tv_domain (reduction_tv s)))).
  destruct (reorderToCanonical_sorted sort1 s Hd (proj1 H1 _)) as (m1 & _ & ->).
  destruct (reorderToCanonical_sorted sort2 t Hdt (proj1 H2 _)) as (m2 & _ & ->).
  eexists. eexists. split; [reflexivity|]. split; [reflexivity|]. simpl.
  assert (idPos <$> sort1 id_lt (tv_domain (reduction_tv s)) =
          idPos <$> sort2 id_lt (tv_domain (reduction_tv t))) as Hkeys.
  { apply (StronglySorted_unique Z.le); try by apply idPos_le_sorted.
    by rewrite (proj1 H1 _), (proj1 H2 _), Hp. }
  revert Hkeys.
  generalize (sort1 id_lt (tv_domain (reduction_tv s))).
  generalize (sort2 id_lt (tv_domain (reduction_tv t))).
  intros l2 l1. revert l2. induction l1 as [|a l1 IH]; intros [|b l2] Hk; try done.
  injection Hk as Hab Hk. simpl. f_equal; [|by apply IH].
  apply class_key_inj. by rewrite <- !idPos_class_key.
Qed.

Lemma canonical_classes_unique_witness :
  exists s' t',
    reorderToCanonical insertion_sort ex_block_node = (s', Ok tt) /\
    reorderToCanonical lib_merge_sort
      (node_of [ex_block_axis; ex_symbolic_axis]) = (t', Ok tt) /\
    class_of <$> tv_domain (reduction_tv s') = class_of <$> tv_domain (reduction_tv t').
Proof.
  apply (canonical_classes_unique insertion_sort lib_merge_sort ex_block_node
           (node_of [ex_block_axis; ex_symbolic_axis])).
  - exact insertion_sort_contract.
  - exact lib_merge_sort_contract.
  - unfold distinct_axes. by_evaluation.
  - apply Permutation_swap.
Defined.

(** ** The staged axes *)

Lemma positions_where_nil f l k :
  positions_where f k l = [] <-> forall id, id ∈ l -> f id = false.
Proof.
  revert k. induction l as [|a l IH]; intros k; simpl.
  - split; [|done]. by intros _ id ?%elem_of_nil.
  - destruct (f a) eqn:Ea.
    + split; [done|]. intros H. specialize (H a). rewrite Ea in H.
      discriminate H. apply elem_of_cons. by left.
    + rewrite IH. split.
      * intros H id [->|Hid]%elem_of_cons; [done|by apply H].
      * intros H id Hid. apply H, elem_of_cons. by right.
Qed.

(** X4.  [sortAndRFactor] hands an empty list of axes to [rfactorHelper]
    exactly in two cases: every reduction axis of the node is
    thread-parallel, or none is and each of them is an unswitched axis of
    extent one (a node without reduction axes is in both). *)
Theorem no_axis_staged_iff (d : list IterDomain) :
  staged_axes d = [] <->
  (forall id, id ∈ d -> isReduction id = true -> isThread id = true) \/
  (forall id, id ∈ d -> isReduction id = true ->
     isThread id = false /\ unswitched_extent_one id = true).
Proof.
  rewrite staged_axes_cases.
  destruct (every_reduction_qualifies d) eqn:E; rewrite positions_where_nil.
  - unfold every_reduction_qualifies in E. rewrite forallb_forall in E. split.
    + intros H. right. intros id Hid Hr.
      specialize (E id (proj1 (list_elem_of_In _ _) Hid)). specialize (H id Hid).
      unfold rfactor_candidate in *. rewrite Hr in *. simpl in *.
      destruct (isThread id); [done|]. simpl in *.
      by destruct (unswitched_extent_one id).
    + intros [H|H] id Hid.
      * specialize (E id (proj1 (list_elem_of_In _ _) Hid)). specialize (H id Hid).
        unfold rfactor_candidate in *.
        destruct (isReduction id); [|done]. simpl in *.
        rewrite H in E by done. done.
      * specialize (H id Hid). unfold rfactor_candidate.
        destruct (isReduction id); [|done]. destruct H as [-> ->]; done.
  - split.
    + intros H. left. intros id Hid Hr. specialize (H id Hid).
      unfold rfactor_candidate in H. rewrite Hr in H. simpl in H.
      by destruct (isThread id).
    + intros [H|H] id Hid.
      * specialize (H id Hid). unfold rfactor_candidate.
        destruct (isReduction id); [|done]. by rewrite H.
      * exfalso.
        assert (every_reduction_qualifies d = true); [|congruence].
        apply forallb_forall. intros x Hx%list_elem_of_In. specialize (H x Hx).
        unfold rfactor_candidate. destruct (isReduction x); [|done].
        destruct H as [-> _]; done.
Qed.

(** ** Runs of the loop-nest builder that complete *)

Lemma runs_ret {A} n (a : A) : runs n n (ret a).
Proof. intros s Hn. by exists s, a. Qed.

Lemma runs_assert_true n msg : runs n n (TORCH_INTERNAL_ASSERT true msg).
Proof. intros s Hn. by exists s, tt. Qed.

Lemma runs_bind {A B} n n1 n' (m : M Sched A) (k : A -> M Sched B) :
  runs n n1 m -> (forall a, runs n1 n' (k a)) -> runs n n' (bind m k).
Proof.
  intros Hm Hk s Hn. destruct (Hm s Hn) as (s1 & a & Hrun & Hn1).
  destruct (Hk a s1 Hn1) as (s' & b & Hrun' & Hn').
  exists s', b. split; [|done]. by rewrite (bind_ok _ _ _ _ _ Hrun).
Qed.

Lemma runs_seq {B} n n1 n' (m : M Sched unit) (k : unit -> M Sched B) :
  runs n n1 m -> runs n1 n' (k tt) -> runs n n' (bind m k).
Proof. intros Hm Hk. apply (runs_bind n n1); [done|]. by intros []. Qed.

Lemma runs_bind_ret {A B} n n' (a : A) (k : A -> M Sched B) :
  runs n n' (k a) -> runs n n' (bind (ret a) k).
Proof. done. Qed.

Lemma runs_bind_assoc {A B C} n n' (m : M Sched A)
    (f : A -> M Sched B) (g : B -> M Sched C) :
  runs n n' (bind m (fun a => bind (f a) g)) -> runs n n' (bind (bind m f) g).
Proof. intros H s. rewrite bind_assoc. apply H. Qed.

Lemma runs_split n axis factor inner_split :
  (axis < n)%nat -> runs n (S n) (split axis factor inner_split).
Proof.
  intros Hlt s Hn. unfold split, nDims in *.
  destruct (lookup_lt_is_Some_2 (tv_domain (reduction_tv s)) axis) as [id Hid]; [lia|].
  rewrite Hid. eexists. exists tt. split; [reflexivity|]. simpl.
  rewrite length_app. simpl. rewrite length_take, length_drop. lia.
Qed.

Lemma runs_parallelize n axis p :
  (axis < n)%nat -> runs n n (axis_parallelize axis p).
Proof.
  intros Hlt s Hn. unfold axis_parallelize, nDims in *.
  destruct (lookup_lt_is_Some_2 (tv_domain (reduction_tv s)) axis) as [id Hid]; [lia|].
  rewrite Hid. eexists. exists tt. split; [reflexivity|]. simpl.
  by rewrite length_insert.
Qed.

Lemma runs_pad n axis :
  (axis < n)%nat -> runs n n (axis_padToMultipleOfWarp axis).
Proof.
  intros Hlt s Hn. unfold axis_padToMultipleOfWarp, nDims in *.
  destruct (lookup_lt_is_Some_2 (tv_domain (reduction_tv s)) axis) as [id Hid]; [lia|].
  rewrite Hid. eexists. exists tt. split; [reflexivity|]. simpl.
  by rewrite length_insert.
Qed.

(** A straight-line chain of binds completes when every axis it names is
    inside the node at that point. *)
Ltac runs_op :=
  first [ apply runs_split; lia
        | apply runs_parallelize; lia
        | apply runs_pad; lia
        | apply runs_assert_true ].

Ltac runs_chain :=
  repeat first
    [ apply runs_bind_assoc
    | apply runs_bind_ret
    | eapply runs_seq; [runs_op|]
    | runs_op
    | apply runs_ret ].

Lemma inner_phase_runs rparams has_iter_axis n :
  (is_outer_grid_persistence rparams = true -> static_bdimy rparams = true) ->
  (inner_reduce_axis rparams has_iter_axis < n)%nat ->
  exists n', (n <= n')%nat /\
    runs n n' (scheduleInnerReduction rparams has_iter_axis).
Proof.
  intros Hstatic Hlt. unfold scheduleInnerReduction.
  destruct (is_outer_grid_persistence rparams).
  - rewrite Hstatic by done. unfold_helpers. destruct_conditions;
      eexists; (split; [|runs_chain]); lia.
  - unfold_helpers. destruct_conditions;
      eexists; (split; [|runs_chain]); lia.
Qed.

Lemma outer_phase_runs rparams n :
  (outer_reduce_axis rparams < n)%nat ->
  exists n', (n <= n')%nat /\ runs n n' (scheduleOuterReduction rparams).
Proof.
  intros Hlt. unfold scheduleOuterReduction.
  unfold_helpers. destruct_conditions;
    eexists; (split; [|runs_chain]); lia.
Qed.

Lemma iter_phase_runs rparams has_iter_axis n :
  (is_outer_grid_persistence rparams = true -> has_iter_axis = true ->
   isParallelTypeThread (block_dim_iter_dom rparams) = true ->
   static_bdimx rparams = true) ->
  (0 < n)%nat ->
  exists n', (n <= n')%nat /\ runs n n' (scheduleIterDomain rparams has_iter_axis).
Proof.
  intros Hstatic Hlt. unfold scheduleIterDomain, iter_axis.
  destruct has_iter_axis; [|exists n; split; [done|apply runs_ret]].
  destruct (is_outer_grid_persistence rparams),
    (isParallelTypeThread (block_dim_iter_dom rparams)); simpl;
    rewrite ?Hstatic by done;
    unfold_helpers; destruct_conditions;
    eexists; (split; [|runs_chain]); lia.
Qed.

Lemma inner_phase_needs_static_bdimy rparams has_iter_axis s :
  is_outer_grid_persistence rparams = true -> static_bdimy rparams = false ->
  scheduleInnerReduction rparams has_iter_axis s = (s, Fatal static_bdimy_error).
Proof. intros Hogp Hs. unfold scheduleInnerReduction. by rewrite Hogp, Hs. Qed.

Lemma iter_phase_needs_static_bdimx rparams s :
  is_outer_grid_persistence rparams = true ->
  isParallelTypeThread (block_dim_iter_dom rparams) = true ->
  static_bdimx rparams = false ->
  is_fatal (scheduleIterDomain rparams true s).2 = true.
Proof.
  intros Hogp Ht Hs. unfold scheduleIterDomain. rewrite Hogp, Ht, Hs.
  unfold when at 1 3. unfold bind at 1.
  destruct (when _ _ s) as [s1 [[]|msg]]; [|done].
  unfold bind at 1. unfold bind at 1. simpl. done.
Qed.

(** X5.  The loop-nest builder (everything [scheduleReductionTV] does
    before it sorts and stages the node) completes exactly when none of
    the five checks at its head is violated and, under outer grid
    persistence, the block sizes it needs are static: the check on the
    number of axes is all it takes for every split and every parallel
    assignment of every branch to name an axis of the node.  A run that
    completes never leaves fewer axes than it found. *)
Theorem loop_nest_completes_iff rparams has_iter_axis (s : Sched) :
  ((exists s', scheduleLoopNest rparams has_iter_axis s = (s', Ok tt)) <->
   ~ preconditions_violated rparams has_iter_axis s /\
   static_dims_missing rparams has_iter_axis = false) /\
  (forall s', scheduleLoopNest rparams has_iter_axis s = (s', Ok tt) ->
     (nDims (reduction_tv s) <= nDims (reduction_tv s'))%nat).
Proof.
  assert (~ preconditions_violated rparams has_iter_axis s ->
          static_dims_missing rparams has_iter_axis = false ->
          exists s', scheduleLoopNest rparams has_iter_axis s = (s', Ok tt) /\
            (nDims (reduction_tv s) <= nDims (reduction_tv s'))%nat) as Hruns.
  { intros Hpre Hst.
    destruct (checkPreconditions_cases rparams has_iter_axis s)
      as [[Hv _]|[_ Hcheck]]; [done|].
    assert (inner_reduce_axis rparams has_iter_axis < nDims (reduction_tv s) /\
            outer_reduce_axis rparams < nDims (reduction_tv s))%nat as [Hi Ho].
    { unfold preconditions_violated in Hpre.
      destruct (decide (nDims (reduction_tv s) <=
                  Nat.max iter_axis (Nat.max (outer_reduce_axis rparams)
                    (inner_reduce_axis rparams has_iter_axis)))%nat); [tauto|lia]. }
    unfold static_dims_missing in Hst.
    destruct (inner_phase_runs rparams has_iter_axis (nDims (reduction_tv s)))
      as (n1 & Hn1 & Hinner); [|done|].
    { intros Hogp. rewrite Hogp in Hst. simpl in Hst.
      by destruct (static_bdimy rparams). }
    destruct (outer_phase_runs rparams n1) as (n2 & Hn2 & Houter); [lia|].
    destruct (iter_phase_runs rparams has_iter_axis n2) as (n3 & Hn3 & Hiter); [|lia|].
    { intros Hogp Hh Ht. rewrite Hogp, Hh, Ht in Hst. simpl in Hst.
      destruct (static_bdimx rparams); [done|]. by rewrite orb_true_r in Hst. }
    destruct (Hinner s eq_refl) as (s1 & [] & Hrun1 & Hd1).
    destruct (Houter s1 Hd1) as (s2 & [] & Hrun2 & Hd2).
    destruct (Hiter s2 Hd2) as (s3 & [] & Hrun3 & Hd3).
    exists s3. split; [|lia]. unfold scheduleLoopNest.
    rewrite (bind_ok _ _ _ _ _ Hcheck), (bind_ok _ _ _ _ _ Hrun1).
    by rewrite (bind_ok _ _ _ _ _ Hrun2). }
  split; [split|].
  - intros [s' Hrun]. unfold scheduleLoopNest in Hrun.
    apply bind_ok_inv in Hrun as (s0 & [] & Hcheck & Hrun).
    destruct (checkPreconditions_cases rparams has_iter_axis s)
      as [(_ & msg & _ & Hc)|[Hpre Hc]]; [congruence|].
    split; [done|]. rewrite Hc in Hcheck. injection Hcheck as <-.
    apply bind_ok_inv in Hrun as (s1 & [] & Hinner & Hrun).
    apply bind_ok_inv in Hrun as (s2 & [] & Houter & Hiter).
    unfold static_dims_missing.
    destruct (is_outer_grid_persistence rparams) eqn:Hogp; [simpl|done].
    destruct (static_bdimy rparams) eqn:Hy; simpl.
    2: { by rewrite inner_phase_needs_static_bdimy in Hinner. }
    destruct has_iter_axis; [simpl|done].
    destruct (isParallelTypeThread (block_dim_iter_dom rparams)) eqn:Ht; [simpl|done].
    destruct (static_bdimx rparams) eqn:Hx; [done|].
    pose proof (iter_phase_needs_static_bdimx rparams s2 Hogp Ht Hx) as Hf.
    by rewrite Hiter in Hf.
  - intros [Hpre Hst]. destruct (Hruns Hpre Hst) as (s' & Hrun & _). eauto.
  - intros s' Hrun.
    destruct (checkPreconditions_cases rparams has_iter_axis s)
      as [(_ & msg & _ & Hc)|[Hpre Hc]].
    { unfold scheduleLoopNest in Hrun. by rewrite (bind_fatal _ _ _ _ _ Hc) in Hrun. }
    destruct (static_dims_missing rparams has_iter_axis) eqn:Hst.
    + exfalso. unfold scheduleLoopNest in Hrun.
      rewrite (bind_ok _ _ _ _ _ Hc) in Hrun.
      apply bind_ok_inv in Hrun as (s1 & [] & Hinner & Hrun).
      apply bind_ok_inv in Hrun as (s2 & [] & Houter & Hiter).
      unfold static_dims_missing in Hst.
      apply andb_true_iff in Hst as [Hogp Hst].
      apply orb_true_iff in Hst as [Hy|Hx].
      * apply negb_true_iff in Hy.
        by rewrite inner_phase_needs_static_bdimy in Hinner.
      * apply andb_true_iff in Hx as [[Hh Ht]%andb_true_iff Hx].
        apply negb_true_iff in Hx. subst has_iter_axis.
        pose proof (iter_phase_needs_static_bdimx rparams s2 Hogp Ht Hx) as Hf.
        by rewrite Hiter in Hf.
    + destruct (Hruns Hpre eq_refl) as (s'' & Hrun' & Hle). congruence.
Qed.

Lemma loop_nest_completes_iff_witness :
  exists s', scheduleLoopNest rparams_scenario3 true ex_2d_node = (s', Ok tt).
Proof.
  apply (proj2 (proj1 (loop_nest_completes_iff rparams_scenario3 true ex_2d_node))).
  split; [|reflexivity].
  intros Hv. vm_compute in Hv. intuition (discriminate || lia).
Defined.

(** ** What a run keeps *)

Lemma preserves_bind {A B} I (m : M Sched A) (k : A -> M Sched B) :
  preserves I m -> (forall a, preserves I (k a)) -> preserves I (bind m k).
Proof.
  intros Hm Hk s Hs. unfold bind. specialize (Hm s Hs).
  destruct (m s) as [s1 [a|msg]]; simpl in *; [by apply Hk|done].
Qed.

Lemma preserves_ret {A} I (a : A) : preserves I (ret a).
Proof. by intros s Hs. Qed.

Lemma preserves_fatal {A} I msg : preserves I (@fatal Sched A msg).
Proof. by intros s Hs. Qed.

Lemma preserves_assert I c msg : preserves I (TORCH_INTERNAL_ASSERT c msg).
Proof. destruct c; by intros s Hs. Qed.

Lemma preserves_get I : preserves I get.
Proof. by intros s Hs. Qed.

Lemma preserves_lift {A} I (r : result A) : preserves I (lift r).
Proof. by intros s Hs. Qed.

Lemma preserves_run {A} I (m : M Sched A) s s' r :
  preserves I m -> I s -> m s = (s', r) -> I s'.
Proof. intros Hm Hs Hrun. specialize (Hm s Hs). by rewrite Hrun in Hm. Qed.

(** A chain of binds keeps what its operations keep. *)
Ltac preserves_chain on_split on_parallelize on_pad :=
  repeat first
    [ apply preserves_bind; [|intros ?]
    | on_split | on_parallelize | on_pad
    | apply preserves_assert
    | apply preserves_ret
    | apply preserves_get
    | apply preserves_fatal
    | apply preserves_lift ].

(** *** Distinct axes *)

Lemma split_fresh_names axis factor inner_split :
  preserves fresh_names (split axis factor inner_split).
Proof.
  intros [[d lg] n] [Hd Hn]. unfold split, split_id. simpl in *.
  destruct (d !! axis) as [id|] eqn:Hid; [|done]. simpl.
  assert (Forall (fun id => (id_name id < n)%nat) (take axis d)) as Ht
    by (by apply Forall_take).
  assert (Forall (fun id => (id_name id < n)%nat) (drop (S axis) d)) as Hdr
    by (by apply Forall_drop).
  split; simpl.
  - unfold distinct_axes in *.
    rewrite <- (take_drop_middle d axis id Hid) in Hd.
    rewrite fmap_app, fmap_cons in Hd. rewrite fmap_app, !fmap_cons. simpl.
    apply NoDup_app in Hd as (H1 & H2 & H3). apply NoDup_cons in H3 as [_ H3].
    apply NoDup_app. split; [done|]. split.
    + intros x Hx Hin.
      apply elem_of_cons in Hin as [->|Hin].
      { apply list_elem_of_fmap in Hx as (y & Hy & Hin).
        rewrite Forall_forall in Ht. specialize (Ht y Hin). lia. }
      apply elem_of_cons in Hin as [->|Hin].
      { apply list_elem_of_fmap in Hx as (y & Hy & Hin).
        rewrite Forall_forall in Ht. specialize (Ht y Hin). lia. }
      apply (H2 x Hx). apply elem_of_cons. by right.
    + apply NoDup_cons. split.
      * intros Hin. apply elem_of_cons in Hin as [?|Hin]; [lia|].
        apply list_elem_of_fmap in Hin as (y & Hy & Hin).
        rewrite Forall_forall in Hdr. specialize (Hdr y Hin). lia.
      * apply NoDup_cons. split; [|done].
        intros Hin. apply list_elem_of_fmap in Hin as (y & Hy & Hin).
        rewrite Forall_forall in Hdr. specialize (Hdr y Hin). lia.
  - apply Forall_app. split.
    + eapply Forall_impl; [exact Ht|]. simpl. lia.
    + constructor; [simpl; lia|]. constructor; [simpl; lia|].
      eapply Forall_impl; [exact Hdr|]. simpl. lia.
Qed.

Lemma fresh_names_insert (d : list IterDomain) lg lg' n axis id id' :
  d !! axis = Some id -> id_name id' = id_name id ->
  fresh_names (mkSched (mkTensorView d lg) n) ->
  fresh_names (mkSched (mkTensorView (<[axis := id']> d) lg') n).
Proof.
  intros Hid Hname [Hd Hn]. simpl in *. split; simpl.
  - unfold distinct_axes in *. rewrite list_fmap_insert, Hname.
    rewrite list_insert_id; [done|]. by rewrite list_lookup_fmap, Hid.
  - apply Forall_insert; [done|]. rewrite Hname.
    rewrite Forall_forall in Hn. apply Hn. by eapply list_elem_of_lookup_2.
Qed.

Lemma parallelize_fresh_names axis p :
  preserves fresh_names (axis_parallelize axis p).
Proof.
  intros [[d lg] n] Hs. unfold axis_parallelize. simpl in *.
  destruct (d !! axis) as [id|] eqn:Hid; [|done]. simpl.
  by eapply fresh_names_insert.
Qed.

Lemma pad_fresh_names axis :
  preserves fresh_names (axis_padToMultipleOfWarp axis).
Proof.
  intros [[d lg] n] Hs. unfold axis_padToMultipleOfWarp. simpl in *.
  destruct (d !! axis) as [id|] eqn:Hid; [|done]. simpl.
  by eapply fresh_names_insert.
Qed.

Ltac fresh_names_chain :=
  preserves_chain ltac:(apply split_fresh_names)
                  ltac:(apply parallelize_fresh_names)
                  ltac:(apply pad_fresh_names).

Lemma loop_nest_fresh_names rparams has_iter_axis :
  preserves fresh_names (scheduleLoopNest rparams has_iter_axis).
Proof.
  unfold scheduleLoopNest.
  apply preserves_bind; [unfold checkPreconditions; fresh_names_chain|intros _].
  apply preserves_bind; [|intros _].
  { unfold scheduleInnerReduction. unfold_helpers. destruct_conditions;
      fresh_names_chain. }
  apply preserves_bind; [|intros _].
  { unfold scheduleOuterReduction. unfold_helpers. destruct_conditions;
      fresh_names_chain. }
  unfold scheduleIterDomain. unfold_helpers. destruct_conditions;
    fresh_names_chain.
Qed.

(** X6.  Outside outer grid persistence, [scheduleReductionTV] can stop
    only at the five checks at its head or inside [rfactorHelper]: on a
    node whose axes are distinct objects, for any sorting procedure that
    keeps the contract of [std::sort], when no check is violated the
    loop nest is built, the reorder to the canonical order succeeds and
    leaves the sorted copy of the axes, and the result is whatever
    [rfactorHelper] returns for the staged axes of that node. *)
Theorem schedule_stops_only_at_checks std_sort rfactorHelper rparams has_iter_axis
    (s : Sched) :
  sort_contract std_sort ->
  fresh_names s ->
  is_outer_grid_persistence rparams = false ->
  ~ preconditions_violated rparams has_iter_axis s ->
  exists s1 s2,
    scheduleLoopNest rparams has_iter_axis s = (s1, Ok tt) /\
    reorderToCanonical std_sort s1 = (s2, Ok tt) /\
    tv_domain (reduction_tv s2) = std_sort id_lt (tv_domain (reduction_tv s1)) /\
    scheduleReductionTV std_sort rfactorHelper rparams has_iter_axis s =
      rfactorHelper (staged_axes (tv_domain (reduction_tv s2))) s2.
Proof.
  intros Hsort Hfresh Hogp Hpre.
  assert (exists s1, scheduleLoopNest rparams has_iter_axis s = (s1, Ok tt))
    as [s1 Hrun1].
  { destruct (checkPreconditions_cases rparams has_iter_axis s)
      as [[Hv _]|[_ Hcheck]]; [done|].
    assert (inner_reduce_axis rparams has_iter_axis < nDims (reduction_tv s) /\
            outer_reduce_axis rparams < nDims (reduction_tv s))%nat as [Hi Ho].
    { unfold preconditions_violated in Hpre.
      destruct (decide (nDims (reduction_tv s) <=
                  Nat.max iter_axis (Nat.max (outer_reduce_axis rparams)
                    (inner_reduce_axis rparams has_iter_axis)))%nat); [tauto|lia]. }
    destruct (inner_phase_runs rparams has_iter_axis (nDims (reduction_tv s)))
      as (n1 & Hn1 & Hinner); [congruence|done|].
    destruct (outer_phase_runs rparams n1) as (n2 & Hn2 & Houter); [lia|].
    destruct (iter_phase_runs rparams has_iter_axis n2) as (n3 & Hn3 & Hiter);
      [congruence|lia|].
    destruct (Hinner s eq_refl) as (t1 & [] & Hr1 & Hd1).
    destruct (Houter t1 Hd1) as (t2 & [] & Hr2 & Hd2).
    destruct (Hiter t2 Hd2) as (t3 & [] & Hr3 & Hd3).
    exists t3. unfold scheduleLoopNest.
    rewrite (bind_ok _ _ _ _ _ Hcheck), (bind_ok _ _ _ _ _ Hr1).
    by rewrite (bind_ok _ _ _ _ _ Hr2). }
  destruct (preserves_run _ _ _ _ _ (loop_nest_fresh_names rparams has_iter_axis)
              Hfresh Hrun1) as [Hd1 _].
  destruct (reorderToCanonical_sorted std_sort s1 Hd1 (proj1 Hsort _))
    as (m & _ & Hrun2).
  exists s1. eexists. split; [done|]. split; [exact Hrun2|]. split; [done|].
  unfold scheduleReductionTV. rewrite (bind_ok _ _ _ _ _ Hrun1), Hogp.
  unfold sortAndRFactor. rewrite bind_assoc, (bind_ok _ _ _ _ _ Hrun2).
  unfold bind at 2, get. unfold bind.
  by destruct (rfactorHelper _ _) as [s3 [rf|msg]].
Qed.

Lemma schedule_stops_only_at_checks_witness :
  exists s1 s2,
    scheduleLoopNest rparams_unrolled_iter true ex_2d_node = (s1, Ok tt) /\
    reorderToCanonical insertion_sort s1 = (s2, Ok tt) /\
    tv_domain (reduction_tv s2) = insertion_sort id_lt (tv_domain (reduction_tv s1)) /\
    scheduleReductionTV insertion_sort rfactorHelper_model rparams_unrolled_iter true
      ex_2d_node =
      rfactorHelper_model (staged_axes (tv_domain (reduction_tv s2))) s2.
Proof.
  apply (schedule_stops_only_at_checks insertion_sort rfactorHelper_model
           rparams_unrolled_iter true ex_2d_node).
  - exact insertion_sort_contract.
  - split; [unfold distinct_axes; by_evaluation|].
    repeat constructor.
  - reflexivity.
  - intros Hv. vm_compute in Hv. intuition (discriminate || lia).
Defined.

(** *** No vectorized axis *)

Lemma split_no_vectorized axis factor inner_split :
  preserves no_vectorized_axis (split axis factor inner_split).
Proof.
  intros [[d lg] n] Hs. unfold split, split_id, no_vectorized_axis in *. simpl in *.
  destruct (d !! axis) as [id|] eqn:Hid; [|done]. simpl.
  apply Forall_app. split; [by apply Forall_take|].
  constructor; [done|]. constructor; [done|]. by apply Forall_drop.
Qed.

Lemma parallelize_no_vectorized axis p :
  p <> Vectorize -> preserves no_vectorized_axis (axis_parallelize axis p).
Proof.
  intros Hp [[d lg] n] Hs. unfold axis_parallelize, no_vectorized_axis in *.
  simpl in *. destruct (d !! axis) as [id|] eqn:Hid; [|done]. simpl.
  by apply Forall_insert.
Qed.

Lemma pad_no_vectorized axis :
  preserves no_vectorized_axis (axis_padToMultipleOfWarp axis).
Proof.
  intros [[d lg] n] Hs. unfold axis_padToMultipleOfWarp, no_vectorized_axis in *.
  simpl in *. destruct (d !! axis) as [id|] eqn:Hid; [|done]. simpl.
  apply Forall_insert; [done|]. rewrite Forall_forall in Hs.
  apply (Hs id). by eapply list_elem_of_lookup_2.
Qed.

Ltac not_vectorize_side :=
  solve [ discriminate
        | let Heq := fresh in
          intros Heq;
          match goal with
          | H : _ = true |- _ => rewrite Heq in H; vm_compute in H; discriminate H
          end ].

Ltac no_vectorized_chain :=
  preserves_chain ltac:(apply split_no_vectorized)
                  ltac:(apply parallelize_no_vectorized; not_vectorize_side)
                  ltac:(apply pad_no_vectorized).

Lemma inner_phase_no_vectorized rparams has_iter_axis :
  hardware_dim_or_none (block_dim_inner_reduction rparams) = true ->
  hardware_dim_or_none (grid_dim_inner_reduction rparams) = true ->
  vectorize_inner_reduction rparams = false ->
  preserves no_vectorized_axis (scheduleInnerReduction rparams has_iter_axis).
Proof.
  intros Hbi Hgi Hvr. unfold scheduleInnerReduction. rewrite Hvr. unfold_helpers.
  destruct_conditions; no_vectorized_chain.
Qed.

Lemma outer_phase_no_vectorized rparams :
  hardware_dim_or_none (block_dim_outer_reduction rparams) = true ->
  hardware_dim_or_none (grid_dim_outer_reduction rparams) = true ->
  preserves no_vectorized_axis (scheduleOuterReduction rparams).
Proof.
  intros Hbo Hgo. unfold scheduleOuterReduction. unfold_helpers.
  destruct_conditions; no_vectorized_chain.
Qed.

Lemma loop_nest_no_vectorized rparams has_iter_axis :
  has_iter_axis && vectorize_iter_dom rparams = false ->
  hardware_dim_or_none (block_dim_inner_reduction rparams) = true ->
  hardware_dim_or_none (grid_dim_inner_reduction rparams) = true ->
  hardware_dim_or_none (block_dim_outer_reduction rparams) = true ->
  hardware_dim_or_none (grid_dim_outer_reduction rparams) = true ->
  vectorize_inner_reduction rparams = false ->
  preserves no_vectorized_axis (scheduleLoopNest rparams has_iter_axis).
Proof.
  intros Hvi Hbi Hgi Hbo Hgo Hvr. unfold scheduleLoopNest.
  apply preserves_bind; [unfold checkPreconditions; no_vectorized_chain|intros _].
  apply preserves_bind; [by apply inner_phase_no_vectorized|intros _].
  apply preserves_bind; [by apply outer_phase_no_vectorized|intros _].
  unfold scheduleIterDomain.
  destruct has_iter_axis; [|apply preserves_ret].
  simpl in Hvi. rewrite Hvi. unfold_helpers. destruct_conditions;
    no_vectorized_chain.
Qed.

Lemma reorder_domain_elements m (d d' : list IterDomain) :
  reorder_domain m d = Ok d' -> forall id, id ∈ d' -> id ∈ d.
Proof.
  unfold reorder_domain. destruct (valid_old2new _ _); [|done].
  intros [= <-] id Hid. apply list_elem_of_omap in Hid as (old & _ & Hold).
  by eapply list_elem_of_lookup_2.
Qed.

Lemma reorder_no_vectorized m : preserves no_vectorized_axis (reorder m).
Proof.
  intros s Hs. unfold reorder, tv_reorder.
  destruct (reorder_domain m (tv_domain (reduction_tv s))) as [d'|msg] eqn:E; [|done].
  unfold no_vectorized_axis in *. simpl. apply Forall_forall. intros id Hid.
  rewrite Forall_forall in Hs. by apply Hs, (reorder_domain_elements _ _ _ E).
Qed.

Lemma reorderToCanonical_no_vectorized std_sort :
  preserves no_vectorized_axis (reorderToCanonical std_sort).
Proof.
  unfold reorderToCanonical.
  apply preserves_bind; [apply preserves_get|intros s0].
  apply preserves_bind; [apply preserves_lift|intros m].
  apply reorder_no_vectorized.
Qed.

Lemma rfactorHelper_model_keeps_parallel_types :
  keeps_parallel_types rfactorHelper_model.
Proof.
  intros axes s s' rf. unfold rfactorHelper_model. intros [= <- <-] id Hid. simpl in Hid.
  apply list_elem_of_lookup in Hid as [i Hi]. rewrite list_lookup_imap in Hi.
  destruct (tv_domain (reduction_tv s) !! i) as [id0|] eqn:Hid0; [|done].
  injection Hi as <-. exists id0. split; [|done]. by eapply list_elem_of_lookup_2.
Qed.

(** X7.  Under outer grid persistence the relocation of the vectorized
    axis needs the vectorization of the iteration domain: when the
    parameters do not vectorize an iteration axis (the block and grid
    dimensions of the reductions naming hardware dimensions or none), the
    node comes without a vectorized axis and the staging helper gives the
    staged node only parallel types of the node, [scheduleReductionTV]
    never returns a node; a run that gets through the loop nest and the
    staging stops with the diagnostic of the missing vectorized axis. *)
Theorem ogp_requires_iter_vectorization std_sort rfactorHelper rparams has_iter_axis
    (s : Sched) :
  is_outer_grid_persistence rparams = true ->
  has_iter_axis && vectorize_iter_dom rparams = false ->
  hardware_dim_or_none (block_dim_inner_reduction rparams) = true ->
  hardware_dim_or_none (grid_dim_inner_reduction rparams) = true ->
  hardware_dim_or_none (block_dim_outer_reduction rparams) = true ->
  hardware_dim_or_none (grid_dim_outer_reduction rparams) = true ->
  keeps_parallel_types rfactorHelper ->
  no_vectorized_axis s ->
  is_fatal (scheduleReductionTV std_sort rfactorHelper rparams has_iter_axis s).2 = true /\
  (forall s1 rf,
     bind (scheduleLoopNest rparams has_iter_axis)
          (fun _ => sortAndRFactor std_sort rfactorHelper) s = (s1, Ok rf) ->
     scheduleReductionTV std_sort rfactorHelper rparams has_iter_axis s =
       (s1, Fatal vectorized_not_found_error)).
Proof.
  intros Hogp Hvi Hbi Hgi Hbo Hgo Hkeep Hs.
  assert (forall s1 rf,
     bind (scheduleLoopNest rparams has_iter_axis)
          (fun _ => sortAndRFactor std_sort rfactorHelper) s = (s1, Ok rf) ->
     scheduleReductionTV std_sort rfactorHelper rparams has_iter_axis s =
       (s1, Fatal vectorized_not_found_error)) as Hstop.
  { intros s1 rf Hrun.
    unfold scheduleReductionTV. rewrite <- bind_assoc, (bind_ok _ _ _ _ _ Hrun), Hogp.
    unfold lift. f_equal. apply moveVectorizedInnermost_none.
    apply bind_ok_inv in Hrun as (t1 & [] & Hnest & Hrun).
    unfold sortAndRFactor in Hrun.
    apply bind_ok_inv in Hrun as (t2 & [] & Hsort & Hrun).
    apply bind_ok_inv in Hrun as (t3 & t3' & Hget & Hrf).
    injection Hget as <- <-.
    assert (vectorize_inner_reduction rparams = false) as Hvr.
    { destruct (checkPreconditions_cases rparams has_iter_axis s)
        as [(_ & msg & _ & Hc)|[Hpre Hc]].
      - unfold scheduleLoopNest in Hnest.
        by rewrite (bind_fatal _ _ _ _ _ Hc) in Hnest.
      - unfold is_outer_grid_persistence in Hogp.
        destruct (vectorize_inner_reduction rparams) eqn:Hv; [|done].
        exfalso. apply Hpre. right. right. left. split; [|done].
        by destruct (fastest_dim rparams), (persistent_kernel rparams),
             (cross_grid_inner_reduction rparams). }
    pose proof (preserves_run _ _ _ _ _
                  (loop_nest_no_vectorized rparams has_iter_axis Hvi Hbi Hgi Hbo Hgo Hvr)
                  Hs Hnest) as H1.
    pose proof (preserves_run _ _ _ _ _
                  (reorderToCanonical_no_vectorized std_sort) H1 Hsort) as H2.
    apply Forall_forall. intros id Hid.
    destruct (Hkeep _ _ _ _ Hrf id Hid) as (id0 & Hid0 & Heq).
    unfold not_vectorized. rewrite Heq.
    unfold no_vectorized_axis in H2. rewrite Forall_forall in H2. by apply H2. }
  split; [|done].
  destruct (bind (scheduleLoopNest rparams has_iter_axis)
              (fun _ => sortAndRFactor std_sort rfactorHelper) s) as [s1 [rf|msg]] eqn:Hrun.
  - by rewrite (Hstop s1 rf).
  - unfold scheduleReductionTV. rewrite <- bind_assoc.
    by rewrite (bind_fatal _ _ _ _ _ Hrun).
Qed.

Lemma ogp_requires_iter_vectorization_witness :
  is_fatal (scheduleReductionTV insertion_sort rfactorHelper_model
              rparams_ogp_no_vectorize true ex_2d_node).2 = true /\
  (forall s1 rf,
     bind (scheduleLoopNest rparams_ogp_no_vectorize true)
          (fun _ => sortAndRFactor insertion_sort rfactorHelper_model) ex_2d_node =
       (s1, Ok rf) ->
     scheduleReductionTV insertion_sort rfactorHelper_model rparams_ogp_no_vectorize
       true ex_2d_node = (s1, Fatal vectorized_not_found_error)).
Proof.
  apply (ogp_requires_iter_vectorization insertion_sort rfactorHelper_model
           rparams_ogp_no_vectorize true ex_2d_node); try reflexivity.
  - exact rfactorHelper_model_keeps_parallel_types.
  - repeat constructor; discriminate.
Defined.

(** ** The layouts of the loop nest *)

Lemma frame_ret {A} (a : A) : suffix_frame (ret a).
Proof. by intros l2 s s' b [= <- <-]. Qed.

Lemma frame_fatal {A} msg : suffix_frame (@fatal Sched A msg).
Proof. by intros l2 s s' b. Qed.

Lemma frame_assert c msg : suffix_frame (TORCH_INTERNAL_ASSERT c msg).
Proof. destruct c; [apply frame_ret|apply frame_fatal]. Qed.

Lemma frame_bind {A B} (m : M Sched A) (k : A -> M Sched B) :
  suffix_frame m -> (forall a, suffix_frame (k a)) -> suffix_frame (bind m k).
Proof.
  intros Hm Hk l2 s s' b Hrun.
  apply bind_ok_inv in Hrun as (s1 & a & Hrun1 & Hrun2).
  rewrite (bind_ok _ _ _ _ _ (Hm l2 _ _ _ Hrun1)). by apply Hk.
Qed.

Lemma frame_if {A} (c : bool) (m1 m2 : M Sched A) :
  suffix_frame m1 -> suffix_frame m2 -> suffix_frame (if c then m1 else m2).
Proof. by destruct c. Qed.

Lemma frame_split axis factor inner_split :
  suffix_frame (split axis factor inner_split).
Proof.
  intros l2 [[d lg] n] s' []. unfold split, with_suffix. simpl.
  destruct (d !! axis) as [id|] eqn:Hid; [|done].
  assert (axis < length d)%nat as Hlt by (by eapply lookup_lt_Some).
  rewrite lookup_app_l, Hid by done. intros [= <-]. simpl.
  rewrite take_app_le, drop_app_le by lia.
  by rewrite <- !app_assoc.
Qed.

Lemma frame_parallelize axis p : suffix_frame (axis_parallelize axis p).
Proof.
  intros l2 [[d lg] n] s' []. unfold axis_parallelize, with_suffix. simpl.
  destruct (d !! axis) as [id|] eqn:Hid; [|done].
  assert (axis < length d)%nat as Hlt by (by eapply lookup_lt_Some).
  rewrite lookup_app_l, Hid by done. intros [= <-]. simpl.
  by rewrite insert_app_l.
Qed.

Lemma frame_pad axis : suffix_frame (axis_padToMultipleOfWarp axis).
Proof.
  intros l2 [[d lg] n] s' []. unfold axis_padToMultipleOfWarp, with_suffix. simpl.
  destruct (d !! axis) as [id|] eqn:Hid; [|done].
  assert (axis < length d)%nat as Hlt by (by eapply lookup_lt_Some).
  rewrite lookup_app_l, Hid by done. intros [= <-]. simpl.
  by rewrite insert_app_l.
Qed.

Ltac frame_chain :=
  repeat first
    [ apply frame_bind; [|intros ?]
    | apply frame_assert
    | apply frame_ret
    | apply frame_fatal
    | apply frame_split
    | apply frame_parallelize
    | apply frame_pad
    | apply frame_if ].

Lemma inner_phase_frame rparams has_iter_axis :
  suffix_frame (scheduleInnerReduction rparams has_iter_axis).
Proof. unfold scheduleInnerReduction. unfold_helpers. frame_chain. Qed.

Lemma outer_phase_frame rparams : suffix_frame (scheduleOuterReduction rparams).
Proof. unfold scheduleOuterReduction. unfold_helpers. frame_chain. Qed.

Lemma iter_phase_frame rparams has_iter_axis :
  suffix_frame (scheduleIterDomain rparams has_iter_axis).
Proof. unfold scheduleIterDomain. unfold_helpers. frame_chain. Qed.

(** A phase that gives a layout to the last axis of a short node gives it
    to that axis in front of any further axes. *)
Lemma layout_with_suffix (m : M Sched unit) l1 id l2 lg n
    (fmt : list AxisFormat) (s : Sched) :
  suffix_frame m ->
  s = mkSched (mkTensorView (l1 ++ id :: l2) lg) n ->
  (exists s0' mid,
     m (mkSched (mkTensorView (l1 ++ [id]) lg) n) = (s0', Ok tt) /\
     tv_domain (reduction_tv s0') = l1 ++ mid /\
     Forall2 (has_format id) mid fmt) ->
  exists s' mid,
    m s = (s', Ok tt) /\
    tv_domain (reduction_tv s') = l1 ++ mid ++ l2 /\
    Forall2 (has_format id) mid fmt.
Proof.
  intros Hframe -> (s0' & mid & Hrun & Hdom & Hfmt).
  exists (with_suffix l2 s0'), mid. split; [|split; [|done]].
  - rewrite <- (Hframe l2 _ _ _ Hrun). unfold with_suffix. simpl.
    by rewrite <- app_assoc.
  - simpl. by rewrite Hdom, <- app_assoc.
Qed.

(** The run of a phase on a short node is settled by evaluation; a case
    whose conditions contradict one another is put aside. *)
Ltac contradictory_case :=
  exfalso; simpl in *; congruence.

Ltac local_layout_run :=
  lazymatch goal with
  | |- exists s' mid, ?run = (s', Ok tt) /\ _ = ?l1 ++ mid /\ _ =>
      let v := eval vm_compute in run in
      lazymatch v with
      | (?s1, Ok tt) =>
          let k := eval vm_compute in (length l1) in
          let mid := eval vm_compute in (drop k (tv_domain (reduction_tv s1))) in
          exists s1, mid; split; [vm_compute; reflexivity|];
          split; [reflexivity|]; repeat constructor
      end
  end.

(** The narrowed factors are left as they are: the run does not depend
    on their values. *)
Ltac abstract_factors :=
  repeat match goal with
         | |- context [to_int ?z] => generalize (to_int z); intro
         end.

Ltac local_layout :=
  first [contradictory_case | abstract_factors; local_layout_run].

Lemma inner_phase_layout_nonpersistent rparams has_iter_axis l1 id l2 (s : Sched) :
  persistent_kernel rparams = false ->
  tv_domain (reduction_tv s) = l1 ++ id :: l2 ->
  length l1 = inner_reduce_axis rparams has_iter_axis ->
  exists s' mid,
    scheduleInnerReduction rparams has_iter_axis s = (s', Ok tt) /\
    tv_domain (reduction_tv s') = l1 ++ mid ++ l2 /\
    Forall2 (has_format id) mid (nonpersistent_inner_format rparams).
Proof.
  intros Hp Hd Hlen. destruct s as [[d lg] n]. simpl in Hd. subst d.
  apply (layout_with_suffix _ l1 id l2 lg n); [apply inner_phase_frame|done|].
  assert (is_outer_grid_persistence rparams = false) as Hogp
    by (unfold is_outer_grid_persistence; by rewrite Hp).
  unfold scheduleInnerReduction, nonpersistent_inner_format.
  rewrite Hogp, Hp. unfold inner_reduce_axis in *.
  destruct (schedule_3D rparams), has_iter_axis;
    destruct l1 as [|x [|y [|z l1]]]; try discriminate Hlen; clear Hlen;
    unfold_helpers; destruct_conditions; local_layout.
Qed.

Lemma inner_phase_layout_persistent rparams has_iter_axis l1 id l2 (s : Sched) :
  persistent_kernel rparams = true ->
  is_outer_grid_persistence rparams = false ->
  tv_domain (reduction_tv s) = l1 ++ id :: l2 ->
  length l1 = inner_reduce_axis rparams has_iter_axis ->
  exists s' mid,
    scheduleInnerReduction rparams has_iter_axis s = (s', Ok tt) /\
    tv_domain (reduction_tv s') = l1 ++ mid ++ l2 /\
    Forall2 (has_format id) mid (persistent_inner_format rparams).
Proof.
  intros Hp Hogp Hd Hlen. destruct s as [[d lg] n]. simpl in Hd. subst d.
  apply (layout_with_suffix _ l1 id l2 lg n); [apply inner_phase_frame|done|].
  unfold scheduleInnerReduction, persistent_inner_format.
  rewrite Hogp, Hp. unfold inner_reduce_axis in *.
  destruct (schedule_3D rparams), has_iter_axis;
    destruct l1 as [|x [|y [|z l1]]]; try discriminate Hlen; clear Hlen;
    unfold_helpers; destruct_conditions; local_layout.
Qed.

(** X8.  The non-persistent format of the inner reduction axis.  When the
    kernel is not persistent, the builder replaces the inner reduction
    axis, whatever the parameters, by axes that read from the outside in:
    the grid split and the remainder (or the remainder alone, bound to
    the grid dimension when the grid is not split off, serial when the
    reduction is not across the grid), an unswitch axis of extent one,
    the unroll axis when the axis is unrolled and not vectorized, the
    thread axis when the reduction is across the block (padded to a
    multiple of the warp if asked), and the vectorized axis last; the
    unroll and the vectorized axis have the extent of the unroll factor
    as their helper receives it, narrowed to [int]; every one of them is
    a reduction axis if the axis was one, and the axes before and after
    are untouched. *)
Theorem nonpersistent_inner_layout rparams has_iter_axis l1 id l2 (s : Sched) :
  persistent_kernel rparams = false ->
  tv_domain (reduction_tv s) = l1 ++ id :: l2 ->
  length l1 = inner_reduce_axis rparams has_iter_axis ->
  exists s' mid,
    scheduleInnerReduction rparams has_iter_axis s = (s', Ok tt) /\
    tv_domain (reduction_tv s') = l1 ++ mid ++ l2 /\
    Forall2 (has_format id) mid (nonpersistent_inner_format rparams).
Proof. apply inner_phase_layout_nonpersistent. Qed.

Lemma nonpersistent_inner_layout_witness :
  exists s' mid,
    scheduleInnerReduction rparams_unrolled_iter true ex_2d_node = (s', Ok tt) /\
    tv_domain (reduction_tv s') =
      [iter_axis_of 0 (NamedScalar "i") Serial] ++ mid ++ [] /\
    Forall2 (has_format (red_axis_of 1 (NamedScalar "r") Serial)) mid
      (nonpersistent_inner_format rparams_unrolled_iter).
Proof.
  apply (nonpersistent_inner_layout rparams_unrolled_iter true
           [iter_axis_of 0 (NamedScalar "i") Serial]
           (red_axis_of 1 (NamedScalar "r") Serial) [] ex_2d_node);
    reflexivity.
Defined.

(** X9.  The persistent format of the inner reduction axis.  When the
    kernel is persistent and the regime is not outer grid persistence,
    the builder replaces the inner reduction axis by axes that read from
    the outside in: the grid split when the reduction is across the
    grid, the persistent buffer of the batch size, an unswitch axis of
    extent one, the unroll axis when the axis is unrolled and not
    vectorized, what remains of the axis bound to the block dimension of
    the parameters (padded to a multiple of the warp if asked), and the
    vectorized axis last; the unroll and the vectorized axis have the
    extent of the unroll factor as their helper receives it, narrowed to
    [int]; the axes before and after are untouched. *)
Theorem persistent_inner_layout rparams has_iter_axis l1 id l2 (s : Sched) :
  persistent_kernel rparams = true ->
  is_outer_grid_persistence rparams = false ->
  tv_domain (reduction_tv s) = l1 ++ id :: l2 ->
  length l1 = inner_reduce_axis rparams has_iter_axis ->
  exists s' mid,
    scheduleInnerReduction rparams has_iter_axis s = (s', Ok tt) /\
    tv_domain (reduction_tv s') = l1 ++ mid ++ l2 /\
    Forall2 (has_format id) mid (persistent_inner_format rparams).
Proof. apply inner_phase_layout_persistent. Qed.

Lemma persistent_inner_layout_witness :
  exists s' mid,
    scheduleInnerReduction rparams_persistent true ex_2d_node = (s', Ok tt) /\
    tv_domain (reduction_tv s') =
      [iter_axis_of 0 (NamedScalar "i") Serial] ++ mid ++ [] /\
    Forall2 (has_format (red_axis_of 1 (NamedScalar "r") Serial)) mid
      (persistent_inner_format rparams_persistent).
Proof.
  apply (persistent_inner_layout rparams_persistent true
           [iter_axis_of 0 (NamedScalar "i") Serial]
           (red_axis_of 1 (NamedScalar "r") Serial) [] ex_2d_node);
    reflexivity.
Defined.

(** X10.  The formats of the outer reduction axis of a three-dimensional
    schedule.  Persistent: the grid split when the reduction is across
    the grid, the persistent buffer of the batch size, the unroll axis
    when the unroll factor exceeds one, and what remains bound to the
    block dimension of the parameters.  Non-persistent: the grid split
    and the remainder, the unroll axis, and the thread axis when the
    reduction is across the block; with none of the three requested the
    axis is left as it is.  The unroll axis has the extent of the unroll
    factor as its helper receives it, narrowed to [int].  The axes before
    and after are untouched. *)
Theorem outer_reduction_layout rparams l1 id l2 (s : Sched) :
  schedule_3D rparams = true ->
  tv_domain (reduction_tv s) = l1 ++ id :: l2 ->
  length l1 = outer_reduce_axis rparams ->
  exists s' mid,
    scheduleOuterReduction rparams s = (s', Ok tt) /\
    tv_domain (reduction_tv s') = l1 ++ mid ++ l2 /\
    Forall2 (has_format id) mid (outer_reduction_format rparams id).
Proof.
  intros H3 Hd Hlen. destruct s as [[d lg] n]. simpl in Hd. subst d.
  apply (layout_with_suffix _ l1 id l2 lg n); [apply outer_phase_frame|done|].
  unfold scheduleOuterReduction, outer_reduction_format, remainder_of, untouched.
  unfold outer_reduce_axis in *. rewrite H3 in *.
  destruct l1 as [|x [|y l1]]; try discriminate Hlen; clear Hlen;
    unfold_helpers; destruct_conditions; local_layout.
Qed.

Lemma outer_reduction_layout_witness :
  exists s' mid,
    scheduleOuterReduction rparams_3d ex_3d_node = (s', Ok tt) /\
    tv_domain (reduction_tv s') =
      [iter_axis_of 0 (NamedScalar "i") Serial] ++ mid ++
      [red_axis_of 2 (NamedScalar "ri") Serial] /\
    Forall2 (has_format (red_axis_of 1 (NamedScalar "ro") Serial)) mid
      (outer_reduction_format rparams_3d (red_axis_of 1 (NamedScalar "ro") Serial)).
Proof.
  apply (outer_reduction_layout rparams_3d
           [iter_axis_of 0 (NamedScalar "i") Serial]
           (red_axis_of 1 (NamedScalar "ro") Serial)
           [red_axis_of 2 (NamedScalar "ri") Serial] ex_3d_node);
    reflexivity.
Defined.

Lemma iter_phase_layout rparams id l2 (s : Sched) :
  is_outer_grid_persistence rparams &&
    isParallelTypeThread (block_dim_iter_dom rparams) &&
    negb (static_bdimx rparams) = false ->
  tv_domain (reduction_tv s) = id :: l2 ->
  exists s' mid,
    scheduleIterDomain rparams true s = (s', Ok tt) /\
    tv_domain (reduction_tv s') = mid ++ l2 /\
    Forall2 (has_format id) mid (iter_domain_format rparams id).
Proof.
  intros Hstatic Hd. destruct s as [[d lg] n]. simpl in Hd. subst d.
  apply (layout_with_suffix _ [] id l2 lg n); [apply iter_phase_frame|done|].
  unfold scheduleIterDomain, iter_domain_format, remainder_of, untouched, iter_axis.
  destruct (is_outer_grid_persistence rparams),
    (isParallelTypeThread (block_dim_iter_dom rparams)),
    (static_bdimx rparams); try discriminate Hstatic; clear Hstatic;
    unfold_helpers; destruct_conditions; local_layout.
Qed.

(** X11.  The format of the iteration axis.  When an iteration axis is
    present (and, under outer grid persistence with the axis bound to a
    block dimension, [blockDim.x] is static), the builder replaces it by
    axes that read from the outside in: the grid axis and the remainder
    when the grid dimension is a hardware dimension and split off on the
    outside, the remainder and then the grid axis when it is split off
    on the inside, the remainder alone bound to the grid dimension when
    it is not split off; the unswitch axis of extent one when the unroll
    factor exceeds one outside outer grid persistence; the unroll axis
    when the axis is unrolled and not vectorized; the thread axis, of
    the static block size under outer grid persistence; and the
    vectorized axis last.  With nothing requested the axis is left as it
    is.  The unroll factor and the static block size are the extents as
    the helpers receive them, narrowed to [int].  The axes after it are
    untouched. *)
Theorem iter_domain_layout rparams id l2 (s : Sched) :
  is_outer_grid_persistence rparams &&
    isParallelTypeThread (block_dim_iter_dom rparams) &&
    negb (static_bdimx rparams) = false ->
  tv_domain (reduction_tv s) = id :: l2 ->
  exists s' mid,
    scheduleIterDomain rparams true s = (s', Ok tt) /\
    tv_domain (reduction_tv s') = mid ++ l2 /\
    Forall2 (has_format id) mid (iter_domain_format rparams id).
Proof. apply iter_phase_layout. Qed.

Lemma iter_domain_layout_witness :
  exists s' mid,
    scheduleIterDomain rparams_unrolled_iter true ex_2d_node = (s', Ok tt) /\
    tv_domain (reduction_tv s') = mid ++ [red_axis_of 1 (NamedScalar "r") Serial] /\
    Forall2 (has_format (iter_axis_of 0 (NamedScalar "i") Serial)) mid
      (iter_domain_format rparams_unrolled_iter
         (iter_axis_of 0 (NamedScalar "i") Serial)).
Proof.
  apply (iter_domain_layout rparams_unrolled_iter
           (iter_axis_of 0 (NamedScalar "i") Serial)
           [red_axis_of 1 (NamedScalar "r") Serial] ex_2d_node);
    reflexivity.
Defined.

(** ** Positions that ignore broadcasts *)

Lemma non_broadcast_rank_0 d : non_broadcast_rank d 0 = 0%nat.
Proof. done. Qed.

Lemma non_broadcast_rank_S a d i :
  non_broadcast_rank (a :: d) (S i) =
    ((if isBroadcast a then 0 else 1) + non_broadcast_rank d i)%nat.
Proof.
  unfold non_broadcast_rank. simpl. rewrite filter_cons.
  destruct (isBroadcast a); case_decide; try congruence; done.
Qed.

Lemma non_broadcast_rank_mono d : forall i j,
  (i <= j)%nat -> (non_broadcast_rank d i <= non_broadcast_rank d j)%nat.
Proof.
  induction d as [|a d IH]; intros i j Hle.
  - unfold non_broadcast_rank. by rewrite !take_nil.
  - destruct i as [|i]; [rewrite non_broadcast_rank_0; lia|].
    destruct j as [|j]; [lia|]. rewrite !non_broadcast_rank_S.
    specialize (IH i j). lia.
Qed.

Lemma non_broadcast_rank_lt d : forall i j id,
  d !! i = Some id -> isBroadcast id = false -> (i < j)%nat ->
  (non_broadcast_rank d i < non_broadcast_rank d j)%nat.
Proof.
  induction d as [|a d IH]; intros i j id Hi Hb Hlt; [done|].
  destruct j as [|j]; [lia|]. rewrite non_broadcast_rank_S.
  destruct i as [|i]; simpl in Hi.
  - injection Hi as ->. rewrite Hb, non_broadcast_rank_0. lia.
  - rewrite non_broadcast_rank_S. specialize (IH i j id Hi Hb). lia.
Qed.

Lemma non_broadcast_rank_inj d i j a b :
  d !! i = Some a -> d !! j = Some b ->
  isBroadcast a = false -> isBroadcast b = false ->
  non_broadcast_rank d i = non_broadcast_rank d j -> i = j.
Proof.
  intros Hi Hj Ha Hb Heq.
  destruct (Nat.lt_trichotomy i j) as [Hlt|[->|Hlt]]; [|done|].
  - pose proof (non_broadcast_rank_lt d i j a Hi Ha Hlt). lia.
  - pose proof (non_broadcast_rank_lt d j i b Hj Hb Hlt). lia.
Qed.

Lemma addBackBroadcasts_from_spec axes (S : gset nat) : forall i0 p0 x,
  x ∈ addBackBroadcasts_from i0 axes S p0 <->
  exists j id, x = (i0 + j)%nat /\ axes !! j = Some id /\ isBroadcast id = false /\
               (p0 + non_broadcast_rank axes j)%nat ∈ S.
Proof.
  induction axes as [|a axes IH]; intros i0 p0 x; simpl.
  - split; [by intros ?%elem_of_nil|]. by intros (j & id & _ & H & _).
  - assert (forall p, x ∈ addBackBroadcasts_from (Datatypes.S i0) axes S p <->
              exists j id, x = (i0 + Datatypes.S j)%nat /\ axes !! j = Some id /\
                isBroadcast id = false /\ (p + non_broadcast_rank axes j)%nat ∈ S)
      as IH'.
    { intros p. rewrite IH. by setoid_rewrite Nat.add_succ_r. }
    destruct (isBroadcast a) eqn:Ha.
    + rewrite IH'. split.
      * intros (j & id & -> & Hj & Hb & Hin). exists (Datatypes.S j), id.
        rewrite non_broadcast_rank_S, Ha. done.
      * intros ([|j] & id & -> & Hj & Hb & Hin); simpl in Hj; [congruence|].
        rewrite non_broadcast_rank_S, Ha in Hin. by exists j, id.
    + case_bool_decide as Hp; [rewrite elem_of_cons|]; rewrite IH'; split.
      * intros [->|(j & id & -> & Hj & Hb & Hin)].
        -- exists 0%nat, a. rewrite non_broadcast_rank_0, !Nat.add_0_r. done.
        -- exists (Datatypes.S j), id. rewrite non_broadcast_rank_S, Ha.
           repeat split; try done. by replace (p0 + (1 + non_broadcast_rank axes j))%nat
             with (Datatypes.S p0 + non_broadcast_rank axes j)%nat by lia.
      * intros ([|j] & id & -> & Hj & Hb & Hin); simpl in Hj.
        -- left. lia.
        -- right. rewrite non_broadcast_rank_S, Ha in Hin. exists j, id.
           repeat split; try done. by replace (Datatypes.S p0 + non_broadcast_rank axes j)%nat
             with (p0 + (1 + non_broadcast_rank axes j))%nat by lia.
      * intros (j & id & -> & Hj & Hb & Hin). exists (Datatypes.S j), id.
        rewrite non_broadcast_rank_S, Ha.
        repeat split; try done. by replace (p0 + (1 + non_broadcast_rank axes j))%nat
          with (Datatypes.S p0 + non_broadcast_rank axes j)%nat by lia.
      * intros ([|j] & id & -> & Hj & Hb & Hin); simpl in Hj.
        -- injection Hj as <-. rewrite non_broadcast_rank_0, Nat.add_0_r in Hin. done.
        -- rewrite non_broadcast_rank_S, Ha in Hin. exists j, id.
           repeat split; try done. by replace (Datatypes.S p0 + non_broadcast_rank axes j)%nat
             with (p0 + (1 + non_broadcast_rank axes j))%nat by lia.
Qed.

Lemma addBackBroadcasts_from_sorted axes (S : gset nat) : forall i0 p0,
  StronglySorted lt (addBackBroadcasts_from i0 axes S p0).
Proof.
  induction axes as [|a axes IH]; intros i0 p0; simpl; [constructor|].
  destruct (isBroadcast a); [apply IH|].
  case_bool_decide; [|apply IH]. constructor; [apply IH|].
  apply Forall_forall. intros x Hx.
  apply addBackBroadcasts_from_spec in Hx as (j & id & -> & _). lia.
Qed.

Lemma addBackBroadcasts_from_length axes (S : gset nat) : forall i0 p0,
  (length (addBackBroadcasts_from i0 axes S p0) <=
     length (filter (fun id => isBroadcast id = false) axes))%nat.
Proof.
  induction axes as [|a axes IH]; intros i0 p0; simpl; [done|].
  rewrite filter_cons. destruct (isBroadcast a); case_decide; try congruence.
  - apply IH.
  - case_bool_decide; simpl; [apply le_n_S, IH|]. by apply Nat.le_le_succ_r, IH.
Qed.

(** X12.  [addBackBroadcasts] turns positions that ignore broadcasts into
    raw positions: a raw position is returned exactly when it is inside
    the node, its axis is not a broadcast, and the number of
    non-broadcast axes before it is in the given set.  The positions
    come in increasing order, none twice; a member of the set that is
    not below the number of non-broadcast axes gives nothing. *)
Theorem addBackBroadcasts_positions (f : Fusion) (tv : nat) (S : gset nat) :
  (forall i,
     i ∈ addBackBroadcasts f tv S <->
     exists id, domain_of f tv !! i = Some id /\ isBroadcast id = false /\
                non_broadcast_rank (domain_of f tv) i ∈ S) /\
  StronglySorted lt (addBackBroadcasts f tv S) /\
  (length (addBackBroadcasts f tv S) <=
     length (filter (fun id => isBroadcast id = false) (domain_of f tv)))%nat.
Proof.
  unfold addBackBroadcasts. split; [|split].
  - intros i. rewrite addBackBroadcasts_from_spec. split.
    + intros (j & id & -> & Hj & Hb & Hin). by exists id.
    + intros (id & Hi & Hb & Hin). by exists i, id.
  - apply addBackBroadcasts_from_sorted.
  - apply addBackBroadcasts_from_length.
Qed.

Lemma non_broadcast_rfactor_positions_spec axes : forall p acc q,
  q ∈ non_broadcast_rfactor_positions axes p acc <->
  q ∈ acc \/
  exists j id, axes !! j = Some id /\ isBroadcast id = false /\
               staged_reduction id = true /\
               q = (p + non_broadcast_rank axes j)%nat.
Proof.
  unfold staged_reduction.
  induction axes as [|a axes IH]; intros p acc q; simpl.
  - split; [by left|]. intros [?|(j & id & H & _)]; done.
  - destruct (isBroadcast a) eqn:Ha.
    + rewrite IH. split.
      * intros [?|(j & id & Hj & Hb & Hs & ->)]; [by left|right].
        exists (S j), id. rewrite non_broadcast_rank_S, Ha. done.
      * intros [?|(j & id & Hj & Hb & Hs & ->)]; [by left|right].
        destruct j as [|j]; simpl in Hj; [congruence|].
        rewrite non_broadcast_rank_S, Ha. by exists j, id.
    + rewrite IH. destruct (isReduction a && isRFactorProduct a) eqn:Hs.
      * rewrite elem_of_union, elem_of_singleton. split.
        -- intros [[->|?]|(j & id & Hj & Hb & Hs' & ->)].
           ++ right. exists 0%nat, a. rewrite non_broadcast_rank_0, Nat.add_0_r. done.
           ++ by left.
           ++ right. exists (S j), id. rewrite non_broadcast_rank_S, Ha.
              repeat split; try done. lia.
        -- intros [?|(j & id & Hj & Hb & Hs' & ->)]; [left; by right|].
           destruct j as [|j]; simpl in Hj.
           ++ left. left. rewrite non_broadcast_rank_0. lia.
           ++ right. exists j, id. rewrite non_broadcast_rank_S, Ha.
              repeat split; try done. lia.
      * split.
        -- intros [?|(j & id & Hj & Hb & Hs' & ->)]; [by left|].
           right. exists (S j), id. rewrite non_broadcast_rank_S, Ha.
           repeat split; try done. lia.
        -- intros [?|(j & id & Hj & Hb & Hs' & ->)]; [by left|].
           destruct j as [|j]; simpl in Hj.
           ++ injection Hj as <-. congruence.
           ++ right. exists j, id. rewrite non_broadcast_rank_S, Ha.
              repeat split; try done. lia.
Qed.

(** X13.  The staging of the other reductions matches axes by their
    position among the non-broadcast axes.  With the set that the driver
    collects from the reference node, [addBackBroadcasts] returns a raw
    position of a node exactly when the axis there is not a broadcast and
    the non-broadcast axis of the reference with the same position
    ignoring broadcasts is a staged reduction axis, however many
    broadcasts either node has.  On the reference node itself it returns
    the raw positions of its staged reduction axes that are not
    broadcasts. *)
Theorem staged_positions_round_trip (f : Fusion) (reference_tv tv : nat) :
  let staged :=
    non_broadcast_rfactor_positions (domain_of f reference_tv) 0 ∅ in
  (forall i,
     i ∈ addBackBroadcasts f tv staged <->
     exists id j ref_id,
       domain_of f tv !! i = Some id /\ isBroadcast id = false /\
       domain_of f reference_tv !! j = Some ref_id /\
       isBroadcast ref_id = false /\ staged_reduction ref_id = true /\
       non_broadcast_rank (domain_of f reference_tv) j =
         non_broadcast_rank (domain_of f tv) i) /\
  (forall i,
     i ∈ addBackBroadcasts f reference_tv staged <->
     exists ref_id,
       domain_of f reference_tv !! i = Some ref_id /\
       isBroadcast ref_id = false /\ staged_reduction ref_id = true).
Proof.
  intros staged.
  assert (forall tv' i,
     i ∈ addBackBroadcasts f tv' staged <->
     exists id j ref_id,
       domain_of f tv' !! i = Some id /\ isBroadcast id = false /\
       domain_of f reference_tv !! j = Some ref_id /\
       isBroadcast ref_id = false /\ staged_reduction ref_id = true /\
       non_broadcast_rank (domain_of f reference_tv) j =
         non_broadcast_rank (domain_of f tv') i) as Hgen.
  { intros tv' i. unfold addBackBroadcasts.
    rewrite addBackBroadcasts_from_spec. subst staged. split.
    - intros (j & id & -> & Hj & Hb & Hin).
      apply non_broadcast_rfactor_positions_spec in Hin
        as [Hin|(k & rid & Hk & Hrb & Hs & Heq)]; [by apply elem_of_empty in Hin|].
      exists id, k, rid. repeat split; try done; simpl in *; lia.
    - intros (id & j & rid & Hi & Hb & Hj & Hrb & Hs & Heq).
      exists i, id. repeat split; try done.
      apply non_broadcast_rfactor_positions_spec. right.
      exists j, rid. repeat split; try done; simpl; lia. }
  split; [apply Hgen|].
  intros i. rewrite Hgen. split.
  - intros (id & j & rid & Hi & Hb & Hj & Hrb & Hs & Heq).
    assert (j = i) as -> by (by eapply non_broadcast_rank_inj).
    exists rid. done.
  - intros (rid & Hi & Hb & Hs). by exists rid, i, rid.
Qed.

(** ** The driver: expressions, outputs and parallel types *)

Lemma parallelize_parallelize p q id :
  parallelize q (parallelize p id) = parallelize q id.
Proof. done. Qed.

Lemma retyped_refl types f : retyped types f f.
Proof. intros tv i id Hid. exists id. auto. Qed.

Lemma retyped_trans types f1 f2 f3 :
  retyped types f1 f2 -> retyped types f2 f3 -> retyped types f1 f3.
Proof.
  intros H12 H23 tv i id Hid.
  destruct (H23 tv i id Hid) as (id2 & Hid2 & H2).
  destruct (H12 tv i id2 Hid2) as (id1 & Hid1 & H1).
  exists id1. split; [done|].
  destruct H2 as [->|(q & Hq & ->)]; [done|]. right. exists q. split; [done|].
  destruct H1 as [->|(p & Hp & ->)]; done.
Qed.

Lemma retyped_mono types types' f f' :
  (forall p, p ∈ types -> p ∈ types') -> retyped types f f' -> retyped types' f f'.
Proof.
  intros Hsub H tv i id Hid. destruct (H tv i id Hid) as (id0 & Hid0 & [->|(p & Hp & ->)]).
  - exists id0. auto.
  - exists id0. split; [done|]. right. exists p. auto.
Qed.

Lemma retyped_foldl {A} types (step : Fusion -> A -> Fusion) l :
  (forall f a, retyped types f (step f a)) ->
  forall f, retyped types f (foldl step f l).
Proof.
  intros Hstep. induction l as [|a l IH]; intros f; simpl; [apply retyped_refl|].
  eapply retyped_trans; [apply Hstep|apply IH].
Qed.

Lemma domain_of_set_domain tv d f tv' :
  domain_of (set_domain tv d f) tv' =
    if decide (tv' = tv)
    then match fusion_tvs f !! tv with Some _ => d | None => [] end
    else domain_of f tv'.
Proof.
  unfold domain_of, set_domain. simpl. case_decide as Heq.
  - subst tv'. rewrite lookup_alter_eq. by destruct (fusion_tvs f !! tv).
  - by rewrite lookup_alter_ne.
Qed.

Lemma domain_of_tv_axis_parallelize tv i p f tv' :
  domain_of (tv_axis_parallelize tv i p f) tv' =
    if decide (tv' = tv) then alter (parallelize p) i (domain_of f tv)
    else domain_of f tv'.
Proof.
  unfold tv_axis_parallelize. rewrite domain_of_set_domain.
  case_decide; [|done]. unfold domain_of.
  by destruct (fusion_tvs f !! tv).
Qed.

Lemma retyped_tv_axis_parallelize types tv i p f :
  p ∈ types -> retyped types f (tv_axis_parallelize tv i p f).
Proof.
  intros Hp tv' j id. rewrite domain_of_tv_axis_parallelize.
  case_decide as Heq; [subst tv'|by eauto].
  destruct (decide (i = j)) as [->|Hne].
  - rewrite list_lookup_alter_eq.
    destruct (domain_of f tv !! j) as [id0|]; [|done].
    intros [= <-]. exists id0. split; [done|]. right. by exists p.
  - rewrite list_lookup_alter_ne by done. eauto.
Qed.

Section DriverFrame.

Variable propagateTransforms : nat -> Fusion -> Fusion.
Variable rfactorHelperOf : nat -> list nat -> Fusion -> Fusion.
Variable mapped_axis : Fusion -> nat -> nat -> nat -> option nat.
Variable getInputsOutputsWithInnerDim : Fusion -> nat -> list nat.
Variable inline_position : Fusion -> nat -> nat.
Variable rparams : ReductionParams.
Variables reduction_tv reference_tv : nat.
Variables reduction_tvs cached_inputs : list nat.
Variable cached_outputs : list (nat * nat).
Variable dummy_outputs : list nat.

Lemma retyped_parallelizeAllLike ref pos sel types f :
  retyped types f (parallelizeAllLike mapped_axis ref pos sel types f).
Proof.
  intros tv i id. rewrite domain_of_parallelizeAllLike.
  destruct (_ || _); [|by eauto].
  rewrite list_lookup_imap.
  destruct (domain_of f tv !! i) as [id0|]; [|done]. simpl.
  intros [= <-]. exists id0. split; [done|].
  destruct (propagated_type _ _ _ _ _ _ _) as [p|] eqn:Hp; [|by left].
  apply propagated_type_Some in Hp as [Hp _]. right. by exists p.
Qed.

Lemma retyped_clear_axis tv i f :
  retyped [Serial; Group] f (clear_axis rparams reduction_tvs tv i f).
Proof.
  unfold clear_axis. destruct (domain_of f tv !! i) as [id|]; [|apply retyped_refl].
  destruct (_ && _).
  - eapply retyped_trans; [|apply retyped_foldl].
    + apply retyped_tv_axis_parallelize. by_evaluation.
    + intros g sibling. apply retyped_tv_axis_parallelize. by_evaluation.
  - destruct (isUnrollOrVectorize _); [|apply retyped_refl].
    eapply retyped_trans; [|apply retyped_foldl].
    + apply retyped_tv_axis_parallelize. by_evaluation.
    + intros g sibling. apply retyped_tv_axis_parallelize. by_evaluation.
Qed.

Lemma retyped_clearUnrollOfReference are_unrolled f :
  retyped [Serial; Group] f
    (clearUnrollOfReference rparams reduction_tv reference_tv reduction_tvs
       are_unrolled f).
Proof.
  unfold clearUnrollOfReference. apply retyped_foldl.
  intros g tv. case_bool_decide; [|apply retyped_refl].
  apply retyped_foldl. intros h i. apply retyped_clear_axis.
Qed.

Lemma retyped_regroupAllreduce f :
  retyped [Serial; Group] f
    (regroupAllreduce mapped_axis reduction_tv reduction_tvs f).
Proof.
  unfold regroupAllreduce. case_bool_decide; [|apply retyped_refl].
  apply (retyped_mono [Group]); [|apply retyped_parallelizeAllLike].
  intros p ->%list_elem_of_singleton. by_evaluation.
Qed.

Lemma propagateUnrollVectorize_other are_unrolled f tv :
  tv ∉ are_unrolled ->
  domain_of (propagateUnrollVectorize mapped_axis reference_tv are_unrolled f) tv =
    domain_of f tv.
Proof.
  intros Hnin. unfold propagateUnrollVectorize. case_bool_decide as Hne; [|done].
  rewrite domain_of_parallelizeAllLike.
  rewrite (bool_decide_eq_false_2 (elements are_unrolled = [])).
  - rewrite bool_decide_eq_false_2; [done|]. by rewrite elem_of_elements.
  - intros Hnil. apply Hne. by apply elements_empty_inv in Hnil as ->%leibniz_equiv.
Qed.

Lemma not_unroll_type_of_serial_group p :
  p ∈ [Serial; Group] -> isUnrollOrVectorize p = false.
Proof.
  intros [->|[->|H%elem_of_nil]%elem_of_cons]%elem_of_cons; done.
Qed.

(** X14.  Unroll, vectorize and misaligned-vectorize assignments reach
    the boundary nodes only.  An axis that carries one of the three at
    the end of the driver is an axis the node had, with that assignment,
    after the staging of the other reductions, unless unrolling was
    requested and the node is one of the cached inputs or outputs that
    the driver selected for unrolling: the general propagation leaves the
    three types out, the propagation of the three is restricted to the
    selected nodes and skipped when none is selected, and the later
    steps assign serial and group only. *)
Theorem unroll_reaches_selected_nodes_only (f : Fusion) :
  let staged :=
    propagateAndStage propagateTransforms rfactorHelperOf reduction_tv reference_tv
      reduction_tvs f in
  let propagated := propagateParallelization mapped_axis reference_tv staged in
  let final :=
    multiReductionInliner propagateTransforms rfactorHelperOf mapped_axis
      getInputsOutputsWithInnerDim inline_position rparams reduction_tv reference_tv
      reduction_tvs cached_inputs cached_outputs dummy_outputs f in
  forall tv i id,
    domain_of final tv !! i = Some id ->
    isUnrollOrVectorize (getParallelType id) = true ->
    domain_of staged tv !! i = Some id \/
    (isUnrolled rparams = true /\
     tv ∈ are_unrolled_of getInputsOutputsWithInnerDim rparams reference_tv
            cached_inputs cached_outputs propagated).
Proof.
  intros staged propagated final tv i id Hid Hty.
  assert (forall id', domain_of propagated tv !! i = Some id' ->
            isUnrollOrVectorize (getParallelType id') = true ->
            domain_of staged tv !! i = Some id') as Hgeneral.
  { intros id' Hid' Hty'.
    destruct (retyped_parallelizeAllLike reference_tv (-1) []
                (allParallelTypesExcept [Unroll; Vectorize; MisalignedVectorize])
                staged tv i id' Hid') as (id0 & Hid0 & [->|(p & Hp & ->)]); [done|].
    exfalso. unfold allParallelTypesExcept in Hp.
    apply list_elem_of_filter in Hp as [Hp _]. simpl in Hty'.
    destruct p; try discriminate; apply Hp; by_evaluation. }
  subst final. unfold multiReductionInliner in Hid.
  rewrite domain_of_removeDummiesAndInline in Hid. fold staged propagated in Hid.
  destruct (isUnrolled rparams) eqn:Hunroll; [|left; by apply Hgeneral].
  unfold unrollBlock, beforeRegroup in Hid.
  set (au := are_unrolled_of getInputsOutputsWithInnerDim rparams reference_tv
               cached_inputs cached_outputs propagated) in *.
  destruct (decide (tv ∈ au)) as [Hin|Hnin]; [by right|left].
  apply Hgeneral; [|done].
  apply retyped_regroupAllreduce in Hid as (id1 & Hid1 & [->|(p & Hp & ->)]).
  2: { simpl in Hty. by rewrite not_unroll_type_of_serial_group in Hty. }
  apply retyped_clearUnrollOfReference in Hid1 as (id2 & Hid2 & [->|(p & Hp & ->)]).
  2: { simpl in Hty. by rewrite not_unroll_type_of_serial_group in Hty. }
  by rewrite propagateUnrollVectorize_other in Hid2.
Qed.

Lemma same_skeleton_refl f : same_skeleton f f.
Proof. done. Qed.

Lemma same_skeleton_trans f1 f2 f3 :
  same_skeleton f1 f2 -> same_skeleton f2 f3 -> same_skeleton f1 f3.
Proof. intros [H1 H2] [H3 H4]. split; congruence. Qed.

Lemma same_skeleton_foldl {A} (step : Fusion -> A -> Fusion) l :
  (forall f a, same_skeleton f (step f a)) ->
  forall f, same_skeleton f (foldl step f l).
Proof.
  intros Hstep. induction l as [|a l IH]; intros f; simpl; [done|].
  eapply same_skeleton_trans; [apply Hstep|apply IH].
Qed.

Lemma same_skeleton_clear_axis tv i f :
  same_skeleton f (clear_axis rparams reduction_tvs tv i f).
Proof.
  unfold clear_axis. destruct (domain_of f tv !! i) as [id|]; [|done].
  destruct (_ && _).
  - eapply same_skeleton_trans; [|apply same_skeleton_foldl]; done.
  - destruct (isUnrollOrVectorize _); [|done].
    eapply same_skeleton_trans; [|apply same_skeleton_foldl]; done.
Qed.

Lemma same_skeleton_regroupAllreduce f :
  same_skeleton f (regroupAllreduce mapped_axis reduction_tv reduction_tvs f).
Proof. unfold regroupAllreduce. by case_bool_decide. Qed.

Lemma same_skeleton_propagateUnrollVectorize are_unrolled f :
  same_skeleton f (propagateUnrollVectorize mapped_axis reference_tv are_unrolled f).
Proof. unfold propagateUnrollVectorize. by case_bool_decide. Qed.

Lemma same_skeleton_clearUnrollOfReference are_unrolled f :
  same_skeleton f
    (clearUnrollOfReference rparams reduction_tv reference_tv reduction_tvs
       are_unrolled f).
Proof.
  unfold clearUnrollOfReference. apply same_skeleton_foldl.
  intros g tv. case_bool_decide; [|done].
  apply same_skeleton_foldl. intros h i. apply same_skeleton_clear_axis.
Qed.

Lemma same_skeleton_unrollBlock f :
  same_skeleton f
    (unrollBlock mapped_axis getInputsOutputsWithInnerDim rparams reduction_tv
       reference_tv reduction_tvs cached_inputs cached_outputs f).
Proof.
  unfold unrollBlock, beforeRegroup.
  eapply same_skeleton_trans; [|apply same_skeleton_regroupAllreduce].
  eapply same_skeleton_trans; [|apply same_skeleton_clearUnrollOfReference].
  apply same_skeleton_propagateUnrollVectorize.
Qed.

Lemma outputs_removed outs : forall f,
  fusion_outputs (foldl (fun f o => removeOutput o f) f outs) =
    filter (fun o => o ∉ outs) (fusion_outputs f) /\
  fusion_exprs (foldl (fun f o => removeOutput o f) f outs) = fusion_exprs f.
Proof.
  induction outs as [|o outs IH]; intros f; simpl.
  - split; [|done]. induction (fusion_outputs f) as [|x l IHl]; [done|].
    rewrite filter_cons_True by apply not_elem_of_nil. by f_equal.
  - destruct (IH (removeOutput o f)) as [-> ->]. split; [|done]. simpl.
    rewrite list_filter_filter. apply list_filter_iff. intros x.
    rewrite not_elem_of_cons. tauto.
Qed.

(** X15.  The driver changes neither the expressions nor, apart from the
    dummy outputs, the outputs of the graph that the transformation
    propagation and the staging of the other reductions left: at the end
    the expressions are the same, the outputs are the same in their
    order without the dummy outputs, and no dummy output is an output. *)
Theorem driver_keeps_graph (f : Fusion) :
  let staged :=
    propagateAndStage propagateTransforms rfactorHelperOf reduction_tv reference_tv
      reduction_tvs f in
  let final :=
    multiReductionInliner propagateTransforms rfactorHelperOf mapped_axis
      getInputsOutputsWithInnerDim inline_position rparams reduction_tv reference_tv
      reduction_tvs cached_inputs cached_outputs dummy_outputs f in
  fusion_exprs final = fusion_exprs staged /\
  fusion_outputs final =
    filter (fun o => o ∉ dummy_outputs) (fusion_outputs staged) /\
  Forall (fun o => o ∉ fusion_outputs final) dummy_outputs.
Proof.
  intros staged final.
  assert (fusion_exprs final = fusion_exprs staged /\
          fusion_outputs final =
            filter (fun o => o ∉ dummy_outputs) (fusion_outputs staged)) as [He Ho].
  { subst final. unfold multiReductionInliner, removeDummiesAndInline. fold staged.
    unfold inlineMost. simpl.
    match goal with
    | |- context [foldl _ ?g dummy_outputs] =>
        destruct (outputs_removed dummy_outputs g) as [-> ->];
        assert (same_skeleton staged g) as [-> ->]; [|done]
    end.
    destruct (isUnrolled rparams); [|done].
    eapply same_skeleton_trans; [|apply same_skeleton_unrollBlock]. done. }
  split; [done|]. split; [done|].
  apply Forall_forall. intros o Hin. rewrite Ho.
  intros [Hn _]%list_elem_of_filter. done.
Qed.

Lemma foldl_tv_axis_parallelize_other tv i p (siblings : list nat) : forall f,
  tv ∉ siblings ->
  domain_of (foldl (fun f sibling => tv_axis_parallelize sibling i p f) f siblings) tv =
    domain_of f tv.
Proof.
  induction siblings as [|sb siblings IH]; intros f Hn; simpl; [done|].
  apply not_elem_of_cons in Hn as [Hne Hn].
  rewrite IH by done. rewrite domain_of_tv_axis_parallelize.
  by rewrite decide_False.
Qed.

Lemma not_sibling_of_itself f tv : tv ∉ siblingTvsOf f tv.
Proof.
  unfold siblingTvsOf. destruct (definition f tv); [|apply not_elem_of_nil].
  by intros [? _]%list_elem_of_filter.
Qed.

Lemma clear_axis_at tv i f id :
  domain_of f tv !! i = Some id ->
  exists id',
    domain_of (clear_axis rparams reduction_tvs tv i f) tv !! i = Some id' /\
    isUnrollOrVectorize (getParallelType id') = false.
Proof.
  intros Hid. unfold clear_axis. rewrite Hid.
  destruct (_ && _).
  - exists (parallelize Group id). split; [|done].
    rewrite foldl_tv_axis_parallelize_other by apply not_sibling_of_itself.
    rewrite domain_of_tv_axis_parallelize, decide_True by done.
    by rewrite list_lookup_alter_eq, Hid.
  - destruct (isUnrollOrVectorize (getParallelType id)) eqn:Hty.
    + exists (parallelize Serial id). split; [|done].
      rewrite foldl_tv_axis_parallelize_other by apply not_sibling_of_itself.
      rewrite domain_of_tv_axis_parallelize, decide_True by done.
      by rewrite list_lookup_alter_eq, Hid.
    + by exists id.
Qed.

Lemma clear_axes_done tv (positions : list nat) : forall f j id,
  j ∈ positions ->
  domain_of (foldl (fun f i => clear_axis rparams reduction_tvs tv i f) f positions)
    tv !! j = Some id ->
  isUnrollOrVectorize (getParallelType id) = false.
Proof.
  induction positions as [|i positions IH]; intros f j id Hj Hid; simpl in *.
  - by apply elem_of_nil in Hj.
  - destruct (decide (j ∈ positions)) as [Hin|Hnin]; [by eapply IH|].
    apply elem_of_cons in Hj as [->|?]; [|done].
    assert (retyped [Serial; Group] (clear_axis rparams reduction_tvs tv i f)
              (foldl (fun f i => clear_axis rparams reduction_tvs tv i f)
                 (clear_axis rparams reduction_tvs tv i f) positions)) as Hr
      by (apply retyped_foldl; intros g a; apply retyped_clear_axis).
    destruct (Hr tv i id Hid) as (id1 & Hid1 & [->|(p & Hp & ->)]);
      [|by apply not_unroll_type_of_serial_group].
    destruct (retyped_clear_axis tv i f tv i id1 Hid1) as (id0 & Hid0 & _).
    destruct (clear_axis_at tv i f id0 Hid0) as (id' & Hid' & Hty). congruence.
Qed.

Lemma clear_node_done tv f id :
  id ∈ domain_of
         (foldl (fun f i => clear_axis rparams reduction_tvs tv i f) f
            (seq 0 (length (domain_of f tv)))) tv ->
  isUnrollOrVectorize (getParallelType id) = false.
Proof.
  intros [j Hj]%list_elem_of_lookup.
  apply (clear_axes_done tv (seq 0 (length (domain_of f tv))) f j id); [|done].
  assert (retyped [Serial; Group] f
            (foldl (fun f i => clear_axis rparams reduction_tvs tv i f) f
               (seq 0 (length (domain_of f tv))))) as Hr
    by (apply retyped_foldl; intros g a; apply retyped_clear_axis).
  destruct (Hr tv j id Hj) as (id0 & Hid0 & _).
  apply elem_of_seq. apply lookup_lt_Some in Hid0. lia.
Qed.

Lemma retyped_keeps_cleared f f' tv :
  retyped [Serial; Group] f f' ->
  (forall id, id ∈ domain_of f tv -> isUnrollOrVectorize (getParallelType id) = false) ->
  forall id, id ∈ domain_of f' tv -> isUnrollOrVectorize (getParallelType id) = false.
Proof.
  intros Hr Hf id [j Hj]%list_elem_of_lookup.
  destruct (Hr tv j id Hj) as (id0 & Hid0 & [->|(p & Hp & ->)]).
  - apply Hf. by eapply list_elem_of_lookup_2.
  - by apply not_unroll_type_of_serial_group.
Qed.

(** X16.  When unrolling or vectorization was requested, the reference
    node and the reduction node end without an unrolled, vectorized or
    misaligned-vectorized axis unless the driver selected them for
    unrolling: every such axis of theirs was reset to serial, or turned
    into a group axis, and no later step brings one back. *)
Theorem unselected_reference_cleared (f : Fusion) :
  isUnrolled rparams = true ->
  let propagated :=
    propagateParallelization mapped_axis reference_tv
      (propagateAndStage propagateTransforms rfactorHelperOf reduction_tv
         reference_tv reduction_tvs f) in
  let final :=
    multiReductionInliner propagateTransforms rfactorHelperOf mapped_axis
      getInputsOutputsWithInnerDim inline_position rparams reduction_tv reference_tv
      reduction_tvs cached_inputs cached_outputs dummy_outputs f in
  forall tv,
    tv = reference_tv \/ tv = reduction_tv ->
    tv ∉ are_unrolled_of getInputsOutputsWithInnerDim rparams reference_tv
           cached_inputs cached_outputs propagated ->
    forall id, id ∈ domain_of final tv ->
      isUnrollOrVectorize (getParallelType id) = false.
Proof.
  intros Hunroll propagated final tv Htv Hnin.
  subst final. unfold multiReductionInliner. rewrite Hunroll. fold propagated.
  intros id. rewrite domain_of_removeDummiesAndInline.
  unfold unrollBlock, beforeRegroup.
  set (au := are_unrolled_of getInputsOutputsWithInnerDim rparams reference_tv
               cached_inputs cached_outputs propagated) in *.
  set (X := propagateUnrollVectorize mapped_axis reference_tv au propagated).
  revert id. apply (retyped_keeps_cleared _ _ tv (retyped_regroupAllreduce _)).
  unfold clearUnrollOfReference. simpl.
  destruct Htv as [->| ->].
  - rewrite (bool_decide_eq_true_2 (reference_tv ∉ au)) by done.
    match goal with
    | |- forall id, id ∈ domain_of (if ?c then _ else _) _ -> _ => destruct c
    end.
    + apply (retyped_keeps_cleared
               (foldl (fun f i => clear_axis rparams reduction_tvs reference_tv i f) X
                  (seq 0 (length (domain_of X reference_tv))))).
      * apply retyped_foldl. intros g a. apply retyped_clear_axis.
      * intros id. apply clear_node_done.
    + intros id. apply clear_node_done.
  - rewrite (bool_decide_eq_true_2 (reduction_tv ∉ au)) by done.
    intros id. apply clear_node_done.
Qed.

Lemma selected_inputs_spec (vectorize : bool) (vectorizable : list nat) f l :
  forall (acc : gset nat) y,
    y ∈ foldl (fun (are_unrolled : gset nat) cached_input =>
                 if vectorize then
                   match producerTvsOf f cached_input with
                   | [producer] =>
                       if vectorizable_expr (definition f cached_input) &&
                          bool_decide (producer ∈ vectorizable)
                       then {[cached_input]} ∪ are_unrolled else are_unrolled
                   | _ => are_unrolled
                   end
                 else {[cached_input]} ∪ are_unrolled) acc l <->
    y ∈ acc \/
    (y ∈ l /\
     (vectorize = true ->
      vectorizable_expr (definition f y) = true /\
      exists producer, producerTvsOf f y = [producer] /\ producer ∈ vectorizable)).
Proof.
  induction l as [|x l IH]; intros acc y; simpl.
  - split; [by left|]. intros [?|[H%elem_of_nil _]]; done.
  - rewrite IH. rewrite elem_of_cons. destruct vectorize.
    + destruct (producerTvsOf f x) as [|p [|q r]] eqn:Hp.
      * split; [tauto|]. intros [?|[[->|?] Hy]]; [tauto| |tauto].
        destruct (Hy eq_refl) as (_ & p & Hp' & _). congruence.
      * destruct (vectorizable_expr (definition f x)) eqn:Hv; simpl.
        -- case_bool_decide as Hin.
           ++ rewrite elem_of_union, elem_of_singleton. split; [|tauto].
              intros [[->|?]|?]; [|tauto|tauto].
              right. split; [by left|]. intros _. split; [done|]. by exists p.
           ++ split; [tauto|]. intros [?|[[->|?] Hy]]; [tauto| |tauto].
              destruct (Hy eq_refl) as (_ & p' & Hp' & Hin'). congruence.
        -- split; [tauto|]. intros [?|[[->|?] Hy]]; [tauto| |tauto].
           destruct (Hy eq_refl) as (Hv' & _). congruence.
      * split; [tauto|]. intros [?|[[->|?] Hy]]; [tauto| |tauto].
        destruct (Hy eq_refl) as (_ & p' & Hp' & _). congruence.
    + rewrite elem_of_union, elem_of_singleton. split.
      * intros [[->|?]|[? ?]]; [right|tauto|tauto]. split; [by left|done].
      * intros [?|[[->|?] _]]; [tauto|tauto|]. right. split; [done|]. done.
Qed.

Lemma selected_outputs_spec (vectorize : bool) (vectorizable : list nat) f
    (l : list (nat * nat)) :
  forall (acc : gset nat) y,
    y ∈ foldl (fun (are_unrolled : gset nat) (cached_output_pair : nat * nat) =>
                 let output := cached_output_pair.2 in
                 if vectorize then
                   if vectorizable_expr (definition f output) &&
                      bool_decide (output ∈ vectorizable)
                   then {[output]} ∪ are_unrolled else are_unrolled
                 else {[output]} ∪ are_unrolled) acc l <->
    y ∈ acc \/
    (y ∈ l.*2 /\
     (vectorize = true ->
      vectorizable_expr (definition f y) = true /\ y ∈ vectorizable)).
Proof.
  induction l as [|[c x] l IH]; intros acc y; simpl.
  - split; [by left|]. intros [?|[H%elem_of_nil _]]; done.
  - rewrite IH. rewrite elem_of_cons. destruct vectorize.
    + destruct (vectorizable_expr (definition f x)) eqn:Hv; simpl.
      * case_bool_decide as Hin.
        -- rewrite elem_of_union, elem_of_singleton. split; [|tauto].
           intros [[->|?]|?]; [|tauto|tauto]. right. split; [by left|done].
        -- split; [tauto|]. intros [?|[[->|?] Hy]]; [tauto| |tauto].
           destruct (Hy eq_refl) as (_ & Hin'). done.
      * split; [tauto|]. intros [?|[[->|?] Hy]]; [tauto| |tauto].
        destruct (Hy eq_refl) as (Hv' & _). congruence.
    + rewrite elem_of_union, elem_of_singleton. split.
      * intros [[->|?]|[? ?]]; [right|tauto|tauto]. split; [by left|done].
      * intros [?|[[->|?] _]]; [tauto|tauto|]. right. split; [done|]. done.
Qed.

(** X17.  The nodes the driver selects for unrolling.  Without
    vectorization they are all the cached inputs and all the cached
    outputs.  With vectorization of the reduction or of the iteration
    domain, a cached input is selected only when it is defined by a set
    operation from a single producer that is one of the vectorizable
    inputs and outputs, and a cached output only when it is defined by a
    set operation and is itself one of them.  Nothing else is
    selected. *)
Theorem nodes_selected_for_unrolling (f : Fusion) (tv : nat) :
  let vectorize :=
    vectorize_inner_reduction rparams || vectorize_iter_dom rparams in
  let vectorizable := getInputsOutputsWithInnerDim f reference_tv in
  tv ∈ are_unrolled_of getInputsOutputsWithInnerDim rparams reference_tv
         cached_inputs cached_outputs f <->
  (tv ∈ cached_inputs /\
   (vectorize = true ->
    vectorizable_expr (definition f tv) = true /\
    exists producer,
      producerTvsOf f tv = [producer] /\ producer ∈ vectorizable)) \/
  (tv ∈ cached_outputs.*2 /\
   (vectorize = true ->
    vectorizable_expr (definition f tv) = true /\ tv ∈ vectorizable)).
Proof.
  intros vectorize vectorizable. unfold are_unrolled_of.
  fold vectorize vectorizable.
  rewrite selected_outputs_spec, selected_inputs_spec.
  rewrite elem_of_empty. tauto.
Qed.

End DriverFrame.

Lemma unroll_reaches_selected_nodes_only_witness :
  let staged :=
    propagateAndStage ex_propagateTransforms ex_rfactorHelperOf 3 2 [3%nat]
      ex_unroll_fusion in
  let propagated := propagateParallelization ex_unroll_mapped_axis 2 staged in
  domain_of staged 1 !! 1%nat =
    Some (parallelize Unroll (iter_axis_of 3 (IntConst 4) Serial)) \/
  (isUnrolled rparams_unrolled_iter = true /\
   1%nat ∈ are_unrolled_of ex_vectorizable rparams_unrolled_iter 2 [1%nat]
            [(3%nat, 4%nat)] propagated).
Proof.
  apply (unroll_reaches_selected_nodes_only ex_propagateTransforms ex_rfactorHelperOf
           ex_unroll_mapped_axis ex_vectorizable ex_inline_position
           rparams_unrolled_iter 3 2 [3%nat] [1%nat] [(3%nat, 4%nat)] [5%nat]
           ex_unroll_fusion 1%nat 1%nat).
  - by vm_compute.
  - reflexivity.
Defined.

Lemma unselected_reference_cleared_witness :
  forallb (fun id => negb (isUnrollOrVectorize (getParallelType id)))
    (domain_of ex_unroll_driver 2) = true.
Proof.
  apply forallb_forall. intros id Hid%list_elem_of_In. apply negb_true_iff.
  apply (unselected_reference_cleared ex_propagateTransforms ex_rfactorHelperOf
           ex_unroll_mapped_axis ex_vectorizable ex_inline_position
           rparams_unrolled_iter 3 2 [3%nat] [1%nat] [(3%nat, 4%nat)] [5%nat]
           ex_unroll_fusion eq_refl 2%nat).
  - by left.
  - by_evaluation.
  - exact Hid.
Defined.

(** ** The projector: edge cases and what it keeps *)

Lemma grown_from_refl f : grown_from f f.
Proof.
  split; [done|]. split; [done|]. split; [done|]. exists []. by rewrite app_nil_r.
Qed.

Lemma grown_from_trans f1 f2 f3 :
  grown_from f1 f2 -> grown_from f2 f3 -> grown_from f1 f3.
Proof.
  intros (Ho1 & Hn1 & Ht1 & a1 & He1) (Ho2 & Hn2 & Ht2 & a2 & He2).
  split; [congruence|]. split; [lia|]. split.
  - intros v Hv. rewrite Ht2 by lia. by apply Ht1.
  - exists (a1 ++ a2). by rewrite He2, He1, app_assoc.
Qed.

Lemma foldM_grown {A B} (step : B -> A -> M Fusion B) l :
  (forall b a f, grown_from f (step b a f).1) ->
  forall b f, grown_from f (foldM step l b f).1.
Proof.
  intros Hstep. induction l as [|a l IH]; intros b f; simpl; [apply grown_from_refl|].
  unfold bind. specialize (Hstep b a f).
  destruct (step b a f) as [f1 [b1|msg]]; simpl in *; [|done].
  eapply grown_from_trans; [exact Hstep|apply IH].
Qed.

Lemma foldM_same_state {A B} (step : B -> A -> M Fusion B) l :
  (forall b a f, (step b a f).1 = f) ->
  forall b f, (foldM step l b f).1 = f.
Proof.
  intros Hstep. induction l as [|a l IH]; intros b f; simpl; [done|].
  unfold bind. specialize (Hstep b a f).
  destruct (step b a f) as [f1 [b1|msg]]; simpl in *; subst; [apply IH|done].
Qed.

Section ProjectorFrame.

Variable persistentBuffers : Fusion -> PersistentBufferInfo.
Variable getAllDependencyChains : Fusion -> nat -> nat -> list (list nat).

Lemma persistent_uses_same_state buffer resolution_points f :
  (persistent_uses getAllDependencyChains buffer resolution_points f).1 = f.
Proof.
  unfold persistent_uses. apply foldM_same_state. intros b rp g.
  unfold bind, get. simpl. apply foldM_same_state. intros b' chain g'.
  unfold record_use_of_chain, bind, get. simpl.
  destruct (chain_has_reduction g' chain); [done|].
  destruct (chain !! 1%nat); [|done]. by case_bool_decide.
Qed.

Lemma project_use_grown buffer dummy_outputs use f :
  grown_from f (project_use buffer dummy_outputs use f).1.
Proof.
  unfold project_use, bind, get.
  destruct (definition f use) as [e|]; [|apply grown_from_refl].
  unfold recompute, add, replaceValInExpr, modify, ret. simpl.
  split; [done|]. split; [simpl; lia|]. split; simpl.
  - intros v Hv. by rewrite !lookup_insert_ne by lia.
  - eexists. rewrite <- list_fmap_compose, !fmap_app.
    rewrite <- app_assoc. f_equal.
    apply list_fmap_ext. intros i e' _. simpl. by case_bool_decide.
Qed.

Lemma projectBuffer_grown projected_buffers dummy_outputs entry f :
  grown_from f
    (projectBuffer getAllDependencyChains projected_buffers dummy_outputs entry f).1.
Proof.
  destruct entry as [buffer resolution_points]. unfold projectBuffer.
  case_bool_decide; [apply grown_from_refl|].
  unfold bind.
  pose proof (persistent_uses_same_state buffer resolution_points f) as Hsame.
  destruct (persistent_uses _ _ _ f) as [f1 [uses|msg]]; simpl in *; subst f1;
    [|apply grown_from_refl].
  apply foldM_grown. intros b a g. apply project_use_grown.
Qed.

(** X18.  The projector only adds to the graph.  However a run ends,
    with the dummy outputs or with a diagnostic, the outputs of the graph
    are the same, every node allocated before is there with the axes and
    the memory it had, and the expressions that were there are there in
    their order with their kinds and the nodes they define (their inputs
    are what a projection rewrites), followed by the expressions
    added. *)
Theorem projector_only_adds (f : Fusion) :
  grown_from f
    (projectPersistentBuffers persistentBuffers getAllDependencyChains f).1.
Proof.
  unfold projectPersistentBuffers, bind, get. simpl.
  case_bool_decide; simpl; [|apply grown_from_refl].
  apply foldM_grown. intros b a g. apply projectBuffer_grown.
Qed.

(** X19.  The edge cases of the projector.  When the analysis gives
    lists of buffers and of resolution points of different lengths, the
    projector stops with the diagnostic and the graph as it was.  When
    the lists agree in length and no persistent buffer is projectable,
    it returns no dummy output and the graph as it was. *)
Theorem projector_without_work (f : Fusion) :
  let info := persistentBuffers f in
  (length (persistent_buffers info) <>
     length (persistent_buffer_resolution_points info) ->
   projectPersistentBuffers persistentBuffers getAllDependencyChains f =
     (f, Fatal buffers_size_error)) /\
  (length (persistent_buffers info) =
     length (persistent_buffer_resolution_points info) ->
   (forall buffer, buffer ∈ persistent_buffers info ->
      buffer ∉ projectable_persistent_buffers info) ->
   projectPersistentBuffers persistentBuffers getAllDependencyChains f = (f, Ok [])).
Proof.
  intros info. unfold projectPersistentBuffers, bind, get. simpl. fold info. split.
  - intros Hne. by rewrite bool_decide_eq_false_2.
  - intros Heq Hnone. rewrite bool_decide_eq_true_2 by done. simpl.
    revert Hnone. generalize (persistent_buffer_resolution_points info).
    generalize (persistent_buffers info). clear Heq.
    intros buffers. induction buffers as [|b buffers IH]; intros rps Hnone; simpl;
      [done|].
    destruct rps as [|rp rps]; [done|]. simpl. unfold bind.
    rewrite bool_decide_eq_true_2 by (apply Hnone, elem_of_cons; by left).
    simpl. apply IH. intros b' Hb'. apply Hnone, elem_of_cons. by right.
Qed.

End ProjectorFrame.

Lemma projector_without_work_witness :
  projectPersistentBuffers ex_mismatched_info ex_chains ex_buffer_fusion =
    (ex_buffer_fusion, Fatal buffers_size_error) /\
  projectPersistentBuffers ex_not_projectable ex_chains ex_buffer_fusion =
    (ex_buffer_fusion, Ok []).
Proof.
  split.
  - apply (proj1 (projector_without_work ex_mismatched_info ex_chains
                    ex_buffer_fusion)).
    simpl. lia.
  - apply (proj2 (projector_without_work ex_not_projectable ex_chains
                    ex_buffer_fusion)); [reflexivity|].
    intros buffer _. apply not_elem_of_nil.
Defined.

(** ** Reductions that are never an all-reduce *)

(** X20.  [isGridAllreduce] answers no for a node that is not in local
    memory, for a node none of whose reduction axes is bound to a grid
    dimension (a block index; reductions bound to thread indices do not
    count), and for a node that no broadcast consumes. *)
Theorem never_a_grid_allreduce (f : Fusion) (tv : nat) :
  getMemoryType f tv <> Local \/
  (forall id, id ∈ domain_of f tv -> isReduction id = true ->
     isBlockDim id = false) \/
  (forall e, e ∈ uses f tv -> expr_type e <> BroadcastOp) ->
  isGridAllreduce f tv = false.
Proof.
  intros H. destruct (isGridAllreduce f tv) eqn:E; [|done]. exfalso.
  apply isGridAllreduce_spec in E
    as [Hm (pt & id & e & bcast_tv & bid & Hblk & Hid & Hr & Hpt & He & Hty & Hin & _)].
  destruct H as [H|[H|H]].
  - done.
  - specialize (H id Hid Hr). unfold isBlockDim in H. congruence.
  - apply (H e); [|done]. unfold uses. by apply list_elem_of_filter.
Qed.

Lemma never_a_grid_allreduce_witness : isGridAllreduce ex_fusion 1 = false.
Proof.
  apply (never_a_grid_allreduce ex_fusion 1). right. left.
  intros id Hid Hr.
  assert (domain_of ex_fusion 1 =
            [iter_axis_of 2 (NamedScalar "i") Serial;
             red_axis_of 3 (NamedScalar "r") Serial]) as Hd by (by vm_compute).
  rewrite Hd in Hid.
  apply elem_of_cons in Hid as [->|Hid]; [done|].
  apply elem_of_cons in Hid as [->|Hid]; [done|].
  by apply elem_of_nil in Hid.
Defined.

(** ** The kinds of the axes *)

Lemma collapse_cons_same x l : collapse (x :: x :: l) = collapse (x :: l).
Proof. simpl. by rewrite decide_True. Qed.

Lemma collapse_split l1 x l2 :
  collapse (l1 ++ x :: x :: l2) = collapse (l1 ++ x :: l2).
Proof.
  induction l1 as [|a l1 IH]; [apply collapse_cons_same|].
  destruct l1 as [|b l1].
  - simpl in *. destruct (decide (a = x)); [done|]. by rewrite IH.
  - change (collapse (a :: b :: (l1 ++ x :: x :: l2)) =
            collapse (a :: b :: (l1 ++ x :: l2))).
    change ((b :: l1) ++ x :: x :: l2) with (b :: (l1 ++ x :: x :: l2)) in IH.
    change ((b :: l1) ++ x :: l2) with (b :: (l1 ++ x :: l2)) in IH.
    cbn [collapse] in *. destruct (decide (a = b)); [done|]. by rewrite IH.
Qed.

Lemma split_kinds c axis factor inner_split :
  preserves (fun s => kinds_of s = c) (split axis factor inner_split).
Proof.
  intros [[d lg] n] Hs. unfold split, split_id, kinds_of in *. simpl in *.
  destruct (d !! axis) as [id|] eqn:Hid; [|done]. simpl.
  subst c. symmetry. rewrite <- (take_drop_middle d axis id Hid) at 1.
  rewrite !fmap_app, !fmap_cons. symmetry. apply collapse_split.
Qed.

Lemma kinds_insert (d : list IterDomain) axis id id' :
  d !! axis = Some id -> axis_kind id' = axis_kind id ->
  axis_kind <$> <[axis := id']> d = axis_kind <$> d.
Proof.
  intros Hid Hk. rewrite list_fmap_insert, Hk.
  apply list_insert_id. by rewrite list_lookup_fmap, Hid.
Qed.

Lemma parallelize_kinds c axis p :
  preserves (fun s => kinds_of s = c) (axis_parallelize axis p).
Proof.
  intros [[d lg] n] Hs. unfold axis_parallelize, kinds_of in *. simpl in *.
  destruct (d !! axis) as [id|] eqn:Hid; [|done]. simpl.
  by rewrite (kinds_insert d axis id).
Qed.

Lemma pad_kinds c axis :
  preserves (fun s => kinds_of s = c) (axis_padToMultipleOfWarp axis).
Proof.
  intros [[d lg] n] Hs. unfold axis_padToMultipleOfWarp, kinds_of in *. simpl in *.
  destruct (d !! axis) as [id|] eqn:Hid; [|done]. simpl.
  by rewrite (kinds_insert d axis id).
Qed.

Ltac kinds_chain :=
  preserves_chain ltac:(apply split_kinds)
                  ltac:(apply parallelize_kinds)
                  ltac:(apply pad_kinds).

(** X21.  The loop-nest builder keeps the kinds of the axes and their
    order.  Whatever the parameters and however the run ends, the axes of
    the node are from the outside in of the same kinds (reduction or not,
    broadcast or not) as before, a run of axes of one kind counted once:
    a split replaces an axis by two of its kind, a parallel assignment
    and a padding keep the kind, and nothing is reordered before the
    sort. *)
Theorem loop_nest_keeps_kinds rparams has_iter_axis (s : Sched) :
  kinds_of (scheduleLoopNest rparams has_iter_axis s).1 = kinds_of s.
Proof.
  assert (preserves (fun s' => kinds_of s' = kinds_of s)
            (scheduleLoopNest rparams has_iter_axis)) as H; [|by apply H].
  unfold scheduleLoopNest.
  apply preserves_bind; [unfold checkPreconditions; kinds_chain|intros _].
  apply preserves_bind; [|intros _].
  { unfold scheduleInnerReduction. unfold_helpers. destruct_conditions;
      kinds_chain. }
  apply preserves_bind; [|intros _].
  { unfold scheduleOuterReduction. unfold_helpers. destruct_conditions;
      kinds_chain. }
  unfold scheduleIterDomain. unfold_helpers. destruct_conditions; kinds_chain.
Qed.

(** ** The scan for the vectorized axis *)

Lemma vec_reorder_scan_spec l : forall i pos m j,
  (vec_reorder_scan i l pos m).2 !! j =
    match l !! (j - i)%nat with
    | Some a =>
        if bool_decide (i <= j)%nat then
          if is_vectorized a then Some (-1)
          else if (0 <=? pos) || existsb is_vectorized (take (j - i) l)
               then Some (Z.of_nat j - 1)
               else m !! j
        else m !! j
    | None => m !! j
    end.
Proof.
  unfold is_vectorized.
  induction l as [|a l IH]; intros i pos m j; simpl; [done|].
  destruct (decide (i <= j)%nat) as [Hle|Hgt].
  2: { rewrite (bool_decide_eq_false_2 (i <= j)%nat) by done.
       assert (forall pos' m', m' !! j = m !! j ->
                 (vec_reorder_scan (S i) l pos' m').2 !! j = m !! j) as Hout.
       { intros pos' m' Hm'. rewrite IH.
         rewrite (bool_decide_eq_false_2 (S i <= j)%nat) by lia.
         rewrite Hm'. by destruct (l !! (j - S i)%nat). }
       replace (j - i)%nat with 0%nat by lia. simpl.
       destruct (ptype_eqb (getParallelType a) Vectorize);
         [|destruct (0 <=? pos)]; apply Hout; try done;
         apply lookup_insert_ne; lia. }
  rewrite (bool_decide_eq_true_2 (i <= j)%nat) by done.
  destruct (decide (j = i)) as [->|Hne].
  - replace (i - i)%nat with 0%nat by lia. simpl.
    assert (forall pos' m',
              (vec_reorder_scan (S i) l pos' m').2 !! i = m' !! i) as Hout.
    { intros pos' m'. rewrite IH.
      rewrite (bool_decide_eq_false_2 (S i <= i)%nat) by lia.
      by destruct (l !! (i - S i)%nat). }
    destruct (ptype_eqb (getParallelType a) Vectorize).
    + by rewrite Hout, lookup_insert_eq.
    + destruct (0 <=? pos); simpl; rewrite Hout; [by rewrite lookup_insert_eq|done].
  - destruct (j - i)%nat as [|k] eqn:Hk; [lia|]. simpl.
    replace (j - S i)%nat with k in IH by lia.
    assert (forall pos' m', m' !! j = m !! j ->
              (vec_reorder_scan (S i) l pos' m').2 !! j =
                match l !! k with
                | Some b =>
                    if ptype_eqb (getParallelType b) Vectorize then Some (-1)
                    else if (0 <=? pos') ||
                            existsb (fun id => ptype_eqb (getParallelType id) Vectorize)
                              (take k l)
                         then Some (Z.of_nat j - 1) else m !! j
                | None => m !! j
                end) as Hin.
    { intros pos' m' Hm'. rewrite IH.
      replace (j - S i)%nat with k by lia.
      rewrite (bool_decide_eq_true_2 (S i <= j)%nat) by lia. by rewrite Hm'. }
    destruct (ptype_eqb (getParallelType a) Vectorize) eqn:Ha.
    + rewrite Hin by (apply lookup_insert_ne; lia).
      destruct (Z.leb_spec 0 (Z.of_nat i)); [|lia]. simpl.
      by rewrite orb_true_r.
    + destruct (0 <=? pos) eqn:Hpos.
      * rewrite Hin by (apply lookup_insert_ne; lia). by rewrite Hpos.
      * rewrite Hin by done. by rewrite Hpos.
Qed.

Lemma vec_reorder_scan_found l : forall i pos m,
  -1 <= pos ->
  ((vec_reorder_scan i l pos m).1 = -1 <->
   pos = -1 /\ existsb is_vectorized l = false) /\
  -1 <= (vec_reorder_scan i l pos m).1.
Proof.
  unfold is_vectorized.
  induction l as [|a l IH]; intros i pos m Hpos; simpl; [intuition lia|].
  destruct (ptype_eqb (getParallelType a) Vectorize); simpl.
  - destruct (IH (S i) (Z.of_nat i) (<[i:=-1]> m)) as [Hiff Hge]; [lia|].
    split; [|done]. rewrite Hiff. split; [lia|]. intros [_ ?]. done.
  - destruct (0 <=? pos); apply IH; done.
Qed.

(** X22.  The map that [scheduleReductionTV] builds to relocate the
    vectorized axis.  The scan of the staged node sends every vectorized
    axis to the last position (new position -1), every other axis that
    comes after a vectorized one from its position [j] to [j - 1], and
    leaves the axes before the first vectorized one out of the map; the
    position it remembers is -1 exactly when no axis is vectorized. *)
Theorem vectorized_relocation_map (rf : TensorView) :
  let scan := vec_reorder_scan 0 (tv_domain rf) (-1) ∅ in
  (forall j,
     scan.2 !! j =
       match tv_domain rf !! j with
       | Some a =>
           if is_vectorized a then Some (-1)
           else if existsb is_vectorized (take j (tv_domain rf))
                then Some (Z.of_nat j - 1) else None
       | None => None
       end) /\
  (scan.1 = -1 <-> existsb is_vectorized (tv_domain rf) = false).
Proof.
  intros scan. split.
  - intros j. subst scan. rewrite vec_reorder_scan_spec, Nat.sub_0_r.
    rewrite (bool_decide_eq_true_2 (0 <= j)%nat) by lia. simpl.
    by destruct (tv_domain rf !! j).
  - subst scan.
    destruct (vec_reorder_scan_found (tv_domain rf) 0 (-1) ∅) as [-> _]; [lia|].
    tauto.
Qed.

Lemma existsb_lookup {A} (f : A -> bool) (l : list A) i x :
  l !! i = Some x -> f x = true -> existsb f l = true.
Proof.
  intros Hi Hx. apply existsb_exists. exists x. split; [|done].
  apply list_elem_of_In. by eapply list_elem_of_lookup_2.
Qed.

(** X23.  A staged node with two vectorized axes cannot be relocated:
    under outer grid persistence the scan sends both axes to the last
    position, and the reorder, which takes no two axes to one position,
    stops [scheduleReductionTV] with its diagnostic. *)
Theorem two_vectorized_axes_fatal (rf : TensorView) (p q : nat) (a b : IterDomain) :
  p <> q ->
  tv_domain rf !! p = Some a -> tv_domain rf !! q = Some b ->
  is_vectorized a = true -> is_vectorized b = true ->
  is_fatal (moveVectorizedInnermost rf) = true.
Proof.
  intros Hne Hp Hq Ha Hb. unfold moveVectorizedInnermost.
  assert (forall j c, tv_domain rf !! j = Some c -> is_vectorized c = true ->
            (vec_reorder_scan 0 (tv_domain rf) (-1) ∅).2 !! j = Some (-1)) as Hmap.
  { intros j c Hj Hc. rewrite vec_reorder_scan_spec, Nat.sub_0_r, Hj.
    rewrite (bool_decide_eq_true_2 (0 <= j)%nat) by lia. by rewrite Hc. }
  destruct (vec_reorder_scan 0 (tv_domain rf) (-1) ∅) as [pos m] eqn:Hscan.
  simpl in *.
  destruct (Z.eqb_spec pos (-1)) as [Heq|_]; [done|].
  unfold tv_reorder, reorder_domain.
  assert (valid_old2new (length (tv_domain rf)) m = false) as ->; [|done].
  unfold valid_old2new. apply andb_false_iff. right.
  apply bool_decide_eq_false_2. intros Hnd.
  pose proof (Hmap p a Hp Ha) as Hmp.
  pose proof (Hmap q b Hq Hb) as Hmq.
  apply elem_of_map_to_list, list_elem_of_lookup in Hmp as [ip Hip].
  apply elem_of_map_to_list, list_elem_of_lookup in Hmq as [iq Hiq].
  assert (ip = iq) as ->.
  { eapply (NoDup_lookup _ ip iq _ Hnd);
      unfold normalizeOld2New; rewrite !list_lookup_fmap.
    - by rewrite Hip.
    - by rewrite Hiq. }
  congruence.
Qed.

Lemma two_vectorized_axes_fatal_witness :
  is_fatal (moveVectorizedInnermost ex_two_vectorized) = true.
Proof.
  apply (two_vectorized_axes_fatal ex_two_vectorized 0 2
           (iter_axis_of 0 (IntConst 4) Vectorize)
           (red_axis_of 2 (IntConst 4) Vectorize));
    (lia || reflexivity).
Defined.

(** ** The dispatch on the outer-grid-persistence regime *)

(** C5.  On a node that passes the five checks, what [scheduleReductionTV]
    does to the inner reduction axis depends on the three conditions of
    outer grid persistence.  When the kernel is persistent, the inner
    reduction is across the grid and the reduction is not the fastest
    dimension: a [blockDim.y] that is not static stops the function with
    its diagnostic and the node untouched; with a static one the axis is
    split by [blockDim.y] (narrowed to the [int] of the helper), bound to
    the block dimension, what remains is split by the persistent batch
    size with the grid dimension on the outer part, and the batch axis is
    unswitched as a whole by one outer unswitch when the unroll factor
    equals the batch size, and is else split by the unroll factor with the
    outer unswitch on that inner part only; the function goes on from
    there with the other axes, the sort and the staging, and ends with the
    relocation of the vectorized axis.  When one of the three conditions
    does not hold, no static block size is asked for: the axis gets the
    persistent or the non-persistent format, and the function ends with
    the staging, without a relocation. *)
Theorem outer_grid_persistence_layout std_sort rfactorHelper rparams has_iter_axis
    l1 id l2 (s : Sched) :
  ~ preconditions_violated rparams has_iter_axis s ->
  tv_domain (reduction_tv s) = l1 ++ id :: l2 ->
  length l1 = inner_reduce_axis rparams has_iter_axis ->
  let rest : M Sched TensorView :=
    (scheduleOuterReduction rparams ;;;
     scheduleIterDomain rparams has_iter_axis ;;;
     sortAndRFactor std_sort rfactorHelper)%sched in
  (persistent_kernel rparams = true ->
   cross_grid_inner_reduction rparams = true ->
   fastest_dim rparams = false ->
   (static_bdimy rparams = false ->
    scheduleReductionTV std_sort rfactorHelper rparams has_iter_axis s =
      (s, Fatal static_bdimy_error)) /\
   (static_bdimy rparams = true ->
    exists s1,
      scheduleInnerReduction rparams has_iter_axis s = (s1, Ok tt) /\
      tv_domain (reduction_tv s1) = l1 ++ ogp_axes rparams id (next_name s) ++ l2 /\
      tv_log (reduction_tv s1) =
        tv_log (reduction_tv s) ++
        ogp_ops rparams (inner_reduce_axis rparams has_iter_axis) /\
      scheduleReductionTV std_sort rfactorHelper rparams has_iter_axis s =
        (reduction_rf_tv <- rest ;;
         lift (moveVectorizedInnermost reduction_rf_tv))%sched s1)) /\
  (persistent_kernel rparams = false \/
   cross_grid_inner_reduction rparams = false \/
   fastest_dim rparams = true ->
   exists s1 mid,
     scheduleInnerReduction rparams has_iter_axis s = (s1, Ok tt) /\
     tv_domain (reduction_tv s1) = l1 ++ mid ++ l2 /\
     Forall2 (has_format id) mid
       (if persistent_kernel rparams then persistent_inner_format rparams
        else nonpersistent_inner_format rparams) /\
     scheduleReductionTV std_sort rfactorHelper rparams has_iter_axis s = rest s1).
Proof.
  intros Hpre Hd Hlen rest.
  destruct (checkPreconditions_cases rparams has_iter_axis s)
    as [[Hv _]|[_ Hcheck]]; [done|].
  assert (forall s1 (k : TensorView -> M Sched TensorView),
            scheduleInnerReduction rparams has_iter_axis s = (s1, Ok tt) ->
            bind (scheduleLoopNest rparams has_iter_axis)
                 (fun _ => bind (sortAndRFactor std_sort rfactorHelper) k) s =
              bind rest k s1) as Hgoes.
  { intros s1 k Hrun. unfold scheduleLoopNest.
    rewrite bind_assoc, (bind_ok _ _ _ _ _ Hcheck).
    rewrite bind_assoc, (bind_ok _ _ _ _ _ Hrun).
    subst rest. unfold bind.
    destruct (scheduleOuterReduction rparams s1) as [s2 [[]|msg]]; [|done].
    by destruct (scheduleIterDomain rparams has_iter_axis s2) as [s3 [[]|msg]]. }
  split.
  - intros Hp Hc Hf.
    assert (is_outer_grid_persistence rparams = true) as Hogp
      by (unfold is_outer_grid_persistence; by rewrite Hp, Hc, Hf).
    split; intros Hstatic.
    + assert (scheduleInnerReduction rparams has_iter_axis s =
                (s, Fatal static_bdimy_error)) as Hinner.
      { unfold scheduleInnerReduction. by rewrite Hogp, Hstatic. }
      unfold scheduleReductionTV, scheduleLoopNest.
      rewrite (bind_fatal _ _ s s static_bdimy_error); [done|].
      rewrite (bind_ok _ _ _ _ _ Hcheck).
      by rewrite (bind_fatal _ _ _ _ _ Hinner).
    + destruct (scheduleInnerReduction_ogp rparams has_iter_axis l1 id l2 s
                  Hogp Hstatic Hd Hlen) as (s1 & Hrun & Hdom & Hlog).
      exists s1. split; [done|]. split; [done|]. split; [done|].
      unfold scheduleReductionTV. rewrite Hogp. by apply Hgoes.
  - intros Hnot.
    assert (is_outer_grid_persistence rparams = false) as Hogp.
    { unfold is_outer_grid_persistence.
      destruct Hnot as [->|[->| ->]]; [done| |];
        by destruct (persistent_kernel rparams), (cross_grid_inner_reduction rparams). }
    assert (exists s1 mid,
              scheduleInnerReduction rparams has_iter_axis s = (s1, Ok tt) /\
              tv_domain (reduction_tv s1) = l1 ++ mid ++ l2 /\
              Forall2 (has_format id) mid
                (if persistent_kernel rparams then persistent_inner_format rparams
                 else nonpersistent_inner_format rparams))
      as (s1 & mid & Hrun & Hdom & Hfmt).
    { destruct (persistent_kernel rparams) eqn:Hp.
      - by apply inner_phase_layout_persistent.
      - by apply inner_phase_layout_nonpersistent. }
    exists s1, mid. split; [done|]. split; [done|]. split; [done|].
    unfold scheduleReductionTV. rewrite Hogp, (Hgoes s1 _ Hrun).
    unfold bind, ret. by destruct (rest s1) as [s2 [rf|msg]].
Qed.

Lemma outer_grid_persistence_layout_witness :
  exists s1,
    scheduleInnerReduction rparams_scenario3 true ex_2d_node = (s1, Ok tt) /\
    tv_domain (reduction_tv s1) =
      [iter_axis_of 0 (NamedScalar "i") Serial] ++
      ogp_axes rparams_scenario3 (red_axis_of 1 (NamedScalar "r") Serial) 2 ++ [] /\
    tv_log (reduction_tv s1) = [] ++ ogp_ops rparams_scenario3 1 /\
    scheduleReductionTV insertion_sort rfactorHelper_model rparams_scenario3 true
      ex_2d_node =
      bind (bind (scheduleOuterReduction rparams_scenario3)
              (fun _ => bind (scheduleIterDomain rparams_scenario3 true)
                 (fun _ => sortAndRFactor insertion_sort rfactorHelper_model)))
           (fun reduction_rf_tv => lift (moveVectorizedInnermost reduction_rf_tv)) s1.
Proof.
  apply (proj1 (outer_grid_persistence_layout insertion_sort rfactorHelper_model
                  rparams_scenario3 true
                  [iter_axis_of 0 (NamedScalar "i") Serial]
                  (red_axis_of 1 (NamedScalar "r") Serial) [] ex_2d_node
                  ltac:(intros Hv; vm_compute in Hv; intuition (discriminate || lia))
                  eq_refl eq_refl));
    reflexivity.
Defined.

(** ** The relocation of the vectorized axis *)

Lemma first_vectorized (l : list IterDomain) :
  Forall not_vectorized l \/
  exists l1 v l2,
    l = l1 ++ v :: l2 /\ getParallelType v = Vectorize /\ Forall not_vectorized l1.
Proof.
  induction l as [|a l IH]; [by left|].
  destruct (decide (getParallelType a = Vectorize)) as [Ha|Ha].
  - right. by exists [], a, l.
  - destruct IH as [IH|(l1 & v & l2 & -> & Hv & H1)].
    + left. by constructor.
    + right. exists (a :: l1), v, l2. split; [done|]. split; [done|]. by constructor.
Qed.

(** The relocation succeeds on a node with one vectorized axis only: the
    scan sends every vectorized axis to the last position, and the
    reorder takes no two axes to one position. *)
Lemma moveVectorizedInnermost_Ok_inv rf rf' :
  moveVectorizedInnermost rf = Ok rf' ->
  exists l1 v l2,
    tv_domain rf = l1 ++ v :: l2 /\ getParallelType v = Vectorize /\
    Forall not_vectorized l1 /\ Forall not_vectorized l2.
Proof.
  intros Hok.
  destruct (first_vectorized (tv_domain rf)) as [Hnone|(l1 & v & l2 & Hd & Hv & H1)].
  { by rewrite (moveVectorizedInnermost_none rf Hnone) in Hok. }
  exists l1, v, l2. split; [done|]. split; [done|]. split; [done|].
  destruct (first_vectorized l2) as [H2|(m1 & w & m2 & -> & Hw & _)]; [done|].
  exfalso. unfold moveVectorizedInnermost in Hok.
  assert (forall j c, tv_domain rf !! j = Some c -> getParallelType c = Vectorize ->
            (vec_reorder_scan 0 (tv_domain rf) (-1) ∅).2 !! j = Some (-1)) as Hmap.
  { intros j c Hj Hc. rewrite vec_reorder_scan_spec, Nat.sub_0_r, Hj.
    rewrite (bool_decide_eq_true_2 (0 <= j)%nat) by lia.
    unfold is_vectorized, ptype_eqb. by rewrite Hc. }
  pose proof (Hmap (length l1) v) as Hmp.
  pose proof (Hmap (length l1 + S (length m1))%nat w) as Hmq.
  rewrite Hd in Hmp, Hmq.
  rewrite list_lookup_middle in Hmp by done.
  rewrite lookup_app_r, (Nat.add_comm (length l1)), Nat.add_sub in Hmq by lia.
  simpl in Hmq. rewrite list_lookup_middle in Hmq by done.
  specialize (Hmp eq_refl Hv). specialize (Hmq eq_refl Hw). rewrite <- Hd in *.
  destruct (vec_reorder_scan 0 (tv_domain rf) (-1) ∅) as [pos m]. simpl in *.
  destruct (pos =? -1); [done|].
  unfold tv_reorder, reorder_domain in Hok.
  assert (valid_old2new (length (tv_domain rf)) m = false) as Hinv;
    [|by rewrite Hinv in Hok].
  unfold valid_old2new. apply andb_false_iff. right.
  apply bool_decide_eq_false_2. intros Hnd.
  apply elem_of_map_to_list, list_elem_of_lookup in Hmp as [ip Hip].
  apply elem_of_map_to_list, list_elem_of_lookup in Hmq as [iq Hiq].
  assert (ip = iq) as ->.
  { eapply (NoDup_lookup _ ip iq _ Hnd);
      unfold normalizeOld2New; rewrite !list_lookup_fmap.
    - by rewrite Hip.
    - by rewrite Hiq. }
  rewrite Hip in Hiq. injection Hiq. lia.
Qed.

(** C6.  Under outer grid persistence, [scheduleReductionTV] ends by
    relocating the vectorized axis of the staged node that the
    sort-and-stage step returned.  When no axis of that node is
    vectorized, scheduling stops with the diagnostic.  When one is, the
    function returns the node with that axis as its last, innermost,
    axis; the axes before it stay where they are, and every axis after it
    moves by one position, from [j] to [j - 1], into the place the
    vectorized axis left.  A node is returned in no other case. *)
Theorem vectorized_axis_moved_last std_sort rfactorHelper rparams has_iter_axis
    (s s1 : Sched) (rf : TensorView) :
  is_outer_grid_persistence rparams = true ->
  bind (scheduleLoopNest rparams has_iter_axis)
       (fun _ => sortAndRFactor std_sort rfactorHelper) s = (s1, Ok rf) ->
  (Forall not_vectorized (tv_domain rf) ->
   scheduleReductionTV std_sort rfactorHelper rparams has_iter_axis s =
     (s1, Fatal vectorized_not_found_error)) /\
  (forall l1 v l2,
     tv_domain rf = l1 ++ v :: l2 ->
     getParallelType v = Vectorize ->
     Forall not_vectorized l1 -> Forall not_vectorized l2 ->
     exists rf',
       scheduleReductionTV std_sort rfactorHelper rparams has_iter_axis s =
         (s1, Ok rf') /\
       tv_domain rf' = l1 ++ l2 ++ [v] /\
       last (tv_domain rf') = Some v /\
       (forall j a, tv_domain rf !! j = Some a -> (j < length l1)%nat ->
          tv_domain rf' !! j = Some a) /\
       (forall j a, tv_domain rf !! j = Some a -> (length l1 < j)%nat ->
          tv_domain rf' !! (j - 1)%nat = Some a)) /\
  (forall s' rf',
     scheduleReductionTV std_sort rfactorHelper rparams has_iter_axis s =
       (s', Ok rf') ->
     exists l1 v l2,
       tv_domain rf = l1 ++ v :: l2 /\ getParallelType v = Vectorize /\
       Forall not_vectorized l1 /\ Forall not_vectorized l2).
Proof.
  intros Hogp Hrun.
  assert (scheduleReductionTV std_sort rfactorHelper rparams has_iter_axis s =
            (s1, moveVectorizedInnermost rf)) as Hends.
  { unfold scheduleReductionTV. rewrite <- bind_assoc.
    rewrite (bind_ok _ _ _ _ _ Hrun). by rewrite Hogp. }
  rewrite Hends. split; [|split].
  - intros Hnone. by rewrite (moveVectorizedInnermost_none rf Hnone).
  - intros l1 v l2 Hd Hv H1 H2.
    destruct (moveVectorizedInnermost_moves rf l1 v l2 Hd Hv H1 H2) as (m & ->).
    eexists. split; [done|]. simpl. split; [done|]. split; [|split].
    + by rewrite !app_assoc, last_snoc.
    + intros j a Hj Hlt. rewrite Hd, lookup_app_l in Hj by done.
      by rewrite lookup_app_l.
    + intros j a Hj Hlt. rewrite Hd, lookup_app_r in Hj by lia.
      destruct (j - length l1)%nat as [|k] eqn:Hk; [lia|]. simpl in Hj.
      rewrite lookup_app_r by lia.
      replace (j - 1 - length l1)%nat with k by lia.
      rewrite lookup_app_l; [done|]. by eapply lookup_lt_Some.
  - intros s' rf' [= _ Hok]. by eapply moveVectorizedInnermost_Ok_inv.
Qed.

Lemma vectorized_axis_moved_last_witness :
  exists s1 rf,
    bind (scheduleLoopNest rparams_scenario3 true)
         (fun _ => sortAndRFactor insertion_sort rfactorHelper_model) ex_2d_node =
      (s1, Ok rf) /\
    (Forall not_vectorized (tv_domain rf) ->
     scheduleReductionTV insertion_sort rfactorHelper_model rparams_scenario3 true
       ex_2d_node = (s1, Fatal vectorized_not_found_error)) /\
    (forall l1 v l2,
       tv_domain rf = l1 ++ v :: l2 ->
       getParallelType v = Vectorize ->
       Forall not_vectorized l1 -> Forall not_vectorized l2 ->
       exists rf',
         scheduleReductionTV insertion_sort rfactorHelper_model rparams_scenario3 true
           ex_2d_node = (s1, Ok rf') /\
         tv_domain rf' = l1 ++ l2 ++ [v] /\
         last (tv_domain rf') = Some v /\
         (forall j a, tv_domain rf !! j = Some a -> (j < length l1)%nat ->
            tv_domain rf' !! j = Some a) /\
         (forall j a, tv_domain rf !! j = Some a -> (length l1 < j)%nat ->
            tv_domain rf' !! (j - 1)%nat = Some a)) /\
    (forall s' rf',
       scheduleReductionTV insertion_sort rfactorHelper_model rparams_scenario3 true
         ex_2d_node = (s', Ok rf') ->
       exists l1 v l2,
         tv_domain rf = l1 ++ v :: l2 /\ getParallelType v = Vectorize /\
         Forall not_vectorized l1 /\ Forall not_vectorized l2).
Proof.
  eexists. eexists. split; [by vm_compute|].
  apply (vectorized_axis_moved_last insertion_sort rfactorHelper_model
           rparams_scenario3 true ex_2d_node); [reflexivity|by vm_compute].
Defined.

(** ** Outer grid persistence from end to end *)

Lemma rfactorHelper_model_stages_in_place : stages_in_place rfactorHelper_model.
Proof.
  intros axes s. eexists. eexists. split; [reflexivity|]. simpl.
  apply Forall2_same_length_lookup_2; [by rewrite length_imap|].
  intros i a b Ha Hb. rewrite list_lookup_imap, Hb in Ha.
  by injection Ha as <-.
Qed.

Lemma ogp_iter_format_types rparams id :
  is_outer_grid_persistence rparams = true ->
  vectorize_iter_dom rparams = true ->
  exists pre,
    iter_domain_format rparams id =
      pre ++ [mkAxisFormat Vectorize
                (Some (IntConst (to_int (unroll_factor_iter_dom rparams)))) false] /\
    Forall (fun fm => fmt_type fm <> Vectorize) pre.
Proof.
  intros Hogp Hvec. unfold iter_domain_format, remainder_of, untouched.
  rewrite Hogp, Hvec. simpl.
  destruct (isParallelTypeThread (grid_dim_iter_dom rparams)) eqn:Hg,
    (isParallelTypeThread (block_dim_iter_dom rparams)) eqn:Hb,
    (split_grid_dim_iter_dom_outer rparams),
    (split_grid_dim_iter_dom_inner rparams),
    (1 <? unroll_factor_iter_dom rparams); simpl;
    (eexists; split;
     [ first [ exact (eq_refl : [_; _; _; _] = [_; _; _] ++ [_])
             | exact (eq_refl : [_; _; _] = [_; _] ++ [_])
             | exact (eq_refl : [_; _] = [_] ++ [_])
             | exact (eq_refl : [_] = [] ++ [_]) ]
     | repeat constructor; simpl; try discriminate;
       intros Heq; rewrite Heq in *; discriminate ]).
Qed.

Lemma not_vectorized_perm (l l' : list IterDomain) v :
  l' ≡ₚ l ++ [v] -> Forall not_vectorized l ->
  exists l1 l2, l' = l1 ++ v :: l2 /\
    Forall not_vectorized l1 /\ Forall not_vectorized l2.
Proof.
  intros Hp Hl.
  assert (v ∈ l') as Hv by (rewrite Hp; apply elem_of_app; right; by left).
  apply list_elem_of_split in Hv as (l1 & l2 & ->).
  exists l1, l2. split; [done|].
  assert (l1 ++ l2 ≡ₚ l) as Hrest.
  { apply (Permutation_cons_inv (a := v)).
    rewrite Permutation_middle, Hp. by rewrite Permutation_app_comm. }
  rewrite <- Hrest in Hl. by apply Forall_app in Hl.
Qed.

(** X24.  Outer grid persistence from end to end.  On a node whose axes
    are distinct objects and none of which is vectorized, with an
    iteration axis whose vectorization is requested, the checks passed,
    the block sizes static and the block and grid dimensions of the
    reductions naming hardware dimensions or none, [scheduleReductionTV]
    returns the staged node for any sorting procedure that keeps the
    contract of [std::sort] and any staging helper that stages in place:
    its last (innermost) axis is the vectorized axis made from the
    iteration axis, of the extent of the unroll factor of the iteration
    domain as the helper receives it, narrowed to [int], and no other
    axis of it is vectorized. *)
Theorem ogp_vectorized_axis_innermost std_sort rfactorHelper rparams (s : Sched) :
  sort_contract std_sort ->
  stages_in_place rfactorHelper ->
  fresh_names s ->
  no_vectorized_axis s ->
  is_outer_grid_persistence rparams = true ->
  vectorize_iter_dom rparams = true ->
  ~ preconditions_violated rparams true s ->
  static_dims_missing rparams true = false ->
  hardware_dim_or_none (block_dim_inner_reduction rparams) = true ->
  hardware_dim_or_none (grid_dim_inner_reduction rparams) = true ->
  hardware_dim_or_none (block_dim_outer_reduction rparams) = true ->
  hardware_dim_or_none (grid_dim_outer_reduction rparams) = true ->
  exists s' rf rest v,
    scheduleReductionTV std_sort rfactorHelper rparams true s = (s', Ok rf) /\
    tv_domain rf = rest ++ [v] /\
    getParallelType v = Vectorize /\
    extent v = IntConst (to_int (unroll_factor_iter_dom rparams)) /\
    Forall not_vectorized rest.
Proof.
  intros Hsort Hstage Hfresh Hnovec Hogp Hvec Hpre Hstatic Hbi Hgi Hbo Hgo.
  (* the phases *)
  destruct (checkPreconditions_cases rparams true s)
    as [[Hv _]|[_ Hcheck]]; [done|].
  assert (inner_reduce_axis rparams true < nDims (reduction_tv s) /\
          outer_reduce_axis rparams < nDims (reduction_tv s))%nat as [Hi Ho].
  { unfold preconditions_violated in Hpre.
    destruct (decide (nDims (reduction_tv s) <=
                Nat.max iter_axis (Nat.max (outer_reduce_axis rparams)
                  (inner_reduce_axis rparams true)))%nat); [tauto|lia]. }
  assert (vectorize_inner_reduction rparams = false) as Hvr.
  { unfold is_outer_grid_persistence in Hogp.
    destruct (vectorize_inner_reduction rparams) eqn:Hv; [|done].
    exfalso. apply Hpre. right. right. left. split; [|done].
    by destruct (fastest_dim rparams), (persistent_kernel rparams),
         (cross_grid_inner_reduction rparams). }
  unfold static_dims_missing in Hstatic. rewrite Hogp in Hstatic. simpl in Hstatic.
  apply orb_false_iff in Hstatic as [Hy Hx]. apply negb_false_iff in Hy.
  destruct (inner_phase_runs rparams true (nDims (reduction_tv s)))
    as (n1 & Hn1 & Hinner); [done|done|].
  destruct (outer_phase_runs rparams n1) as (n2 & Hn2 & Houter); [lia|].
  destruct (Hinner s eq_refl) as (sa & [] & Hra & Hda).
  destruct (Houter sa Hda) as (sb & [] & Hrb & Hdb).
  pose proof (preserves_run _ _ _ _ _
                (inner_phase_no_vectorized rparams true Hbi Hgi Hvr) Hnovec Hra) as Hva.
  pose proof (preserves_run _ _ _ _ _
                (outer_phase_no_vectorized rparams Hbo Hgo) Hva Hrb) as Hvb.
  destruct (tv_domain (reduction_tv sb)) as [|id0 l2] eqn:Hdomb.
  { unfold nDims in Hdb. rewrite Hdomb in Hdb. simpl in Hdb. lia. }
  destruct (iter_phase_layout rparams id0 l2 sb) as (s1 & mid & Hrc & Hdom1 & Hfmt);
    [by rewrite Hogp|done|].
  assert (scheduleLoopNest rparams true s = (s1, Ok tt)) as Hnest.
  { unfold scheduleLoopNest.
    rewrite (bind_ok _ _ _ _ _ Hcheck), (bind_ok _ _ _ _ _ Hra).
    by rewrite (bind_ok _ _ _ _ _ Hrb). }
  (* exactly one vectorized axis after the loop nest *)
  destruct (ogp_iter_format_types rparams id0 Hogp Hvec) as (pre & Hpre_eq & Hpre_ty).
  rewrite Hpre_eq in Hfmt.
  apply Forall2_app_inv_r in Hfmt as (mpre & mv & Hfpre & Hfv & ->).
  apply Forall2_cons_inv_r in Hfv as (v & mv' & Hv & Hnil & ->).
  apply Forall2_nil_inv_r in Hnil as ->.
  destruct Hv as (Hvty & _ & _ & _ & Hvext). simpl in Hvty, Hvext.
  assert (Forall not_vectorized (mpre ++ l2)) as Hothers.
  { apply Forall_app. split.
    - clear -Hfpre Hpre_ty. induction Hfpre as [|a fm l l' Ha _ IH]; [done|].
      apply Forall_cons in Hpre_ty as [Hty Hrest].
      constructor; [|by apply IH]. destruct Ha as [Ha _].
      unfold not_vectorized. by rewrite Ha.
    - unfold no_vectorized_axis in Hvb. rewrite Hdomb in Hvb.
      by apply Forall_cons in Hvb as [_ ?]. }
  (* the sort *)
  destruct (preserves_run _ _ _ _ _ (loop_nest_fresh_names rparams true)
              Hfresh Hnest) as [Hd1 _].
  destruct (reorderToCanonical_sorted std_sort s1 Hd1 (proj1 Hsort _))
    as (m & _ & Hrun2).
  set (s2 := mkSched
               (mkTensorView (std_sort id_lt (tv_domain (reduction_tv s1)))
                  (tv_log (reduction_tv s1) ++ [OpReorder (map_to_list m)]))
               (next_name s1)) in *.
  destruct (not_vectorized_perm (mpre ++ l2) (tv_domain (reduction_tv s2)) v)
    as (l1' & l2' & Hd2 & Hl1' & Hl2'); [|done|].
  { simpl. rewrite (proj1 Hsort _), Hdom1.
    rewrite <- !app_assoc. apply Permutation_app_head.
    simpl. apply Permutation_cons_append. }
  (* the staging *)
  destruct (Hstage (staged_axes (tv_domain (reduction_tv s2))) s2)
    as (s3 & rf & Hrf & Hsame).
  rewrite Hd2 in Hsame.
  apply Forall2_app_inv_r in Hsame as (r1 & rv & Hr1 & Hrv & Hrfd).
  apply Forall2_cons_inv_r in Hrv as (v' & r2 & [Hv'ty Hv'ext] & Hr2 & ->).
  assert (forall (l r : list IterDomain),
            Forall2 (fun a b => getParallelType a = getParallelType b /\
                                extent a = extent b) r l ->
            Forall not_vectorized l -> Forall not_vectorized r) as Hcarry.
  { intros l r H. induction H as [|a b r l [Hab _] _ IH]; [done|].
    intros [Hb Hl]%Forall_cons. constructor; [|by apply IH].
    unfold not_vectorized. by rewrite Hab. }
  destruct (moveVectorizedInnermost_moves rf r1 v' r2 Hrfd) as (m' & Hmove);
    [congruence|by eapply Hcarry|by eapply Hcarry|].
  exists s3. eexists. exists (r1 ++ r2), v'. split; [|split; [|split; [|split]]].
  - unfold scheduleReductionTV. rewrite (bind_ok _ _ _ _ _ Hnest), Hogp.
    unfold sortAndRFactor. rewrite bind_assoc, (bind_ok _ _ _ _ _ Hrun2).
    unfold bind at 2, get. unfold bind at 1. rewrite Hrf.
    unfold lift. by rewrite Hmove.
  - simpl. by rewrite <- app_assoc.
  - congruence.
  - congruence.
  - apply Forall_app. split; by eapply Hcarry.
Qed.

Lemma ogp_vectorized_axis_innermost_witness :
  exists s' rf rest v,
    scheduleReductionTV insertion_sort rfactorHelper_model rparams_scenario3 true
      ex_2d_node = (s', Ok rf) /\
    tv_domain rf = rest ++ [v] /\
    getParallelType v = Vectorize /\
    extent v = IntConst (to_int (unroll_factor_iter_dom rparams_scenario3)) /\
    Forall not_vectorized rest.
Proof.
  apply (ogp_vectorized_axis_innermost insertion_sort rfactorHelper_model
           rparams_scenario3 ex_2d_node); try reflexivity.
  - exact insertion_sort_contract.
  - exact rfactorHelper_model_stages_in_place.
  - split; [unfold distinct_axes; by_evaluation|]. repeat constructor.
  - repeat constructor; discriminate.
  - intros Hv. vm_compute in Hv. intuition (discriminate || lia).
Defined.
